(** * Proposal lifecycle and vote tally engine of the governance bot

    A shallow embedding of the persistence, discovery, tally and archival
    code of the bot ([bot/main.py], [bot/governance_monitor.py],
    [bot/utils/button_handler.py], [bot/utils/data_processing.py]) and the
    properties of its specification that can be settled on it.

    Python objects are dynamically typed; the documents the bot keeps are
    whatever [json.load] returned.  The embedding therefore works on a small
    universe of Python values (None, int, str, list, dict), with the
    exceptions of the operations written out.  The documents the bot writes
    hold no float and no bool, so the universe has none. *)

From Stdlib Require Import ZArith Lia Ascii String DecimalString.
From Stdlib Require DecimalPos DecimalZ.
From stdpp Require Import base decidable option list gmap strings sorting.

Set Warnings "-register-all".
Local Open Scope string_scope.
Local Open Scope list_scope.
Local Open Scope Z_scope.

(* ===================================================================== *)
(** * Part I: definitions *)
(* ===================================================================== *)

(** ** Python values *)

(** Dictionary keys.  The bot only uses [int] and [str] keys; the two never
    compare equal in Python ([1 != "1"]). *)
Inductive key : Type :=
| KInt (z : Z)
| KStr (s : string).

#[global] Instance key_eq_dec : EqDecision key.
Proof. solve_decision. Defined.

(** A [dict] is an association list in insertion order without repeated
    keys, as Python's [dict] is. *)
Inductive value : Type :=
| VNone
| VInt (z : Z)
| VStr (s : string)
| VList (l : list value)
| VDict (d : list (key * value)).

Abbreviation dict := (list (key * value)).

(** Exceptions raised by the operations the bot uses. *)
Inductive exn : Type :=
| AttributeError
| TypeError
| ValueError
| KeyError
| IndexError
| FileNotFoundError
| JSONDecodeError
| HTTPException.          (* discord.HTTPException and its kin *)

Inductive res (A : Type) : Type :=
| Ok (a : A)
| Raise (e : exn).
Arguments Ok {A} a.
Arguments Raise {A} e.

#[global] Instance res_ret : MRet res := λ A a, Ok a.
#[global] Instance res_bind : MBind res := λ A B k r,
  match r with
  | Ok a => k a
  | Raise e => Raise e
  end.

#[global] Instance res_fmap : FMap res := λ A B f r,
  match r with
  | Ok a => Ok (f a)
  | Raise e => Raise e
  end.

(** Code that mutates shared state and may raise half way: the state at the
    point of the exception is what the handler (and the caller) sees. *)
Definition stx (S A : Type) : Type := S → res A * S.

#[global] Instance stx_ret {S} : MRet (stx S) := λ A a s, (Ok a, s).
#[global] Instance stx_bind {S} : MBind (stx S) := λ A B k m s,
  match m s with
  | (Ok a, s') => k a s'
  | (Raise e, s') => (Raise e, s')
  end.

Definition raise {S A} (e : exn) : stx S A := λ s, (Raise e, s).
Definition lift {S A} (r : res A) : stx S A := λ s, (r, s).
Definition gets {S A} (f : S → A) : stx S A := λ s, (Ok (f s), s).
Definition modify {S} (f : S → S) : stx S () := λ s, (Ok (), f s).

(** [try: body except Exception: handler] *)
Definition try_except {S A} (body : stx S A) (handler : exn → stx S A)
  : stx S A := λ s,
  match body s with
  | (Ok a, s') => (Ok a, s')
  | (Raise e, s') => handler e s'
  end.

(** *** Dictionary operations *)

Section dict_ops.
Context {V : Type}.

(** [d.get(k)] / [d[k]] *)
Fixpoint dict_get (k : key) (d : list (key * V)) : option V :=
  match d with
  | [] => None
  | (k', v) :: d' => if decide (k = k') then Some v else dict_get k d'
  end.

(** [k in d] *)
Definition dict_mem (k : key) (d : list (key * V)) : bool :=
  match dict_get k d with Some _ => true | None => false end.

(** [d[k] = v]: an existing key keeps its position, a new key is
    appended. *)
Fixpoint dict_set (k : key) (v : V) (d : list (key * V)) : list (key * V) :=
  match d with
  | [] => [(k, v)]
  | (k', v') :: d' =>
      if decide (k = k') then (k, v) :: d' else (k', v') :: dict_set k v d'
  end.

(** [d.pop(k, None)] *)
Fixpoint dict_pop (k : key) (d : list (key * V)) : list (key * V) :=
  match d with
  | [] => []
  | (k', v') :: d' =>
      if decide (k = k') then d' else (k', v') :: dict_pop k d'
  end.

(** [dict(pairs)]: later pairs overwrite earlier ones. *)
Definition dict_of_pairs (l : list (key * V)) : list (key * V) :=
  fold_left (λ d kv, dict_set kv.1 kv.2 d) l [].

Definition dict_keys (d : list (key * V)) : list key := d.*1.
End dict_ops.

(** [v.get(k, default)] on an arbitrary value: only dictionaries have the
    method. *)
Definition py_get (v : value) (k : key) (dflt : value) : res value :=
  match v with
  | VDict d => Ok (default dflt (dict_get k d))
  | _ => Raise AttributeError
  end.

(** Truth value of an object in [if x:]. *)
Definition truthy (v : value) : bool :=
  match v with
  | VNone => false
  | VInt z => negb (z =? 0)
  | VStr s => negb (String.eqb s "")
  | VList l => match l with [] => false | _ => true end
  | VDict d => match d with [] => false | _ => true end
  end.

(** [str(k)] of a key, as in an f-string and as [json.dump] writes keys. *)
Definition str_of_int (z : Z) : string := NilZero.string_of_int (Z.to_int z).

Definition key_str (k : key) : string :=
  match k with
  | KInt z => str_of_int z
  | KStr s => s
  end.

(** [x - n] and [x + n] with an [int] literal on the right: every other
    left operand of the universe raises [TypeError]. *)
Definition py_sub (v : value) (n : Z) : res Z :=
  match v with
  | VInt z => Ok (z - n)
  | _ => Raise TypeError
  end.

Definition py_add (v : value) (n : Z) : res Z :=
  match v with
  | VInt z => Ok (z + n)
  | _ => Raise TypeError
  end.

(** The object used as a dictionary key: lists and dictionaries are
    unhashable.  Applied to truthy objects only, so [None] does not occur. *)
Definition as_key (v : value) : res key :=
  match v with
  | VInt z => Ok (KInt z)
  | VStr s => Ok (KStr s)
  | VNone | VList _ | VDict _ => Raise TypeError
  end.

(** [k == x] for a key [k] and an object [x]: an [int] equals the same
    [int], a [str] the same [str], and nothing else of the universe. *)
Definition key_eqb (k : key) (x : value) : bool :=
  match k, x with
  | KInt z, VInt z' => z =? z'
  | KStr s, VStr s' => String.eqb s s'
  | _, _ => false
  end.

(** [k in v] for a key [k]: a key of a dictionary, an element of a list, a
    substring of a [str] (for a [str] [k] only); [None] and an [int] cannot
    be searched. *)
Definition py_contains (v : value) (k : key) : res bool :=
  match v with
  | VDict d => Ok (dict_mem k d)
  | VList l => Ok (existsb (key_eqb k) l)
  | VStr t =>
      match k with
      | KStr s => Ok (bool_decide (is_Some (String.index 0 s t)))
      | KInt _ => Raise TypeError
      end
  | VNone | VInt _ => Raise TypeError
  end.

(** The position an index [i] names in a sequence of length [n]: negative
    indices count from the end. *)
Definition py_index (i : Z) (n : nat) : option nat :=
  if (0 <=? i) && (i <? Z.of_nat n) then Some (Z.to_nat i)
  else if (- Z.of_nat n <=? i) && (i <? 0) then Some (Z.to_nat (Z.of_nat n + i))
  else None.

(** [v[k]]: a dictionary is indexed with its keys, a list and a [str] with
    [int]s. *)
Definition py_getitem (v : value) (k : key) : res value :=
  match v with
  | VDict d => match dict_get k d with
               | Some x => Ok x
               | None => Raise KeyError
               end
  | VList l =>
      match k with
      | KInt i => match py_index i (length l) ≫= (l !!.) with
                  | Some x => Ok x
                  | None => Raise IndexError
                  end
      | KStr _ => Raise TypeError
      end
  | VStr t =>
      match k with
      | KInt i => match py_index i (String.length t)
                        ≫= (λ n, String.get n t) with
                  | Some a => Ok (VStr (String a EmptyString))
                  | None => Raise IndexError
                  end
      | KStr _ => Raise TypeError
      end
  | VNone | VInt _ => Raise TypeError
  end.

(** [v[k] = x]: a dictionary takes every key, a list the indices it has;
    nothing else supports item assignment. *)
Definition py_setitem (v : value) (k : key) (x : value) : res value :=
  match v with
  | VDict d => Ok (VDict (dict_set k x d))
  | VList l =>
      match k with
      | KInt i => match py_index i (length l) with
                  | Some n => Ok (VList (<[n := x]> l))
                  | None => Raise IndexError
                  end
      | KStr _ => Raise TypeError
      end
  | VNone | VInt _ | VStr _ => Raise TypeError
  end.

(** [v.items()]: only dictionaries have the method. *)
Definition py_items (v : value) : res dict :=
  match v with
  | VDict d => Ok d
  | _ => Raise AttributeError
  end.

(** What a document holds under a name: the item of a dictionary, and
    nothing for a document that is no dictionary. *)
Definition dict_item (k : key) (v : value) : option value :=
  match v with
  | VDict d => dict_get k d
  | _ => None
  end.

(** ** JSON documents on disk *)

(** The text of a file, parsed: [json.load] either finds a JSON text or
    raises.  Object members are kept as written, repeated names included. *)
Inductive json : Type :=
| JNull
| JNum (z : Z)
| JString (s : string)
| JArray (l : list json)
| JObject (m : list (string * json)).

(** [json.dump]: keys are written as strings ([1] becomes ["1"]). *)
Fixpoint dumps (v : value) : json :=
  match v with
  | VNone => JNull
  | VInt z => JNum z
  | VStr s => JString s
  | VList l => JArray (map dumps l)
  | VDict d => JObject (map (λ kv, (key_str kv.1, dumps kv.2)) d)
  end.

(** [json.load]: an object becomes a [dict] with [str] keys, the last of
    repeated names winning. *)
Fixpoint loads (j : json) : value :=
  match j with
  | JNull => VNone
  | JNum z => VInt z
  | JString s => VStr s
  | JArray l => VList (map loads l)
  | JObject m => VDict (dict_of_pairs (map (λ kv, (KStr kv.1, loads kv.2)) m))
  end.

Definition dump_obj (d : dict) : list (string * json) :=
  map (λ kv, (key_str kv.1, dumps kv.2)) d.

Definition load_obj (m : list (string * json)) : dict :=
  dict_of_pairs (map (λ kv, (KStr kv.1, loads kv.2)) m).

(** A file of the data directory.  [Text j] holds the complete text of the
    JSON value [j]: an object for the documents the bot writes, but
    [json.load] takes an array, a string, a number or [null] as well.
    [Malformed] is a file that [json.load] rejects, the empty file
    included.  Booleans and floats, which the bot never writes, have no
    counterpart in [json]; files that hold them are not modelled. *)
Inductive content : Type :=
| Text (j : json)
| Malformed (raw : string).

(** The data directory: path to content. *)
Abbreviation disk := (gmap string content).

(** [open(path, 'w')] creates the file or truncates it in place. *)
Definition open_w (path : string) (fs : disk) : disk :=
  <[path := Malformed ""]> fs.

(** [json.dump(v, f, indent=2)] and the close at the end of the [with]
    block: the file holds the complete text. *)
Definition json_dump (path : string) (v : value) (fs : disk) : disk :=
  <[path := Text (dumps v)]> fs.

(** [with open(path, 'w') as f: json.dump(v, f, indent=2)] as the sequence
    of its effects on the disk.  A crash after [k] of them leaves
    [run_steps (take k steps) fs]. *)
Definition write_steps (path : string) (v : value) : list (disk → disk) :=
  [open_w path; json_dump path v].

Definition run_steps (steps : list (disk → disk)) (fs : disk) : disk :=
  fold_left (λ s f, f s) steps fs.

Definition write_json (path : string) (v : value) (fs : disk) : disk :=
  run_steps (write_steps path v) fs.

(** [with open(path, 'r') as f: return json.load(f)]: what is returned is
    whatever value the text denotes, a dictionary only when the text is an
    object. *)
Definition read_json (path : string) (fs : disk) : res value :=
  match fs !! path with
  | None => Raise FileNotFoundError
  | Some (Malformed _) => Raise JSONDecodeError
  | Some (Text j) => Ok (loads j)
  end.

(** ** Values that are JSON documents *)

(** What [json.load] returns: dictionaries have [str] keys only (and, as
    every Python dictionary, no key twice). *)
Definition is_str_key (k : key) : Prop :=
  match k with
  | KStr _ => True
  | KInt _ => False
  end.

Fixpoint json_like (v : value) : Prop :=
  match v with
  | VNone | VInt _ | VStr _ => True
  | VList l => fold_right (λ x acc, json_like x ∧ acc) True l
  | VDict d =>
      NoDup (dict_keys d) ∧
      fold_right (λ kv acc, is_str_key kv.1 ∧ json_like kv.2 ∧ acc) True d
  end.

(** [json.load] only makes [str] keys. *)
Definition str_keys {V} (d : list (key * V)) : Prop :=
  ∀ z, dict_get (KInt z) d = None.

(** ** The bot's in-memory state ([GovernanceBot], bot/main.py) *)

(** [self.vote_counts] and the data directory.  [vote_counts] maps a thread
    id to the vote data of the thread, a flat dictionary
    [{'index': .., 'aye': n, 'nay': n, 'recuse': n, 'users': {..}, ..}]. *)
Record client : Type := Client {
  vote_counts : dict;
  data_dir : disk
}.

Definition vote_counts_file : string := "../data/vote_counts.json".

(** [GovernanceBot.load_vote_counts]: only [FileNotFoundError] is caught,
    a decoding error propagates to the caller. *)
Definition load_vote_counts (fs : disk) : res value :=
  match read_json vote_counts_file fs with
  | Raise FileNotFoundError => Ok (VDict [])
  | r => r
  end.

(** [GovernanceBot.save_vote_counts], the definition at the end of the class
    body, which replaces the earlier one of the same name (the one that
    took a backup first): a plain write in place. *)
Definition save_vote_counts_steps (c : client) : list (disk → disk) :=
  write_steps vote_counts_file (VDict (vote_counts c)).

Definition save_vote_counts : stx client () :=
  modify (λ c, Client (vote_counts c)
                      (run_steps (save_vote_counts_steps c) (data_dir c))).

(** ** Casting a vote ([ButtonHandler], bot/utils/button_handler.py) *)

(** What the user is told. *)
Inductive reply : Type :=
| NoPermission
| ThreadInactive
| Recorded (vote_type : string)
| ProcessingError.

(** [vote_data = self.client.vote_counts[self.thread_id]] is an alias of the
    stored dictionary: reads and item assignments through it act on the
    client's state. *)
Definition vote_data (thread_id : key) : stx client value := λ c,
  match dict_get thread_id (vote_counts c) with
  | Some v => (Ok v, c)
  | None => (Raise KeyError, c)
  end.

(** [vote_data[k] = v] *)
Definition vote_data_setitem (thread_id k : key) (v : value)
  : stx client () := λ c,
  match dict_get thread_id (vote_counts c) with
  | Some (VDict r) =>
      (Ok (), Client (dict_set thread_id (VDict (dict_set k v r))
                               (vote_counts c))
                     (data_dir c))
  | Some _ => (Raise TypeError, c)
  | None => (Raise KeyError, c)
  end.

(** [vote_data['users'][user_id] = vote_type] *)
Definition users_setitem (thread_id : key) (user_id vote_type : string)
  : stx client () :=
  vd ← vote_data thread_id;
  match vd with
  | VDict r =>
      match dict_get (KStr "users") r with
      | Some (VDict u) =>
          vote_data_setitem thread_id (KStr "users")
            (VDict (dict_set (KStr user_id) (VStr vote_type) u))
      | Some _ => raise TypeError
      | None => raise KeyError
      end
  | _ => raise TypeError
  end.

(** [ButtonHandler._handle_vote] when [_check_voting_permissions] returns
    [permitted] and every [interaction.response.send_message] goes
    through: what is returned is the message sent.  [user_id] is
    [str(interaction.user.id)].  The refresh of the displayed counts
    ([_update_vote_display]) reads the state, edits a message and swallows
    its own exceptions; it is left out.  The handler with a check and with
    sends that may raise is [ButtonHandler._handle_vote] below. *)
Definition _handle_vote (permitted : bool) (thread_id : key)
    (user_id vote_type : string) : stx client reply :=
  try_except
    (if negb permitted then mret NoPermission else
     counts ← gets vote_counts;
     if negb (dict_mem thread_id counts) then mret ThreadInactive else
     (* Remove previous vote if exists *)
     vd ← vote_data thread_id;
     users ← lift (py_get vd (KStr "users") (VDict []));
     previous_vote ← lift (py_get users (KStr user_id) VNone);
     _ ← (if truthy previous_vote then
            k ← lift (as_key previous_vote);
            vd ← vote_data thread_id;
            old ← lift (py_get vd k (VInt 0));
            n ← lift (py_sub old 1);
            vote_data_setitem thread_id k (VInt (Z.max 0 n))
          else mret ());
     (* Add new vote *)
     vd ← vote_data thread_id;
     has_users ← lift (py_contains vd (KStr "users"));
     _ ← (if negb has_users
          then vote_data_setitem thread_id (KStr "users") (VDict [])
          else mret ());
     _ ← users_setitem thread_id user_id vote_type;
     vd ← vote_data thread_id;
     old ← lift (py_get vd (KStr vote_type) (VInt 0));
     n ← lift (py_add old 1);
     _ ← vote_data_setitem thread_id (KStr vote_type) (VInt n);
     (* Save vote counts *)
     _ ← save_vote_counts;
     mret (Recorded vote_type))
    (λ _, mret ProcessingError).

(** The three buttons. *)
Definition vote_aye (permitted : bool) (thread_id : key) (user_id : string)
  : stx client reply := _handle_vote permitted thread_id user_id "aye".
Definition vote_nay (permitted : bool) (thread_id : key) (user_id : string)
  : stx client reply := _handle_vote permitted thread_id user_id "nay".
Definition vote_recuse (permitted : bool) (thread_id : key) (user_id : string)
  : stx client reply := _handle_vote permitted thread_id user_id "recuse".

(** The choices of the three buttons. *)
Definition choices : list string := ["aye"; "nay"; "recuse"].

(** *** The handler and its interaction *)

(** What the interaction of a click does for the handler: the outcome of
    [await self._check_voting_permissions(interaction.user,
    interaction.guild)], which reads the roles of the guild and of the user
    and raises where there are none to read, and the outcome of [await
    interaction.response.send_message(..)] for each of the four texts,
    which raises when Discord refuses the response or the interaction has
    expired. *)
Record interaction : Type := Interaction {
  _check_voting_permissions : res bool;
  send_message : reply → res ();
}.

Module ButtonHandler.

(** [ButtonHandler._handle_vote], every [await] in its place.  The check
    and the three sends of the [try] block are inside it, so an exception
    of theirs is handled like any other; the send of the handler is not
    protected.  [Ok r]: the coroutine has returned and the user has been
    sent [r]; [Raise e]: [e] has left the coroutine, and the user has been
    sent nothing. *)
Definition _handle_vote (interaction : interaction) (thread_id : key)
    (user_id vote_type : string) : stx client reply :=
  try_except
    (permitted ← lift (_check_voting_permissions interaction);
     if negb permitted then
       _ ← lift (send_message interaction NoPermission);
       mret NoPermission
     else
     counts ← gets vote_counts;
     if negb (dict_mem thread_id counts) then
       _ ← lift (send_message interaction ThreadInactive);
       mret ThreadInactive
     else
     (* Remove previous vote if exists *)
     vd ← vote_data thread_id;
     users ← lift (py_get vd (KStr "users") (VDict []));
     previous_vote ← lift (py_get users (KStr user_id) VNone);
     _ ← (if truthy previous_vote then
            k ← lift (as_key previous_vote);
            vd ← vote_data thread_id;
            old ← lift (py_get vd k (VInt 0));
            n ← lift (py_sub old 1);
            vote_data_setitem thread_id k (VInt (Z.max 0 n))
          else mret ());
     (* Add new vote *)
     vd ← vote_data thread_id;
     has_users ← lift (py_contains vd (KStr "users"));
     _ ← (if negb has_users
          then vote_data_setitem thread_id (KStr "users") (VDict [])
          else mret ());
     _ ← users_setitem thread_id user_id vote_type;
     vd ← vote_data thread_id;
     old ← lift (py_get vd (KStr vote_type) (VInt 0));
     n ← lift (py_add old 1);
     _ ← vote_data_setitem thread_id (KStr vote_type) (VInt n);
     (* Save vote counts *)
     _ ← save_vote_counts;
     (* Send confirmation *)
     _ ← lift (send_message interaction (Recorded vote_type));
     mret (Recorded vote_type))
    (λ _,
       _ ← lift (send_message interaction ProcessingError);
       mret ProcessingError).

End ButtonHandler.

(** The answer of the permission check as the handler takes it: a check
    that raises grants nothing. *)
Definition permission (interaction : interaction) : bool :=
  match _check_voting_permissions interaction with
  | Ok permitted => permitted
  | Raise _ => false
  end.

(** The handler of the [except] clause: the send of the error message,
    unprotected. *)
Definition send_error (i : interaction) (c : client) : res reply * client :=
  (match send_message i ProcessingError with
   | Ok _ => Ok ProcessingError
   | Raise e => Raise e
   end, c).

(** An interaction whose check returns [permitted] and whose sends all go
    through. *)
Definition delivered (permitted : bool) : interaction :=
  Interaction (Ok permitted) (λ _, Ok ()).

(** A sequence of clicks of one user in one thread (permission granted). *)
Definition cast_votes (thread_id : key) (user_id : string)
    (votes : list string) (c : client) : client :=
  fold_left (λ c v, (_handle_vote true thread_id user_id v c).2) votes c.

(** *** The tally invariant of a vote record *)

(** [counts[c]] of the record. *)
Definition tally (c : string) (r : dict) : option Z :=
  match dict_get (KStr c) r with
  | Some (VInt n) => Some n
  | _ => None
  end.

(** [users] of the record. *)
Definition users_of (r : dict) : option dict :=
  match dict_get (KStr "users") r with
  | Some (VDict u) => Some u
  | _ => None
  end.

(** Number of entries of [users] whose value is [c]. *)
Definition is_vote (c : string) (v : value) : bool :=
  match v with
  | VStr s => bool_decide (s = c)
  | _ => false
  end.

Fixpoint voters (c : string) (u : dict) : Z :=
  match u with
  | [] => 0
  | (_, v) :: u' => (if is_vote c v then 1 else 0) + voters c u'
  end.

(** For every choice [c], [counts[c]] is the number of entries of [users]
    with value [c], and [sum(counts.values()) == len(users)]. *)
Definition tally_inv (v : value) : Prop :=
  ∃ r u a n rc,
    v = VDict r ∧ users_of r = Some u ∧
    tally "aye" r = Some a ∧ tally "nay" r = Some n ∧
    tally "recuse" r = Some rc ∧
    a = voters "aye" u ∧ n = voters "nay" u ∧ rc = voters "recuse" u ∧
    a + n + rc = Z.of_nat (length u).

(** ** Proposal discovery ([GovernanceMonitor], bot/governance_monitor.py) *)

Definition cache_file : string := "../data/governance_cache.json".

(** [int(s)] for a [str]: surrounding white space, an optional sign, and
    decimal digits that single underscores may separate (the ASCII part of
    what Python accepts). *)
Definition is_space (a : ascii) : bool :=
  let n := nat_of_ascii a in
  ((n =? 32) || ((9 <=? n) && (n <=? 13)) || ((28 <=? n) && (n <=? 31)))%nat.

Fixpoint lstrip (l : list ascii) : list ascii :=
  match l with
  | a :: l' => if is_space a then lstrip l' else l
  | [] => []
  end.

Definition strip (l : list ascii) : list ascii :=
  rev (lstrip (rev (lstrip l))).

Definition digit_val (a : ascii) : option Z :=
  let n := nat_of_ascii a in
  if ((48 <=? n) && (n <=? 57))%nat then Some (Z.of_nat n - 48) else None.

Fixpoint digits (acc : Z) (after_digit : bool) (l : list ascii) : option Z :=
  match l with
  | [] => if after_digit then Some acc else None
  | a :: l' =>
      if Ascii.eqb a "_"%char
      then (if after_digit then digits acc false l' else None)
      else match digit_val a with
           | Some d => digits (10 * acc + d) true l'
           | None => None
           end
  end.

Definition int_of_str (s : string) : option Z :=
  match strip (list_ascii_of_string s) with
  | a :: l' =>
      if Ascii.eqb a "-"%char then Z.opp <$> digits 0 false l'
      else if Ascii.eqb a "+"%char then digits 0 false l'
      else digits 0 false (a :: l')
  | [] => None
  end.

(** [int(proposal_id)] *)
Definition py_int (k : key) : res Z :=
  match k with
  | KInt z => Ok z
  | KStr s => match int_of_str s with
              | Some z => Ok z
              | None => Raise ValueError
              end
  end.

(** The file at [path], when it is there and decodes, holds a JSON object:
    so it is with every file the bot has written from a dictionary. *)
Definition is_object (j : json) : bool :=
  match j with
  | JObject _ => true
  | _ => false
  end.

Definition holds_object (path : string) (fs : disk) : bool :=
  match fs !! path with
  | Some (Text j) => is_object j
  | Some (Malformed _) | None => true
  end.

(** [GovernanceMonitor._load_cache]: what [json.load] returns, whatever it
    is; every exception is logged and answered with an empty cache. *)
Definition _load_cache (fs : disk) : res value :=
  match (match fs !! cache_file with      (* self.cache_file.exists() *)
         | Some _ => read_json cache_file fs
         | None => Ok (VDict [])
         end) with
  | Ok v => Ok v
  | Raise _ => Ok (VDict [])
  end.

(** [GovernanceMonitor._save_cache] *)
Definition _save_cache_steps (cache_data : value) : list (disk → disk) :=
  write_steps cache_file cache_data.

Definition _save_cache (cache_data : value) (fs : disk) : disk :=
  run_steps (_save_cache_steps cache_data) fs.

(** One turn of the loop of [monitor_new_proposals] over
    [active_proposals.keys()].  The state is [cached_proposals] (whatever
    [_load_cache] has returned) and [new_proposals]; [clock i] is what the
    [i]-th reading of [datetime.now(timezone.utc).isoformat()] of the call
    returns. *)
Definition discover_one (active_proposals : dict) (clock : nat → string)
    (st : value * list Z) (proposal_id : key) : res (value * list Z) :=
  let '(cached_proposals, new_proposals) := st in
  proposal_id_int ← py_int proposal_id;
  seen ← py_contains cached_proposals (KInt proposal_id_int);
  if negb seen then
    let discovered_at := clock (length new_proposals) in
    metadata ← match dict_get proposal_id active_proposals with
                | Some md => Ok md
                | None => Raise KeyError
                end;
    title ← py_get metadata (KStr "title")
               (VStr ("Proposal #" +:+ key_str proposal_id));
    cached_proposals ←
      py_setitem cached_proposals (KInt proposal_id_int)
        (VDict [(KStr "id", VInt proposal_id_int);
                (KStr "discovered_at", VStr discovered_at);
                (KStr "status", VStr "new");
                (KStr "title", title)]);
    Ok (cached_proposals, (new_proposals ++ [proposal_id_int])%list)
  else Ok st.

Fixpoint discover_loop (active_proposals : dict) (clock : nat → string)
    (st : value * list Z) (ids : list key) : res (value * list Z) :=
  match ids with
  | [] => Ok st
  | proposal_id :: ids' =>
      st' ← discover_one active_proposals clock st proposal_id;
      discover_loop active_proposals clock st' ids'
  end.

(** The cache as the loop leaves it in memory, with the new ids. *)
Definition discover (active_proposals : dict) (clock : nat → string)
    (fs : disk) : res (value * list Z) :=
  cached_proposals ← _load_cache fs;
  discover_loop active_proposals clock (cached_proposals, [])
    (dict_keys active_proposals).

(** [GovernanceMonitor.monitor_new_proposals]: the new ids and the disk
    afterwards.  An exception anywhere is logged and answered with [[]];
    the cache is then not saved. *)
Definition monitor_new_proposals (active_proposals : dict)
    (clock : nat → string) (fs : disk) : list Z * disk :=
  match discover active_proposals clock fs with
  | Ok (cached_proposals, new_proposals) =>
      (new_proposals, _save_cache cached_proposals fs)
  | Raise _ => ([], fs)
  end.

(** [GovernanceMonitor.get_proposal_info]: [cached_proposals.get(..)];
    a cache that is no dictionary has no [get], and the exception is
    answered with [None]. *)
Definition get_proposal_info (proposal_id : Z) (fs : disk) : option value :=
  match _load_cache fs with
  | Ok (VDict cached_proposals) => dict_get (KInt proposal_id) cached_proposals
  | Ok _ | Raise _ => None
  end.

(** ** Archival ([CacheManager.delete_executed_keys_and_archive],
       bot/utils/data_processing.py) *)

(** [x in active_proposals] for the list of active ids: list membership
    compares with [==].  The ids are [int]s (the annotation is [List[int]])
    or [str]s (the ids [HemiNetwork] hands out); an [int] only equals an
    [int] and a [str] a [str]. *)
Definition py_in (v : value) (active_proposals : list key) : bool :=
  match v with
  | VInt z => bool_decide (KInt z ∈ active_proposals)
  | VStr s => bool_decide (KStr s ∈ active_proposals)
  | _ => false
  end.

Definition is_none (v : value) : bool :=
  match v with
  | VNone => true
  | _ => false
  end.

(** [{**vote_data, 'archived_at': now, 'final_status': 'completed'}] *)
Definition archive_entry (vote_data : dict) (now : string) : dict :=
  dict_set (KStr "final_status") (VStr "completed")
    (dict_set (KStr "archived_at") (VStr now) vote_data).

(** One turn of the loop over [vote_counts.items()].  The state is
    [archived_votes] (an empty dictionary, or whatever [json.load] has
    returned for the archive) and [threads_to_lock] ([keys_to_remove] is
    the same list); [clock i] is the [i]-th reading of the time in the
    call. *)
Definition archive_one (active_proposals : list key) (clock : nat → string)
    (st : value * list key) (item : key * value) : res (value * list key) :=
  let '(archived_votes, threads_to_lock) := st in
  let '(thread_id, vote_data) := item in
  proposal_index ← py_get vote_data (KStr "index") VNone;
  if negb (is_none proposal_index)
     && negb (py_in proposal_index active_proposals)
  then
    match vote_data with
    | VDict r =>
        archived_votes ←
          py_setitem archived_votes thread_id
            (VDict (archive_entry r (clock (length threads_to_lock))));
        Ok (archived_votes, (threads_to_lock ++ [thread_id])%list)
    | _ => Raise TypeError
    end
  else Ok st.

Fixpoint archive_loop (active_proposals : list key) (clock : nat → string)
    (st : value * list key) (items : list (key * value))
  : res (value * list key) :=
  match items with
  | [] => Ok st
  | item :: items' =>
      st' ← archive_one active_proposals clock st item;
      archive_loop active_proposals clock st' items'
  end.

(** [for key in keys_to_remove: vote_counts.pop(key, None)] *)
Definition remove_keys (keys_to_remove : list key) (vote_counts : dict)
  : dict :=
  fold_left (λ d k, dict_pop k d) keys_to_remove vote_counts.

(** [archived_votes = {}], replaced by the content of the archive when
    [os.path.exists(archive_filename)]. *)
Definition load_archive (archive_filename : string) (fs : disk) : res value :=
  match fs !! archive_filename with
  | Some _ => read_json archive_filename fs
  | None => Ok (VDict [])
  end.

(** Everything up to the two writes: the documents to write and the list to
    return.  [vote_counts.items()] asks for a dictionary; the keys are
    popped from the same one. *)
Definition archive_plan (json_file_path : string)
    (active_proposals : list key) (archive_filename : string)
    (clock : nat → string) (fs : disk) : res (value * value * list key) :=
  vote_counts ← read_json json_file_path fs;
  archived_votes ← load_archive archive_filename fs;
  items ← py_items vote_counts;
  '(archived_votes', threads_to_lock) ←
    archive_loop active_proposals clock (archived_votes, []) items;
  Ok (VDict (remove_keys threads_to_lock items), archived_votes',
      threads_to_lock).

(** The effects on the disk, in the order of the code: the vote counts are
    written first, the archive second. *)
Definition archive_steps (json_file_path archive_filename : string)
    (vote_counts archived_votes : value) : list (disk → disk) :=
  write_steps json_file_path vote_counts
  ++ write_steps archive_filename archived_votes.

(** The whole call: the thread ids returned and the disk afterwards.  An
    exception is logged and answered with [[]]. *)
Definition delete_executed_keys_and_archive (json_file_path : string)
    (active_proposals : list key) (archive_filename : string)
    (clock : nat → string) (fs : disk) : list key * disk :=
  match archive_plan json_file_path active_proposals archive_filename
          clock fs with
  | Ok (vote_counts, archived_votes, threads_to_lock) =>
      (threads_to_lock,
       run_steps (archive_steps json_file_path archive_filename
                    vote_counts archived_votes) fs)
  | Raise _ => ([], fs)
  end.

(** The test of the loop on a vote record:
    [proposal_index is not None and proposal_index not in active_proposals]. *)
Definition retired (active_proposals : list key) (r : dict) : bool :=
  let proposal_index := default VNone (dict_get (KStr "index") r) in
  negb (is_none proposal_index)
  && negb (py_in proposal_index active_proposals).

Definition retired_item (active_proposals : list key) (item : key * value)
  : bool :=
  match item.2 with
  | VDict r => retired active_proposals r
  | _ => false
  end.

(** [proposal_index] of a vote record, when it is an id. *)
Definition proposal_index (r : dict) : option key :=
  match dict_get (KStr "index") r with
  | Some (VInt i) => Some (KInt i)
  | Some (VStr s) => Some (KStr s)
  | _ => None
  end.

(** ** Crash points *)

(** The disk when the process dies after the first [k] effects of a
    sequence of writes. *)
Definition crash_after (k : nat) (steps : list (disk → disk)) (fs : disk)
  : disk :=
  run_steps (take k steps) fs.

(** [delete_executed_keys_and_archive] interrupted after [k] effects on the
    disk. *)
Definition archive_crash (k : nat) (json_file_path : string)
    (active_proposals : list key) (archive_filename : string)
    (clock : nat → string) (fs : disk) : disk :=
  match archive_plan json_file_path active_proposals archive_filename
          clock fs with
  | Ok (vote_counts, archived_votes, _) =>
      crash_after k (archive_steps json_file_path archive_filename
                       vote_counts archived_votes) fs
  | Raise _ => fs
  end.

(** ** Rotating backups ([CacheManager], bot/utils/data_processing.py) *)

(** A file with its modification time (the only attribute the rotation
    looks at).  Times are integers, say nanoseconds. *)
Record file : Type := File {
  data : content;
  mtime : Z
}.

(** A directory, in the order [os.listdir] returns the names. *)
Abbreviation directory := (list (string * file)).

(** [s.endswith(suffix)] *)
Definition endswith (s suffix : string) : bool :=
  let n := String.length s in
  let m := String.length suffix in
  (m <=? n)%nat && String.eqb (substring (n - m) m s) suffix.

(** Writing a file into a directory: an existing name is overwritten, a new
    one added. *)
Fixpoint dir_write (name : string) (f : file) (dir : directory) : directory :=
  match dir with
  | [] => [(name, f)]
  | (name', f') :: dir' =>
      if decide (name = name') then (name, f) :: dir'
      else (name', f') :: dir_write name f dir'
  end.

(** [os.remove] *)
Definition dir_remove (name : string) (dir : directory) : directory :=
  filter (λ e, e.1 ≠ name) dir.

(** [backup_files.sort(key=lambda x: x[1], reverse=True)]: newest first;
    the sort is stable, entries with equal times keep their order. *)
Fixpoint insert_desc (x : string * Z) (l : list (string * Z))
  : list (string * Z) :=
  match l with
  | [] => [x]
  | y :: l' => if y.2 <=? x.2 then x :: y :: l' else y :: insert_desc x l'
  end.

Definition sort_desc (l : list (string * Z)) : list (string * Z) :=
  foldr insert_desc [] l.

(** [l[n:]] for an [int] [n], negative ones counting from the end. *)
Definition slice_from {A} (n : Z) (l : list A) : list A :=
  if 0 <=? n then drop (Z.to_nat n) l
  else drop (length l - Z.to_nat (- n)) l.

(** The [.bak] files of the directory with their times. *)
Definition backup_files (dir : directory) : list (string * Z) :=
  map (λ e, (e.1, mtime e.2)) (filter (λ e, endswith e.1 ".bak" = true) dir).

(** [CacheManager._cleanup_old_backups] *)
Definition _cleanup_old_backups (dir : directory) (max_backups : Z)
  : directory :=
  let sorted := sort_desc (backup_files dir) in
  fold_left (λ d e, dir_remove e.1 d) (slice_from max_backups sorted) dir.

(** [f"{os.path.basename(source_path)}_{timestamp}.bak"] *)
Definition backup_filename (source_name timestamp : string) : string :=
  source_name +:+ "_" +:+ timestamp +:+ ".bak".

(** [CacheManager.rotating_backup_file].  [source] is the file at
    [source_path], if there is one, [source_name] its base name, [dir] the
    backup directory (empty when [os.makedirs] has just made it) and
    [timestamp] the time of the call to the second.  [shutil.copy2] copies
    the content and the modification time of the source. *)
Definition rotating_backup_file (source_name : string) (source : option file)
    (timestamp : string) (max_backups : Z) (dir : directory) : directory :=
  match source with
  | None => dir
  | Some f =>
      let dir' := dir_write (backup_filename source_name timestamp) f dir in
      _cleanup_old_backups dir' max_backups
  end.

(** Successive backups of the file as it is at each of the times. *)
Definition backup_rounds (source_name : string) (max_backups : Z)
    (rounds : list (string * file)) (dir : directory) : directory :=
  fold_left (λ d r, rotating_backup_file source_name (Some r.2) r.1
                      max_backups d) rounds dir.

(** The number of [.bak] files of a directory. *)
Definition backup_count (dir : directory) : nat :=
  length (backup_files dir).

(** The order of the sorted list: no later entry is newer. *)
Definition newer_first (x y : string * Z) : Prop := y.2 ≤ x.2.

(** ** Example data *)

Definition demo_active : dict :=
  [(KInt 1, VDict [(KStr "title", VStr "Fund")]);
   (KInt 2, VDict [(KStr "title", VStr "Bridge")])].

Definition demo_tally : list (string * json) :=
  [("100", JObject [("index", JNum 1); ("aye", JNum 1); ("nay", JNum 0);
                    ("recuse", JNum 0);
                    ("users", JObject [("42", JString "aye")])]);
   ("200", JObject [("index", JNum 2); ("aye", JNum 0); ("nay", JNum 0);
                    ("recuse", JNum 0); ("users", JObject [])])].

Definition demo_disk : disk := {[ "votes.json" := Text (JObject demo_tally) ]}.

Definition demo_file (t : Z) : file := File (Text (JObject [])) t.

(** The record of scenario 2: thread ["100"], all counts zero. *)
Definition demo_record : dict :=
  [(KStr "index", VInt 1); (KStr "aye", VInt 0); (KStr "nay", VInt 0);
   (KStr "recuse", VInt 0); (KStr "users", VDict [])].

Definition demo_client : client :=
  Client [(KStr "100", VDict demo_record)] ∅.

(** A tally document with a record that has no [index]. *)
Definition demo_disk_no_index : disk :=
  {[ "votes.json" :=
       Text (JObject
               [("300", JObject [("aye", JNum 0); ("nay", JNum 0);
                                 ("recuse", JNum 0);
                                 ("users", JObject [])])]) ]}.



(** Seven backups at seven different seconds. *)
Definition demo_rounds : list (string * file) :=
  [("t1", demo_file 1); ("t2", demo_file 2); ("t3", demo_file 3);
   ("t4", demo_file 4); ("t5", demo_file 5); ("t6", demo_file 6);
   ("t7", demo_file 7)].

(** ** Specifications of stateful code *)

(** [triple P m Q]: run from a state that satisfies [P], [m] ends with a
    result and a state that satisfy [Q]. *)
Definition triple {S A} (P : S → Prop) (m : stx S A)
    (Q : res A → S → Prop) : Prop :=
  ∀ s, P s → Q (m s).1 (m s).2.

(** [keeps I m]: [m] keeps the invariant [I], whatever it returns or
    raises. *)
Definition keeps {S A} (I : S → Prop) (m : stx S A) : Prop :=
  triple I m (λ _ s, I s).

(** A record whose counts have drifted from [users]: user ["42"] is
    registered with aye, and the aye count is 0. *)
Definition demo_drifted_client : client :=
  Client [(KStr "100",
           VDict [(KStr "index", VInt 1); (KStr "aye", VInt 0);
                  (KStr "nay", VInt 0); (KStr "recuse", VInt 0);
                  (KStr "users", VDict [(KStr "42", VStr "aye")])])] ∅.

(** ** A new vote record ([check_governance], bot/main.py) *)

(** [l[:n]] for an [int] [n], negative ones counting from the end. *)
Definition slice_to {A} (n : Z) (l : list A) : list A :=
  if 0 <=? n then take (Z.to_nat n) l
  else take (length l - Z.to_nat (- n)) l.

(** A dictionary key as an object. *)
Definition key_value (k : key) : value :=
  match k with
  | KInt z => VInt z
  | KStr s => VStr s
  end.

(** [values['title'][:200].strip() if values['title'] else
    f"Proposal #{index}"], for a title that is a [str] or [None] (what
    [HemiNetwork.monitor_new_proposals] hands on). *)
Definition new_record_title (title : option string) (index : key) : string :=
  match title with
  | Some s =>
      if truthy (VStr s)
      then string_of_list_ascii
             (strip (slice_to 200 (list_ascii_of_string s)))
      else "Proposal #" +:+ key_str index
  | None => "Proposal #" +:+ key_str index
  end.

(** "Save vote data" in the loop of [check_governance] over the new
    proposals: the record of the new thread is stored under
    [str(new_proposal_thread.message.id)], and the tallies are saved.
    [epoch] is [int(time.time())]. *)
Definition save_vote_data (message_id : Z) (index : key)
    (title : option string) (governance_origin : list value) (epoch : Z)
  : stx client () :=
  _ ← modify (λ c,
        Client (dict_set (KStr (str_of_int message_id))
                  (VDict [(KStr "index", key_value index);
                          (KStr "title", VStr (new_record_title title index));
                          (KStr "origin", VList governance_origin);
                          (KStr "aye", VInt 0);
                          (KStr "nay", VInt 0);
                          (KStr "recuse", VInt 0);
                          (KStr "users", VDict []);
                          (KStr "epoch", VInt epoch)])
                  (vote_counts c))
               (data_dir c));
  save_vote_counts.

(** ** Archival in the governance check ([check_governance], bot/main.py) *)

Definition archived_votes_file : string := "../data/archived_votes.json".

(** "Archive old proposals" in [check_governance]:
    [delete_executed_keys_and_archive] is run on the tally file, with the
    proposals [HemiNetwork.get_governance_proposals] returns as the active
    ones ([not in] on that dictionary tests its keys).  The call works on
    the files; [client.vote_counts] is not an argument and is not loaded
    again afterwards. *)
Definition archive_old_proposals (active_proposals : dict)
    (clock : nat → string) : stx client (list key) := λ c,
  let out := delete_executed_keys_and_archive vote_counts_file
               (dict_keys active_proposals) archived_votes_file clock
               (data_dir c) in
  (Ok out.1, Client (vote_counts c) out.2).

(** The tallies of the example document in memory and on disk. *)
Definition demo_loaded_client : client :=
  Client (load_obj demo_tally) {[ vote_counts_file := Text (JObject demo_tally) ]}.

(** ** New proposals of the network ([HemiNetwork],
       bot/utils/hemi_network.py) *)

Module HemiNetwork.

(** The entry of a new proposal: six fields of [prop_data], read in the
    order of the dictionary display. *)
Definition new_proposal (prop_data : value) : res value :=
  title ← py_getitem prop_data (KStr "title");
  content ← py_getitem prop_data (KStr "description");
  onchain ← py_getitem prop_data (KStr "onchain");
  created_at ← py_getitem prop_data (KStr "created_at");
  proposer ← py_getitem prop_data (KStr "proposer");
  track ← py_getitem prop_data (KStr "track");
  Ok (VDict [(KStr "title", title); (KStr "content", content);
             (KStr "onchain", onchain); (KStr "created_at", created_at);
             (KStr "proposer", proposer); (KStr "track", track)]).

(** The loop over [all_proposals.items()]; the state is [new_proposals]. *)
Fixpoint collect (known_proposals : list key) (new_proposals : dict)
    (items : list (key * value)) : res dict :=
  match items with
  | [] => Ok new_proposals
  | (prop_id, prop_data) :: items' =>
      if negb (bool_decide (prop_id ∈ known_proposals)) then
        entry ← new_proposal prop_data;
        collect known_proposals (dict_set prop_id entry new_proposals) items'
      else collect known_proposals new_proposals items'
  end.

(** [HemiNetwork.monitor_new_proposals].  [all_proposals] is what
    [get_governance_proposals] has returned, [known_proposals] the set of
    the known ids.  An exception is logged and answered with [{}]. *)
Definition monitor_new_proposals (all_proposals : dict)
    (known_proposals : list key) : dict :=
  match collect known_proposals [] all_proposals with
  | Ok new_proposals => new_proposals
  | Raise _ => []
  end.

End HemiNetwork.

(** ** The cache of the monitor, continued ([GovernanceMonitor]) *)

(** [GovernanceMonitor.update_proposal_status].  [now] is
    [datetime.now(timezone.utc).isoformat()].  The two item assignments act
    on the entry inside [cached_proposals] (the entry is put back to say
    so); an exception is logged, and nothing is saved then. *)
Definition update_proposal_status (proposal_id : key) (status now : string)
    (fs : disk) : disk :=
  match (cached_proposals ← _load_cache fs;
         found ← py_contains cached_proposals proposal_id;
         if (found : bool) then
           entry ← py_getitem cached_proposals proposal_id;
           entry ← py_setitem entry (KStr "status") (VStr status);
           entry ← py_setitem entry (KStr "updated_at") (VStr now);
           cached_proposals ← py_setitem cached_proposals proposal_id entry;
           Ok (Some cached_proposals)
         else Ok None) with
  | Ok (Some cached_proposals) => _save_cache cached_proposals fs
  | Ok None | Raise _ => fs
  end.

(** [get_proposal_info] for an id of any type. *)
Definition get_proposal_info_key (proposal_id : key) (fs : disk)
  : option value :=
  match _load_cache fs with
  | Ok (VDict cached_proposals) => dict_get proposal_id cached_proposals
  | Ok _ | Raise _ => None
  end.

(** ['discovered_at' in proposal_info]: a key of a dictionary, an element
    of a list, a substring of a [str]; nothing else can be searched. *)
Definition is_str (s : string) (v : value) : bool :=
  match v with
  | VStr t => String.eqb t s
  | _ => false
  end.

Definition py_str_in (s : string) (v : value) : res bool :=
  match v with
  | VDict d => Ok (dict_mem (KStr s) d)
  | VList l => Ok (existsb (is_str s) l)
  | VStr t => Ok (bool_decide (is_Some (String.index 0 s t)))
  | VNone | VInt _ => Raise TypeError
  end.

(** The test of [cleanup_old_proposals] on one entry.  [age_days s] stands
    for [(current_time - datetime.fromisoformat(s.replace('Z', '+00:00')))
    .days], which raises on a text that is no date; a [discovered_at] that
    is not a [str] has no [replace]. *)
Definition removable (age_days : string → res Z) (days : Z)
    (proposal_info : value) : res bool :=
  has_date ← py_str_in "discovered_at" proposal_info;
  if (has_date : bool) then
    discovered_at ← py_getitem proposal_info (KStr "discovered_at");
    match discovered_at with
    | VStr s =>
        age ← age_days s;
        if days <? age then
          status ← py_get proposal_info (KStr "status") VNone;
          Ok (is_str "completed" status || is_str "expired" status)
        else Ok false
    | _ => Raise AttributeError
    end
  else Ok false.

(** The loop over [cached_proposals.items()]; the state is
    [proposals_to_remove]. *)
Fixpoint removable_ids (age_days : string → res Z) (days : Z)
    (proposals_to_remove : list key) (items : list (key * value))
  : res (list key) :=
  match items with
  | [] => Ok proposals_to_remove
  | (proposal_id, proposal_info) :: items' =>
      old ← removable age_days days proposal_info;
      removable_ids age_days days
        (if (old : bool) then proposals_to_remove ++ [proposal_id]
         else proposals_to_remove)
        items'
  end.

(** [del d[k]] *)
Definition dict_del (k : key) (d : dict) : res dict :=
  if dict_mem k d then Ok (dict_pop k d) else Raise KeyError.

Fixpoint del_keys (ks : list key) (d : dict) : res dict :=
  match ks with
  | [] => Ok d
  | k :: ks' => d' ← dict_del k d; del_keys ks' d'
  end.

(** [GovernanceMonitor.cleanup_old_proposals]: the cache is saved only when
    an entry has been removed; an exception is logged, and nothing is saved
    then. *)
Definition cleanup_old_proposals (age_days : string → res Z) (days : Z)
    (fs : disk) : disk :=
  match (cached_proposals ← _load_cache fs;
         items ← py_items cached_proposals;
         proposals_to_remove ← removable_ids age_days days [] items;
         cached_proposals ← del_keys proposals_to_remove items;
         Ok (proposals_to_remove, cached_proposals)) with
  | Ok (_ :: _, cached_proposals) => _save_cache (VDict cached_proposals) fs
  | Ok ([], _) | Raise _ => fs
  end.

(** Example ages, 400 days after the first second of 2024 (UTC).  A
    [discovered_at] carries an offset, as every [isoformat] of an aware time
    does.  A text without one, like ["2020-01-01"], is parsed as a naive
    time, and subtracting a naive time from the aware [current_time] raises
    [TypeError]; a text that is no date at all makes [fromisoformat] raise
    [ValueError]. *)
Definition demo_date : string := "2024-01-01T00:00:00+00:00".

Definition demo_age_days (s : string) : res Z :=
  if String.eqb s demo_date then Ok 400
  else if String.eqb s "2020-01-01" then Raise TypeError
  else Raise ValueError.

(** ** Text for Discord ([DiscordFormatting], bot/utils/data_processing.py) *)

(** [DiscordFormatting.truncate_text] *)
Definition truncate_text (text : string) (max_length : Z) (suffix : string)
  : string :=
  if Z.of_nat (String.length text) <=? max_length then text
  else string_of_list_ascii
         (slice_to (max_length - Z.of_nat (String.length suffix))
                   (list_ascii_of_string text))
       +:+ suffix.

(** The test as a truth value: an entry is removed when the test returns
    [True]. *)
Definition is_removable (age_days : string → res Z) (days : Z)
    (proposal_info : value) : bool :=
  match removable age_days days proposal_info with
  | Ok b => b
  | Raise _ => false
  end.

(** ** New referendums in the governance check ([check_governance],
       bot/main.py) *)

(** [known_proposals = set(client.vote_counts.keys())] and
    [new_referendums = await hemi_network.monitor_new_proposals(
    known_proposals)]: the ids of the threads are handed over as the known
    proposals. *)
Definition new_referendums (all_proposals : dict) (c : client) : dict :=
  HemiNetwork.monitor_new_proposals all_proposals (dict_keys (vote_counts c)).

(** ** Clicks of any users in any threads *)

(** One click: the result of the permission check, the thread id of the
    handler, the user and the choice. *)
Record click : Type := Click {
  click_permitted : bool;
  click_thread : key;
  click_user : string;
  click_vote : string
}.

(** The state after a sequence of clicks, handled one after the other. *)
Definition handle_clicks (clicks : list click) (c : client) : client :=
  fold_left (λ c k, (_handle_vote (click_permitted k) (click_thread k)
                       (click_user k) (click_vote k) c).2) clicks c.

(* ===================================================================== *)
(** * Part II: properties *)
(* ===================================================================== *)

(** ** Python values and dictionaries *)

Example str_of_int_examples :
  str_of_int 0 = "0" ∧ str_of_int 42 = "42" ∧ str_of_int (-7) = "-7".
Proof. vm_compute. auto. Qed.

Section dict_facts.
Context {V : Type}.
Implicit Types (k : key) (v : V) (d : list (key * V)).

Lemma dict_get_set_eq k v d : dict_get k (dict_set k v d) = Some v.
Proof.
  induction d as [|[k' v'] d IH]; simpl.
  - by rewrite decide_True.
  - destruct (decide (k = k')) as [->|Hne]; simpl.
    + by rewrite decide_True.
    + by rewrite decide_False.
Qed.

Lemma dict_get_set_ne k k' v d :
  k ≠ k' → dict_get k' (dict_set k v d) = dict_get k' d.
Proof.
  intros Hne. induction d as [|[k0 v0] d IH]; simpl.
  - rewrite decide_False; [done | congruence].
  - destruct (decide (k = k0)) as [->|Hk]; simpl.
    + rewrite !decide_False; [done | congruence | congruence].
    + destruct (decide (k' = k0)); [done | apply IH].
Qed.

Lemma dict_get_set k k' v d :
  dict_get k' (dict_set k v d) =
  if decide (k = k') then Some v else dict_get k' d.
Proof.
  destruct (decide (k = k')) as [->|Hne].
  - apply dict_get_set_eq.
  - by apply dict_get_set_ne.
Qed.

Lemma dict_set_set k v w d : dict_set k w (dict_set k v d) = dict_set k w d.
Proof.
  induction d as [|[k' v'] d IH]; simpl.
  - by rewrite decide_True.
  - destruct (decide (k = k')) as [->|Hne]; simpl.
    + by rewrite decide_True.
    + rewrite decide_False; [by rewrite IH | done].
Qed.

Lemma dict_mem_get k d : dict_mem k d = true ↔ is_Some (dict_get k d).
Proof.
  unfold dict_mem. destruct (dict_get k d).
  - split; eauto.
  - split; [done | by intros [? ?]].
Qed.

Lemma dict_set_length_Some k v w d :
  dict_get k d = Some w → length (dict_set k v d) = length d.
Proof.
  induction d as [|[k' v'] d IH]; simpl; [done|].
  destruct (decide (k = k')); simpl; [done|]. intros H. by rewrite IH.
Qed.

Lemma dict_set_length_None k v d :
  dict_get k d = None → length (dict_set k v d) = S (length d).
Proof.
  induction d as [|[k' v'] d IH]; simpl; [done|].
  destruct (decide (k = k')); simpl; [done|]. intros H. by rewrite IH.
Qed.

Lemma dict_get_None_keys k d : dict_get k d = None ↔ k ∉ dict_keys d.
Proof.
  unfold dict_keys. induction d as [|[k' v'] d IH]; simpl.
  - split; [intros _; apply not_elem_of_nil | done].
  - rewrite not_elem_of_cons. destruct (decide (k = k')) as [->|Hne].
    + split; [done | intros [? _]; done].
    + rewrite IH. tauto.
Qed.

Lemma dict_get_Some_elem k v d : dict_get k d = Some v → (k, v) ∈ d.
Proof.
  induction d as [|[k' v'] d IH]; simpl; [done|].
  destruct (decide (k = k')) as [->|Hne].
  - intros [= ->]. apply elem_of_cons. by left.
  - intros H. apply elem_of_cons. right. auto.
Qed.

Lemma dict_set_fresh k v d : dict_get k d = None → dict_set k v d = d ++ [(k, v)].
Proof.
  induction d as [|[k' v'] d IH]; simpl; [done|].
  destruct (decide (k = k')); [done|]. intros H. by rewrite IH.
Qed.

Lemma dict_set_keys_Some k v w d :
  dict_get k d = Some w → dict_keys (dict_set k v d) = dict_keys d.
Proof.
  unfold dict_keys. induction d as [|[k' v'] d IH]; simpl; [done|].
  destruct (decide (k = k')) as [->|Hne]; [done|].
  intros H. rewrite !fmap_cons. f_equal. by apply IH.
Qed.

Lemma dict_set_nodup k v d :
  NoDup (dict_keys d) → NoDup (dict_keys (dict_set k v d)).
Proof.
  intros Hnd. destruct (dict_get k d) as [w|] eqn:Hget.
  - by rewrite (dict_set_keys_Some _ _ _ _ Hget).
  - rewrite (dict_set_fresh _ _ _ Hget). unfold dict_keys.
    rewrite fmap_app. simpl. apply NoDup_app. split; [done|].
    split; [|apply NoDup_singleton].
    intros x Hx ->%list_elem_of_singleton.
    by apply dict_get_None_keys in Hget.
Qed.

Lemma dict_set_elem k v d x :
  x ∈ dict_set k v d → x = (k, v) ∨ x ∈ d.
Proof.
  induction d as [|[k' v'] d IH]; simpl.
  - intros ->%list_elem_of_singleton. by left.
  - destruct (decide (k = k')) as [->|Hne].
    + intros [->|H]%elem_of_cons; [by left|]. right. apply elem_of_cons. by right.
    + intros [->|H]%elem_of_cons.
      * right. apply elem_of_cons. by left.
      * destruct (IH H) as [->|?]; [by left|]. right. apply elem_of_cons. by right.
Qed.

(** Building a dictionary from pairs with distinct keys gives the pairs
    back. *)
Lemma dict_of_pairs_nodup d : NoDup (dict_keys d) → dict_of_pairs d = d.
Proof.
  unfold dict_of_pairs.
  assert (∀ acc, NoDup (dict_keys (acc ++ d)) →
            fold_left (λ d kv, dict_set kv.1 kv.2 d) d acc = acc ++ d) as H.
  { induction d as [|[k v] d IH]; intros acc Hnd; simpl.
    - by rewrite app_nil_r.
    - rewrite dict_set_fresh.
      + rewrite IH; rewrite <- app_assoc; [done | done].
      + apply dict_get_None_keys. unfold dict_keys in *.
        rewrite fmap_app in Hnd. simpl in Hnd.
        apply NoDup_app in Hnd as (_ & Hdisj & _).
        intros Hin. apply (Hdisj _ Hin). apply elem_of_cons. by left. }
  intros Hnd. by apply (H []).
Qed.

Lemma dict_of_pairs_wf (l : list (key * V)) :
  NoDup (dict_keys (dict_of_pairs l)) ∧ ∀ x, x ∈ dict_of_pairs l → x ∈ l.
Proof.
  unfold dict_of_pairs.
  assert (∀ acc, NoDup (dict_keys acc) →
            NoDup (dict_keys (fold_left (λ d kv, dict_set kv.1 kv.2 d) l acc)) ∧
            ∀ x, x ∈ fold_left (λ d kv, dict_set kv.1 kv.2 d) l acc →
                 x ∈ acc ∨ x ∈ l) as H.
  { induction l as [|[k v] l IH]; intros acc Hacc; simpl.
    - split; [done | by left].
    - destruct (IH (dict_set k v acc)) as [Hnd Hin]; [by apply dict_set_nodup|].
      split; [done|]. intros x Hx. destruct (Hin x Hx) as [Hs|Hl].
      + destruct (dict_set_elem _ _ _ _ Hs) as [->|?]; [|by left].
        right. apply elem_of_cons. by left.
      + right. apply elem_of_cons. by right. }
  destruct (H []) as [Hnd Hin]; [apply NoDup_nil_2|].
  split; [done|]. intros x Hx. destruct (Hin x Hx) as [Hn|?]; [|done].
  by apply elem_of_nil in Hn.
Qed.

End dict_facts.

Lemma dict_mem_set {V} (k k' : key) (v : V) (d : list (key * V)) :
  dict_mem k' (dict_set k v d) = bool_decide (k = k') || dict_mem k' d.
Proof.
  unfold dict_mem. rewrite dict_get_set.
  destruct (decide (k = k')) as [->|Hne].
  - by rewrite bool_decide_eq_true_2.
  - by rewrite bool_decide_eq_false_2.
Qed.

Lemma dict_get_elem_nodup {V} (k : key) (v : V) (d : list (key * V)) :
  NoDup (dict_keys d) → (k, v) ∈ d → dict_get k d = Some v.
Proof.
  unfold dict_keys. induction d as [|[k' v'] d IH]; [by intros _ ?%elem_of_nil|].
  rewrite fmap_cons. intros [Hfresh Hnd]%NoDup_cons [[= -> ->]|Hin]%elem_of_cons.
  - simpl. by rewrite decide_True.
  - simpl. destruct (decide (k = k')) as [->|Hne]; [|by apply IH].
    destruct Hfresh. by apply (list_elem_of_fmap_2 fst _ (k', v)).
Qed.

Lemma sublist_fmap_fst {A B} (l1 l2 : list (A * B)) :
  sublist l1 l2 → sublist (l1.*1) (l2.*1).
Proof. induction 1; rewrite ?fmap_cons; by constructor. Qed.

Lemma sublist_Forall {A} (P : A → Prop) (l1 l2 : list A) :
  sublist l1 l2 → Forall P l2 → Forall P l1.
Proof.
  induction 1 as [|x l1 l2 _ IH|x l1 l2 _ IH]; [done| |].
  - intros [? ?]%Forall_cons. constructor; auto.
  - intros [? ?]%Forall_cons. auto.
Qed.

Section dict_pop_facts.
Context {V : Type}.
Implicit Types (k : key) (v : V) (d : list (key * V)).

Lemma dict_pop_sublist k d : sublist (dict_pop k d) d.
Proof.
  induction d as [|[k' v'] d IH]; simpl; [done|].
  destruct (decide (k = k')).
  - by apply sublist_cons.
  - by apply sublist_skip.
Qed.

Lemma dict_pop_nodup k d : NoDup (dict_keys d) → NoDup (dict_keys (dict_pop k d)).
Proof.
  unfold dict_keys. intros Hnd.
  eapply sublist_NoDup; [exact Hnd | apply sublist_fmap_fst, dict_pop_sublist].
Qed.

Lemma dict_get_pop k k' d :
  NoDup (dict_keys d) →
  dict_get k' (dict_pop k d) = if decide (k = k') then None else dict_get k' d.
Proof.
  unfold dict_keys. induction d as [|[k0 v0] d IH].
  - simpl. by destruct (decide (k = k')).
  - rewrite fmap_cons. intros [Hnotin Hnd]%NoDup_cons. simpl in Hnotin |- *.
    destruct (decide (k = k0)) as [->|Hk].
    + destruct (decide (k0 = k')) as [->|Hne].
      * by apply dict_get_None_keys.
      * rewrite decide_False; [done | congruence].
    + simpl. destruct (decide (k' = k0)) as [->|Hk'].
      * by rewrite decide_False.
      * by apply IH.
Qed.

End dict_pop_facts.

(** ** JSON round trip *)

Lemma value_ind' (P : value → Prop) :
  P VNone → (∀ z, P (VInt z)) → (∀ s, P (VStr s)) →
  (∀ l, Forall P l → P (VList l)) →
  (∀ d, Forall (λ kv, P kv.2) d → P (VDict d)) →
  ∀ v, P v.
Proof.
  intros HN HI HS HL HD. fix IH 1.
  intros [|z|s|l|d]; [exact HN | exact (HI z) | exact (HS s) | apply HL | apply HD].
  - induction l as [|x l IHl]; constructor; [apply IH | exact IHl].
  - induction d as [|[k x] d IHd]; constructor; [apply IH | exact IHd].
Qed.

Lemma json_ind' (P : json → Prop) :
  P JNull → (∀ z, P (JNum z)) → (∀ s, P (JString s)) →
  (∀ l, Forall P l → P (JArray l)) →
  (∀ m, Forall (λ kv, P kv.2) m → P (JObject m)) →
  ∀ j, P j.
Proof.
  intros HN HI HS HL HD. fix IH 1.
  intros [|z|s|l|m]; [exact HN | exact (HI z) | exact (HS s) | apply HL | apply HD].
  - induction l as [|x l IHl]; constructor; [apply IH | exact IHl].
  - induction m as [|[k x] m IHm]; constructor; [apply IH | exact IHm].
Qed.

Lemma json_like_list l : json_like (VList l) ↔ Forall json_like l.
Proof.
  simpl. induction l as [|x l IH]; simpl.
  - split; auto.
  - rewrite Forall_cons, IH. tauto.
Qed.

Lemma json_like_dict d :
  json_like (VDict d) ↔
  NoDup (dict_keys d) ∧ Forall (λ kv, is_str_key kv.1 ∧ json_like kv.2) d.
Proof.
  simpl. apply and_iff_compat_l.
  induction d as [|x d IH]; simpl.
  - split; auto.
  - rewrite Forall_cons, IH. tauto.
Qed.

Lemma dict_of_pairs_str_keys {V} (l : list (string * V)) :
  str_keys (dict_of_pairs (map (λ kv, (KStr kv.1, kv.2)) l)).
Proof.
  unfold dict_of_pairs.
  assert (∀ acc : list (key * V), str_keys acc →
            str_keys (fold_left (λ d kv, dict_set kv.1 kv.2 d)
                        (map (λ kv, (KStr kv.1, kv.2)) l) acc)) as H.
  { induction l as [|[s v] l IH]; intros acc Hacc; simpl; [done|].
    apply IH. intros z. rewrite dict_get_set_ne; [apply Hacc | done]. }
  apply H. intros z. reflexivity.
Qed.

Lemma load_obj_str_keys m : str_keys (load_obj m).
Proof.
  unfold load_obj.
  replace (map (λ kv : string * json, (KStr kv.1, loads kv.2)) m)
    with (map (λ kv : string * value, (KStr kv.1, kv.2))
              (map (λ kv : string * json, (kv.1, loads kv.2)) m)).
  - apply dict_of_pairs_str_keys.
  - rewrite map_map. reflexivity.
Qed.

(** Whatever [json.load] returns is a JSON document in the sense above. *)
Lemma loads_json_like j : json_like (loads j).
Proof.
  induction j as [|z|s|l IH|m IH] using json_ind'; try exact I.
  - change (loads (JArray l)) with (VList (map loads l)).
    apply json_like_list. apply Forall_map. exact IH.
  - change (loads (JObject m)) with (VDict (load_obj m)).
    apply json_like_dict. unfold load_obj.
    destruct (dict_of_pairs_wf (map (λ kv : string * json, (KStr kv.1, loads kv.2)) m))
      as [Hnd Hin].
    split; [done|]. apply Forall_forall. intros x Hx.
    apply Hin, list_elem_of_fmap in Hx as ([s j] & -> & Hj).
    split; [exact I|]. rewrite Forall_forall in IH. by apply (IH _ Hj).
Qed.

(** Round trip: a JSON document is what loading its dump gives. *)
Lemma loads_dumps v : json_like v → loads (dumps v) = v.
Proof.
  induction v as [|z|s|l IH|d IH] using value_ind'; try done.
  - intros Hl%json_like_list.
    change (loads (dumps (VList l))) with (VList (map loads (map dumps l))).
    f_equal. rewrite map_map. rewrite <- (map_id l) at 2.
    apply map_ext_Forall. rewrite Forall_forall in IH, Hl |- *.
    intros x Hx. apply IH; auto.
  - intros [Hnd Hd]%json_like_dict.
    change (loads (dumps (VDict d)))
      with (VDict (dict_of_pairs
                     (map (λ kv : string * json, (KStr kv.1, loads kv.2))
                          (map (λ kv : key * value, (key_str kv.1, dumps kv.2)) d)))).
    f_equal. rewrite map_map.
    rewrite (map_ext_Forall _ id).
    + rewrite map_id. by apply dict_of_pairs_nodup.
    + rewrite Forall_forall in IH, Hd |- *.
      intros [k x] Hx. destruct (Hd _ Hx) as [Hk Hj]. simpl in Hk, Hj.
      specialize (IH _ Hx Hj). simpl in IH. unfold id. cbn [fst snd].
      rewrite IH. by destruct k.
Qed.

Lemma load_obj_json_like m : json_like (VDict (load_obj m)).
Proof. apply (loads_json_like (JObject m)). Qed.


Lemma json_like_sublist d d' :
  sublist d' d → json_like (VDict d) → json_like (VDict d').
Proof.
  intros Hsub [Hnd Hall]%json_like_dict. apply json_like_dict. split.
  - unfold dict_keys in *. eapply sublist_NoDup; [done | by apply sublist_fmap_fst].
  - by eapply sublist_Forall.
Qed.

Lemma json_like_dict_set k v d :
  is_str_key k → json_like v → json_like (VDict d) →
  json_like (VDict (dict_set k v d)).
Proof.
  intros Hk Hv [Hnd Hall]%json_like_dict. apply json_like_dict.
  split; [by apply dict_set_nodup|].
  apply Forall_forall. intros x Hx.
  destruct (dict_set_elem _ _ _ _ Hx) as [->|Hin]; [done|].
  rewrite Forall_forall in Hall. by apply Hall.
Qed.

Lemma json_like_dict_get k v d :
  json_like (VDict d) → dict_get k d = Some v → is_str_key k ∧ json_like v.
Proof.
  intros [_ Hall]%json_like_dict Hget%dict_get_Some_elem.
  rewrite Forall_forall in Hall. apply (Hall _ Hget).
Qed.

(** ** Files: loading, saving and crash points *)

Lemma run_write_steps path v fs :
  run_steps (write_steps path v) fs = <[path := Text (dumps v)]> fs.
Proof.
  unfold run_steps, write_steps, json_dump, open_w.
  cbn [fold_left]. apply insert_insert_eq.
Qed.

Lemma read_json_written path v fs :
  json_like v →
  read_json path (<[path := Text (dumps v)]> fs) = Ok v.
Proof.
  intros Hv. unfold read_json. rewrite lookup_insert_eq.
  by rewrite loads_dumps.
Qed.

Lemma crash_after_write k path v fs :
  crash_after k (write_steps path v) fs =
  match k with
  | O => fs
  | 1%nat => <[path := Malformed ""]> fs
  | _ => <[path := Text (dumps v)]> fs
  end.
Proof.
  unfold crash_after, write_steps, run_steps, open_w, json_dump.
  destruct k as [|[|k]]; cbn [take fold_left]; [done|done|].
  rewrite take_nil. cbn [fold_left]. apply insert_insert_eq.
Qed.


(** C8, as the code has it.  A well-formed file is one that holds the text
    of a JSON value, an object or not: both loaders return the value
    [json.load] parses from it, whatever its type (a dictionary for an
    object, a list for an array, ...).  Both return an empty dictionary when
    there is no file.  On malformed content [load_vote_counts] fails (the
    decoding error reaches the caller), whereas [_load_cache] logs the error
    and returns an empty dictionary. *)
Theorem load_outcomes (fs : disk) :
  (∀ j, fs !! vote_counts_file = Some (Text j) →
        load_vote_counts fs = Ok (loads j)) ∧
  (fs !! vote_counts_file = None → load_vote_counts fs = Ok (VDict [])) ∧
  (∀ raw, fs !! vote_counts_file = Some (Malformed raw) →
          load_vote_counts fs = Raise JSONDecodeError) ∧
  (∀ j, fs !! cache_file = Some (Text j) →
        _load_cache fs = Ok (loads j)) ∧
  (fs !! cache_file = None → _load_cache fs = Ok (VDict [])) ∧
  (∀ raw, fs !! cache_file = Some (Malformed raw) →
          _load_cache fs = Ok (VDict [])).
Proof.
  unfold load_vote_counts, _load_cache, read_json.
  repeat split; intros; by simplify_option_eq.
Qed.

(** With the example document, with a file that holds the array [[1]], with
    no file, and with files that hold [{]. *)
Lemma load_outcomes_scenario :
  load_vote_counts {[ vote_counts_file := Text (JObject demo_tally) ]}
    = Ok (VDict (load_obj demo_tally)) ∧
  load_vote_counts {[ vote_counts_file := Text (JArray [JNum 1]) ]}
    = Ok (VList [VInt 1]) ∧
  load_vote_counts ∅ = Ok (VDict []) ∧
  load_vote_counts {[ vote_counts_file := Malformed "{" ]}
    = Raise JSONDecodeError ∧
  _load_cache {[ cache_file := Text (JArray [JNum 1]) ]}
    = Ok (VList [VInt 1]) ∧
  _load_cache {[ cache_file := Malformed "{" ]} = Ok (VDict []).
Proof.
  split; [|split; [|split; [|split; [|split]]]].
  - apply (load_outcomes {[ vote_counts_file := Text (JObject demo_tally) ]})
      with (j := JObject demo_tally).
    reflexivity.
  - apply (load_outcomes {[ vote_counts_file := Text (JArray [JNum 1]) ]})
      with (j := JArray [JNum 1]).
    reflexivity.
  - apply (load_outcomes ∅). reflexivity.
  - apply (load_outcomes {[ vote_counts_file := Malformed "{" ]}) with "{".
    reflexivity.
  - apply (load_outcomes {[ cache_file := Text (JArray [JNum 1]) ]})
      with (j := JArray [JNum 1]).
    reflexivity.
  - apply (load_outcomes {[ cache_file := Malformed "{" ]}) with "{".
    reflexivity.
Defined.

(** The claim of C8 fails for the proposal cache: with a malformed cache
    file [_load_cache] does not fail, it returns the empty dictionary. *)
Lemma load_cache_hides_malformed :
  let fs : disk := {[ cache_file := Malformed "{" ]} in
  fs !! cache_file = Some (Malformed "{") ∧
  _load_cache fs = Ok (VDict []) ∧
  ¬ ∃ e, _load_cache fs = Raise e.
Proof.
  cbv zeta. unfold _load_cache, read_json. rewrite lookup_singleton_eq.
  split; [done|]. split; [done|]. by intros [e ?].
Qed.

(** C5, as the code has it.  A save opens the file itself for writing, which
    truncates it, and then writes the document: no other file is touched
    (there is no temporary file and no rename).  At a crash point the file
    holds what it held before (no effect yet), nothing (after the
    truncation) or the new document (after the write). *)
Theorem save_crash_points (k : nat) (c : client) (cache_data : value)
    (fs : disk) :
  let crash_votes := crash_after k (save_vote_counts_steps c) fs in
  let crash_cache := crash_after k (_save_cache_steps cache_data) fs in
  save_vote_counts_steps c
    = [open_w vote_counts_file;
       json_dump vote_counts_file (VDict (vote_counts c))] ∧
  _save_cache_steps cache_data
    = [open_w cache_file; json_dump cache_file cache_data] ∧
  crash_votes !! vote_counts_file
    = match k with
      | O => fs !! vote_counts_file
      | 1%nat => Some (Malformed "")
      | _ => Some (Text (JObject (dump_obj (vote_counts c))))
      end ∧
  crash_cache !! cache_file
    = match k with
      | O => fs !! cache_file
      | 1%nat => Some (Malformed "")
      | _ => Some (Text (dumps cache_data))
      end ∧
  delete vote_counts_file crash_votes = delete vote_counts_file fs ∧
  delete cache_file crash_cache = delete cache_file fs.
Proof.
  unfold save_vote_counts_steps, _save_cache_steps.
  cbv zeta. rewrite !crash_after_write.
  split; [done|]. split; [done|].
  destruct k as [|[|k]]; repeat split;
    rewrite ?lookup_insert_eq, ?delete_insert_eq; done.
Qed.

(** The claim of C5 fails at the crash point after the truncation: the vote
    counts file then holds neither the old document nor the new one. *)
Lemma save_not_crash_atomic :
  let c := Client (load_obj demo_tally) {[ vote_counts_file := Text (JObject []) ]} in
  let crash := crash_after 1 (save_vote_counts_steps c) (data_dir c) in
  crash !! vote_counts_file ≠ data_dir c !! vote_counts_file ∧
  crash !! vote_counts_file ≠ Some (Text (JObject (dump_obj (vote_counts c)))) ∧
  crash !! vote_counts_file = Some (Malformed "").
Proof.
  cbv zeta. unfold save_vote_counts_steps. rewrite crash_after_write.
  cbn [data_dir vote_counts]. rewrite lookup_insert_eq, lookup_singleton_eq.
  repeat split; discriminate.
Qed.

(** ** Casting votes *)

(** Scenario 2 of the specification. *)
Example cast_vote_scenario :
  let c1 := (vote_aye true (KStr "100") "42" demo_client).2 in
  let c2 := (vote_nay true (KStr "100") "42" c1).2 in
  vote_counts c1
    = [(KStr "100",
        VDict [(KStr "index", VInt 1); (KStr "aye", VInt 1);
               (KStr "nay", VInt 0); (KStr "recuse", VInt 0);
               (KStr "users", VDict [(KStr "42", VStr "aye")])])] ∧
  vote_counts c2
    = [(KStr "100",
        VDict [(KStr "index", VInt 1); (KStr "aye", VInt 0);
               (KStr "nay", VInt 1); (KStr "recuse", VInt 0);
               (KStr "users", VDict [(KStr "42", VStr "nay")])])] ∧
  read_json vote_counts_file (data_dir c2) = Ok (VDict (vote_counts c2)).
Proof. vm_compute. auto. Qed.

Lemma is_vote_excl v :
  (if is_vote "aye" v then 1 else 0) + (if is_vote "nay" v then 1 else 0)
  + (if is_vote "recuse" v then 1 else 0) ≤ 1.
Proof.
  destruct v as [| |s| |]; simpl; try lia.
  repeat case_bool_decide; subst; try lia; discriminate.
Qed.

Lemma is_vote_choice v :
  (if is_vote "aye" v then 1 else 0) + (if is_vote "nay" v then 1 else 0)
  + (if is_vote "recuse" v then 1 else 0) = 1 →
  ∃ c, v = VStr c ∧ c ∈ choices.
Proof.
  destruct v as [| |s| |]; simpl; try lia.
  intros H. exists s. split; [done|]. unfold choices.
  repeat case_bool_decide; subst; try lia; set_solver.
Qed.

Lemma voters_sum_le u :
  voters "aye" u + voters "nay" u + voters "recuse" u ≤ Z.of_nat (length u).
Proof.
  induction u as [|[k v] u IH]; simpl voters; simpl length; [lia|].
  pose proof (is_vote_excl v). lia.
Qed.

(** When the three counts add up to [len(users)], every entry of [users] is
    one of the three choices. *)
Lemma voters_sum_all u k p :
  voters "aye" u + voters "nay" u + voters "recuse" u = Z.of_nat (length u) →
  dict_get k u = Some p → ∃ c, p = VStr c ∧ c ∈ choices.
Proof.
  induction u as [|[k' v] u IH]; simpl voters; simpl length; [done|].
  intros Hsum. pose proof (is_vote_excl v). pose proof (voters_sum_le u).
  simpl. destruct (decide (k = k')) as [->|Hne].
  - intros [= ->]. apply is_vote_choice. lia.
  - apply IH. lia.
Qed.

Lemma voters_set_None c user v u :
  dict_get user u = None →
  voters c (dict_set user v u) = voters c u + (if is_vote c v then 1 else 0).
Proof.
  induction u as [|[k' v'] u IH]; simpl; [lia|].
  destruct (decide (user = k')); [done|]. intros H. simpl. rewrite IH; [lia|done].
Qed.

Lemma voters_set_Some c user v p u :
  dict_get user u = Some p →
  voters c (dict_set user v u) =
  voters c u - (if is_vote c p then 1 else 0) + (if is_vote c v then 1 else 0).
Proof.
  induction u as [|[k' v'] u IH]; simpl; [done|].
  destruct (decide (user = k')).
  - intros [= ->]. simpl. lia.
  - intros H. simpl. rewrite IH; [lia|done].
Qed.

Lemma voters_pos c user u :
  dict_get user u = Some (VStr c) → 1 ≤ voters c u.
Proof.
  induction u as [|[k' v'] u IH]; simpl; [done|].
  destruct (decide (user = k')).
  - intros [= ->]. simpl. rewrite bool_decide_eq_true_2 by done.
    assert (0 ≤ voters c u); [|lia].
    clear. induction u as [|[? w] u IH]; simpl; [lia|]. destruct (is_vote c w); lia.
  - intros H. specialize (IH H). destruct (is_vote c v'); lia.
Qed.

Lemma tally_Some c r n : tally c r = Some n → dict_get (KStr c) r = Some (VInt n).
Proof.
  unfold tally. destruct (dict_get (KStr c) r) as [[]|]; naive_solver.
Qed.

Lemma users_of_Some r u : users_of r = Some u → dict_get (KStr "users") r = Some (VDict u).
Proof.
  unfold users_of. destruct (dict_get (KStr "users") r) as [[]|]; naive_solver.
Qed.

Ltac vote_step :=
  repeat first
    [ progress cbn -[run_steps Z.max Z.add Z.sub voters]
    | rewrite dict_get_set_eq
    | rewrite dict_set_set
    | match goal with
      | H : dict_get ?k ?d = _ |- context [dict_get ?k ?d] => rewrite H
      end
    | rewrite dict_get_set
    | rewrite decide_True by reflexivity
    | rewrite decide_False by discriminate ].

Ltac in_choices H :=
  unfold choices in H;
  repeat (apply elem_of_cons in H as [->|H]); [..|by apply elem_of_nil in H].

(** One click, on a record that satisfies the invariant: the vote is
    recorded, the stored record is replaced by one whose [users] is the old
    one with [users[user_id] = vote_type], and the counts follow. *)
Lemma handle_vote_step tid user vote vc fs r u :
  dict_get tid vc = Some (VDict r) →
  users_of r = Some u →
  tally "aye" r = Some (voters "aye" u) →
  tally "nay" r = Some (voters "nay" u) →
  tally "recuse" r = Some (voters "recuse" u) →
  voters "aye" u + voters "nay" u + voters "recuse" u = Z.of_nat (length u) →
  vote ∈ choices →
  ∃ r' vc',
    let u' := dict_set (KStr user) (VStr vote) u in
    _handle_vote true tid user vote (Client vc fs) =
      (Ok (Recorded vote),
       Client vc' (write_json vote_counts_file (VDict vc') fs)) ∧
    vc' = dict_set tid (VDict r') vc ∧
    users_of r' = Some u' ∧
    tally "aye" r' = Some (voters "aye" u') ∧
    tally "nay" r' = Some (voters "nay" u') ∧
    tally "recuse" r' = Some (voters "recuse" u') ∧
    voters "aye" u' + voters "nay" u' + voters "recuse" u'
      = Z.of_nat (length u').
Proof.
  intros Hrec Hu Ha Hn Hrc Hsum Hvote.
  apply tally_Some in Ha, Hn, Hrc. apply users_of_Some in Hu.
  unfold _handle_vote, try_except, vote_data, users_setitem,
    vote_data_setitem, vote_data, save_vote_counts, save_vote_counts_steps.
  unfold mbind, mret, stx_bind, stx_ret, py_contains, dict_mem.
  destruct (dict_get (KStr user) u) as [p|] eqn:Hprev.
  - destruct (voters_sum_all _ _ _ Hsum Hprev) as (c0 & -> & Hc0).
    pose proof (voters_pos _ _ _ Hprev) as Hpos.
    rewrite (dict_set_length_Some _ _ _ _ Hprev).
    rewrite !(voters_set_Some _ _ _ _ _ Hprev).
    in_choices Hc0; in_choices Hvote; vote_step;
      (eexists _, _; split; [reflexivity|]; split; [reflexivity|]);
      unfold users_of, tally; vote_step;
      repeat split; repeat case_bool_decide; try congruence;
      try (f_equal; lia).
  - rewrite (dict_set_length_None _ _ _ Hprev).
    rewrite !(voters_set_None _ _ _ _ Hprev).
    in_choices Hvote; vote_step;
      (eexists _, _; split; [reflexivity|]; split; [reflexivity|]);
      unfold users_of, tally; vote_step;
      repeat split; repeat case_bool_decide; try congruence;
      try (f_equal; lia).
Qed.

Lemma handle_vote_inv tid user vote c v :
  dict_get tid (vote_counts c) = Some v →
  tally_inv v →
  vote ∈ choices →
  ∃ r u,
    (_handle_vote true tid user vote c).1 = Ok (Recorded vote) ∧
    dict_get tid (vote_counts (_handle_vote true tid user vote c).2)
      = Some (VDict r) ∧
    tally_inv (VDict r) ∧
    users_of r = Some u ∧
    dict_get (KStr user) u = Some (VStr vote) ∧
    (∀ r0 u0, v = VDict r0 → users_of r0 = Some u0 →
              u = dict_set (KStr user) (VStr vote) u0).
Proof.
  intros Hrec (r & u & a & n & rc & -> & Hu & Ha & Hn & Hrc & -> & -> & -> & Hsum)
    Hvote.
  destruct c as [vc fs]; simpl in Hrec.
  destruct (handle_vote_step tid user vote vc fs r u Hrec Hu Ha Hn Hrc Hsum Hvote)
    as (r' & vc' & Hrun & -> & Hu' & Ha' & Hn' & Hrc' & Hsum').
  rewrite Hrun. simpl. exists r', (dict_set (KStr user) (VStr vote) u).
  split; [done|]. split; [apply dict_get_set_eq|].
  split; [|split; [done|split; [apply dict_get_set_eq|]]].
  - exists r', (dict_set (KStr user) (VStr vote) u). eauto 15.
  - intros r0 u0 [= <-] Hu0. congruence.
Qed.

Lemma cast_votes_snoc tid user votes vote c :
  cast_votes tid user (votes ++ [vote]) c =
  (_handle_vote true tid user vote (cast_votes tid user votes c)).2.
Proof. unfold cast_votes. by rewrite fold_left_app. Qed.

Lemma cast_votes_inv tid user votes c v :
  dict_get tid (vote_counts c) = Some v →
  tally_inv v →
  Forall (λ x, x ∈ choices) votes →
  ∃ v', dict_get tid (vote_counts (cast_votes tid user votes c)) = Some v' ∧
        tally_inv v'.
Proof.
  intros Hrec Hinv. induction votes as [|vote votes IH] using rev_ind.
  - intros _. by exists v.
  - intros [Hvs Hv]%Forall_app. apply Forall_inv in Hv.
    destruct (IH Hvs) as (v' & Hrec' & Hinv').
    rewrite cast_votes_snoc.
    destruct (handle_vote_inv tid user vote _ v' Hrec' Hinv' Hv)
      as (r & u & _ & Hr & Hi & _).
    eauto.
Qed.

(** C1.  Single-vote invariant: in a thread whose record satisfies the tally
    invariant, after each click of a sequence of clicks of one user (choices
    among aye, nay, recuse) [users[user_id]] is the choice just cast and the
    record satisfies the invariant again: every count is the number of
    users with that choice and the counts add up to [len(users)]. *)
Theorem cast_vote_single_vote_invariant
    (thread_id : key) (user_id : string) (votes : list string)
    (c : client) (v : value) :
  dict_get thread_id (vote_counts c) = Some v →
  tally_inv v →
  Forall (λ x, x ∈ choices) votes →
  ∀ (k : nat) (vote : string),
    votes !! k = Some vote →
    ∃ r u,
      dict_get thread_id
        (vote_counts (cast_votes thread_id user_id (take (S k) votes) c))
        = Some (VDict r) ∧
      users_of r = Some u ∧
      dict_get (KStr user_id) u = Some (VStr vote) ∧
      tally_inv (VDict r).
Proof.
  intros Hrec Hinv Hall k vote Hk.
  rewrite (take_S_r _ _ _ Hk), cast_votes_snoc.
  assert (Forall (λ x, x ∈ choices) (take k votes)) as Hpre
    by (by apply Forall_take).
  destruct (cast_votes_inv thread_id user_id _ c v Hrec Hinv Hpre)
    as (v' & Hrec' & Hinv').
  assert (vote ∈ choices) as Hvote.
  { rewrite Forall_lookup in Hall. by apply (Hall k). }
  destruct (handle_vote_inv thread_id user_id vote _ v' Hrec' Hinv' Hvote)
    as (r & u & _ & Hr & Hi & Hu & Hlast & _).
  exists r, u. auto.
Qed.

(** On scenario 2 of the specification: user ["42"] casts aye, then nay. *)
Lemma cast_vote_single_vote_invariant_scenario :
  ∃ r u,
    dict_get (KStr "100")
      (vote_counts (cast_votes (KStr "100") "42" (take 2 ["aye"; "nay"])
                      demo_client))
      = Some (VDict r) ∧
    users_of r = Some u ∧
    dict_get (KStr "42") u = Some (VStr "nay") ∧
    tally_inv (VDict r).
Proof.
  apply (cast_vote_single_vote_invariant (KStr "100") "42" ["aye"; "nay"]
           demo_client (VDict demo_record)).
  - reflexivity.
  - exists demo_record, [], 0, 0, 0. repeat split; reflexivity.
  - repeat constructor.
  - reflexivity.
Defined.

(** C2.  Idempotent re-vote: on a record that satisfies the invariant, a
    second click on the same choice by the same user leaves every count (and
    [users]) as the first click left it. *)
Theorem cast_vote_same_choice_twice
    (thread_id : key) (user_id vote : string) (c : client) (v : value) :
  dict_get thread_id (vote_counts c) = Some v →
  tally_inv v →
  vote ∈ choices →
  let c1 := (_handle_vote true thread_id user_id vote c).2 in
  let c2 := (_handle_vote true thread_id user_id vote c1).2 in
  ∃ r1 r2,
    dict_get thread_id (vote_counts c1) = Some (VDict r1) ∧
    dict_get thread_id (vote_counts c2) = Some (VDict r2) ∧
    (∀ ch, ch ∈ choices → tally ch r2 = tally ch r1) ∧
    users_of r2 = users_of r1.
Proof.
  intros Hrec Hinv Hvote c1 c2.
  destruct (handle_vote_inv thread_id user_id vote c v Hrec Hinv Hvote)
    as (r1 & u1 & _ & Hr1 & Hi1 & Hu1 & Hlast1 & _).
  fold c1 in Hr1.
  destruct (handle_vote_inv thread_id user_id vote c1 _ Hr1 Hi1 Hvote)
    as (r2 & u2 & _ & Hr2 & Hi2 & Hu2 & _ & Hupd).
  fold c2 in Hr2. exists r1, r2. split; [done|]. split; [done|].
  specialize (Hupd r1 u1 eq_refl Hu1).
  assert (u2 = u1) as ->.
  { rewrite Hupd. clear -Hlast1.
    induction u1 as [|[k w] u IH]; simpl in *; [done|].
    destruct (decide (KStr user_id = k)) as [->|]; [congruence|].
    by rewrite IH. }
  split; [|congruence].
  destruct Hi1 as (? & ua & a1 & n1 & rc1 & [= <-] & Hu1' & Ha1 & Hn1 & Hrc1
                   & -> & -> & -> & _).
  destruct Hi2 as (? & ub & a2 & n2 & rc2 & [= <-] & Hu2' & Ha2 & Hn2 & Hrc2
                   & -> & -> & -> & _).
  assert (ua = u1) as -> by congruence. assert (ub = u1) as -> by congruence.
  intros ch Hch. in_choices Hch; congruence.
Qed.

(** On the record of scenario 2: user ["42"] casts aye twice. *)
Lemma cast_vote_same_choice_twice_scenario :
  let c1 := (_handle_vote true (KStr "100") "42" "aye" demo_client).2 in
  let c2 := (_handle_vote true (KStr "100") "42" "aye" c1).2 in
  ∃ r1 r2,
    dict_get (KStr "100") (vote_counts c1) = Some (VDict r1) ∧
    dict_get (KStr "100") (vote_counts c2) = Some (VDict r2) ∧
    (∀ ch, ch ∈ choices → tally ch r2 = tally ch r1) ∧
    users_of r2 = users_of r1.
Proof.
  apply (cast_vote_same_choice_twice (KStr "100") "42" "aye" demo_client
           (VDict demo_record)).
  - reflexivity.
  - exists demo_record, [], 0, 0, 0. repeat split; reflexivity.
  - repeat constructor.
Defined.

(** ** Discovery and the proposal cache *)

Example int_of_str_examples :
  int_of_str "12" = Some 12 ∧ int_of_str " -7 " = Some (-7) ∧
  int_of_str "1_000" = Some 1000 ∧ int_of_str "" = None ∧
  int_of_str "1__0" = None ∧ int_of_str "0x10" = None ∧
  int_of_str "+3" = Some 3.
Proof. vm_compute. auto 10. Qed.

(** Scenario 1 of the specification: an empty cache and two active
    proposals. *)
Example discover_scenario :
  (monitor_new_proposals demo_active (λ _, "t0") ∅).1 = [1; 2].
Proof. vm_compute. reflexivity. Qed.

(** [_load_cache] always returns. *)
Lemma load_cache_total fs : ∃ v, _load_cache fs = Ok v.
Proof.
  unfold _load_cache.
  destruct (fs !! cache_file) as [c|]; [|by eauto].
  destruct (read_json cache_file fs); by eauto.
Qed.

(** A cache file that holds an object, is malformed or is not there is
    loaded as a dictionary, and one without an [int] key. *)
Lemma load_cache_str_keys fs :
  holds_object cache_file fs →
  ∃ d, _load_cache fs = Ok (VDict d) ∧ str_keys d.
Proof.
  unfold holds_object, _load_cache, read_json.
  destruct (fs !! cache_file) as [[[]|raw]|]; cbn [is_object]; try done;
    intros _.
  - eexists. split; [reflexivity | apply load_obj_str_keys].
  - by exists [].
  - by exists [].
Qed.

(** The loop keeps a dictionary a dictionary. *)
Lemma discover_loop_dict active clock ids :
  ∀ c new st,
    discover_loop active clock (VDict c, new) ids = Ok st →
    ∃ c', st.1 = VDict c'.
Proof.
  induction ids as [|pid ids IH]; intros c new st; cbn [discover_loop].
  - intros [= <-]. by exists c.
  - unfold discover_one.
    destruct (py_int pid) as [z|e]; cbn [mbind res_bind]; [|done].
    cbn [py_contains].
    destruct (dict_mem (KInt z) c); cbn [negb]; [by apply IH|].
    destruct (dict_get pid active) as [md|]; cbn [mbind res_bind]; [|done].
    destruct (py_get md (KStr "title") _) as [title|e];
      cbn [mbind res_bind py_setitem]; [|done].
    by apply IH.
Qed.

(** The ids a run of the loop reports depend on the cache only through the
    [int] keys it holds. *)
Lemma discover_loop_sim active clock1 clock2 ids :
  ∀ c1 c2 new,
    (∀ z, dict_mem (KInt z) c1 = dict_mem (KInt z) c2) →
    match discover_loop active clock1 (VDict c1, new) ids,
          discover_loop active clock2 (VDict c2, new) ids with
    | Ok (_, n1), Ok (_, n2) => n1 = n2
    | Raise _, Raise _ => True
    | _, _ => False
    end.
Proof.
  induction ids as [|pid ids IH]; intros c1 c2 new Hrel;
    cbn [discover_loop]; [done|].
  unfold discover_one.
  destruct (py_int pid) as [z|e]; cbn [mbind res_bind]; [|done].
  cbn [py_contains]. rewrite <- (Hrel z).
  destruct (dict_mem (KInt z) c1); cbn [negb]; [by apply IH|].
  destruct (dict_get pid active) as [md|]; cbn [mbind res_bind]; [|done].
  destruct (py_get md (KStr "title") _) as [title|e];
    cbn [mbind res_bind py_setitem]; [|done].
  apply IH. intros z'. rewrite !dict_mem_set. by rewrite Hrel.
Qed.

(** With cache files that hold objects (or are missing or malformed), what
    [monitor_new_proposals] returns does not depend on the disk: the cache
    read back never holds an [int] key, so the test
    [proposal_id_int not in cached_proposals] only sees the ids added in the
    same call. *)
Lemma discovery_ignores_persisted_cache active clock1 clock2 fs1 fs2 :
  holds_object cache_file fs1 →
  holds_object cache_file fs2 →
  (monitor_new_proposals active clock1 fs1).1 =
  (monitor_new_proposals active clock2 fs2).1.
Proof.
  intros Hfs1 Hfs2.
  unfold monitor_new_proposals, discover.
  destruct (load_cache_str_keys fs1 Hfs1) as (d1 & -> & H1).
  destruct (load_cache_str_keys fs2 Hfs2) as (d2 & -> & H2).
  cbn [mbind res_bind].
  pose proof (discover_loop_sim active clock1 clock2 (dict_keys active)
                d1 d2 []) as Hsim.
  destruct (discover_loop active clock1 (VDict d1, []) _) as [[c1 n1]|e1],
           (discover_loop active clock2 (VDict d2, []) _) as [[c2 n2]|e2];
    cbn [fst].
  - apply Hsim. intros z. unfold dict_mem. by rewrite H1, H2.
  - exfalso. apply Hsim. intros z. unfold dict_mem. by rewrite H1, H2.
  - exfalso. apply Hsim. intros z. unfold dict_mem. by rewrite H1, H2.
  - done.
Qed.

(** The call leaves a cache file that holds an object where it found
    one. *)
Lemma monitor_holds_object active clock fs :
  holds_object cache_file fs →
  holds_object cache_file (monitor_new_proposals active clock fs).2.
Proof.
  intros Hfs. unfold monitor_new_proposals, discover.
  destruct (load_cache_str_keys fs Hfs) as (d & -> & _).
  cbn [mbind res_bind].
  destruct (discover_loop active clock (VDict d, []) _) as [[c n]|e] eqn:Hloop;
    cbn [snd]; [|done].
  destruct (discover_loop_dict _ _ _ _ _ _ Hloop) as [c' Hc'].
  cbn [fst] in Hc'. subst c.
  unfold _save_cache, _save_cache_steps. rewrite run_write_steps.
  unfold holds_object. by rewrite lookup_insert_eq.
Qed.

(** A second call with the same active proposals reports what the first one
    reported, when the cache file the first call finds holds an object, is
    malformed or is not there. *)
Lemma discovery_reports_again active clock1 clock2 fs :
  holds_object cache_file fs →
  (monitor_new_proposals active clock2
     (monitor_new_proposals active clock1 fs).2).1 =
  (monitor_new_proposals active clock1 fs).1.
Proof.
  intros Hfs.
  apply discovery_ignores_persisted_cache; [|done].
  by apply monitor_holds_object.
Qed.

(** A cache file that holds an array is searched and assigned to as a
    list.  With [[0, 0]] the id [1] is no element and the assignment at
    index 1 goes through: the id is reported, and what is saved is an array,
    in which nothing is found under ["1"].  With [[1, 7]] the id [1] is an
    element and is not reported.  With [[]] the assignment raises, and
    nothing is reported. *)
Example discovery_array_cache :
  let active := [(KInt 1, VDict [(KStr "title", VStr "Fund")])] in
  let run := λ j, monitor_new_proposals active (λ _, "t0")
                    {[ cache_file := Text j ]} in
  (run (JArray [JNum 0; JNum 0])).1 = [1] ∧
  get_proposal_info_key (KStr "1") (run (JArray [JNum 0; JNum 0])).2 = None ∧
  (run (JArray [JNum 1; JNum 7])).1 = [] ∧
  (run (JArray [])).1 = [] ∧
  (run JNull).1 = [].
Proof. vm_compute. auto. Qed.

(** C3.  Discovery on the active proposals [{1: .., 2: ..}] and an empty data
    directory returns [[1, 2]] and saves the cache; the second call, which
    reads that cache back, returns [[1, 2]] again and not the empty list. *)
Theorem discovery_second_call_not_empty :
  let first := monitor_new_proposals demo_active (λ _, "t0") ∅ in
  let second := monitor_new_proposals demo_active (λ _, "t1") first.2 in
  first.1 = [1; 2] ∧ second.1 = [1; 2] ∧ second.1 ≠ [].
Proof. vm_compute. repeat split; discriminate. Qed.

(** [get_proposal_info], which looks an [int] id up in the cache read back,
    never finds anything. *)
Lemma get_proposal_info_none proposal_id fs :
  get_proposal_info proposal_id fs = None.
Proof.
  unfold get_proposal_info, _load_cache, read_json.
  destruct (fs !! cache_file) as [[[]|raw]|]; try done.
  apply load_obj_str_keys.
Qed.

Lemma load_cache_save_cache cache_data fs :
  _load_cache (_save_cache cache_data fs) = Ok (loads (dumps cache_data)).
Proof.
  unfold _load_cache, _save_cache, _save_cache_steps, read_json.
  rewrite run_write_steps. by rewrite lookup_insert_eq.
Qed.

(** A cache with an [int] key does not survive saving and loading. *)
Lemma save_load_int_key cache_data fs z v :
  dict_get (KInt z) cache_data = Some v →
  _load_cache (_save_cache (VDict cache_data) fs) ≠ Ok (VDict cache_data).
Proof.
  intros Hget. rewrite load_cache_save_cache. intros [= Heq].
  pose proof (load_obj_str_keys (dump_obj cache_data) z) as Hnone.
  unfold load_obj, dump_obj in Hnone.
  rewrite Heq in Hnone. congruence.
Qed.

(** C9.  The cache discovery builds in memory for the active proposals
    [{1: .., 2: ..}] has the keys [1] and [2]; saved and loaded again it has
    the keys ["1"] and ["2"], a different document. *)
Theorem cache_round_trip_changes_keys :
  ∃ cached new,
    discover demo_active (λ _, "t0") ∅ = Ok (VDict cached, new) ∧
    dict_keys cached = [KInt 1; KInt 2] ∧
    ∃ loaded,
      _load_cache (_save_cache (VDict cached) ∅) = Ok (VDict loaded) ∧
      dict_keys loaded = [KStr "1"; KStr "2"] ∧
      loaded ≠ cached.
Proof.
  eexists _, _. split; [vm_compute; reflexivity|]. split; [reflexivity|].
  eexists. split; [vm_compute; reflexivity|]. split; [reflexivity|].
  discriminate.
Qed.

(** ** Archival *)

(** Scenario 3 of the specification. *)
Example reconcile_scenario :
  let out := delete_executed_keys_and_archive "votes.json" [KInt 2] "archive.json"
               (λ _, "t0") demo_disk in
  out.1 = [KStr "100"] ∧
  dict_keys <$> (read_json "votes.json" out.2 ≫= py_items)
    = Ok [KStr "200"] ∧
  (λ a, dict_item (KStr "100") a ≫= dict_item (KStr "final_status"))
    <$> read_json "archive.json" out.2
    = Ok (Some (VStr "completed")).
Proof. vm_compute. auto. Qed.

Lemma remove_keys_nodup ks d :
  NoDup (dict_keys d) → NoDup (dict_keys (remove_keys ks d)).
Proof.
  unfold remove_keys. revert d.
  induction ks as [|k ks IH]; intros d Hnd; simpl; [done|].
  by apply IH, dict_pop_nodup.
Qed.

Lemma remove_keys_sublist ks d : sublist (remove_keys ks d) d.
Proof.
  unfold remove_keys. revert d.
  induction ks as [|k ks IH]; intros d; simpl; [done|].
  etrans; [apply IH | apply dict_pop_sublist].
Qed.

Lemma dict_get_remove_keys ks k d :
  NoDup (dict_keys d) →
  dict_get k (remove_keys ks d) = if decide (k ∈ ks) then None else dict_get k d.
Proof.
  unfold remove_keys. revert d.
  induction ks as [|k0 ks IH]; intros d Hnd.
  - simpl. destruct (decide (k ∈ [])) as [Hin|]; [|done].
    by apply elem_of_nil in Hin.
  - cbn [fold_left]. rewrite IH by by apply dict_pop_nodup.
    rewrite dict_get_pop by done.
    destruct (decide (k ∈ ks)) as [Hin|Hnin].
    + destruct (decide (k ∈ k0 :: ks)) as [|Hn]; [done|].
      exfalso. apply Hn, elem_of_cons. by right.
    + destruct (decide (k0 = k)) as [->|Hne].
      * destruct (decide (k ∈ k :: ks)) as [|Hn]; [done|].
        exfalso. apply Hn, elem_of_cons. by left.
      * destruct (decide (k ∈ k0 :: ks)) as [[->|?]%elem_of_cons|]; done.
Qed.


Lemma archive_entry_json_like r now :
  json_like (VDict r) → json_like (VDict (archive_entry r now)).
Proof.
  intros H. unfold archive_entry. by repeat apply json_like_dict_set.
Qed.

Lemma archive_one_value active clock (arch : value) th t r :
  archive_one active clock (arch, th) (t, VDict r) =
  if retired active r
  then arch' ← py_setitem arch t
                 (VDict (archive_entry r (clock (length th))));
       Ok (arch', th ++ [t])
  else Ok (arch, th).
Proof.
  unfold archive_one, retired. cbn [py_get mbind res_bind].
  by destruct (negb _ && negb _).
Qed.

Lemma archive_one_dict active clock (arch : dict) th t r :
  archive_one active clock (VDict arch, th) (t, VDict r) =
  Ok (if retired active r
      then (VDict (dict_set t (VDict (archive_entry r (clock (length th))))
                     arch),
            th ++ [t])
      else (VDict arch, th)).
Proof.
  rewrite archive_one_value. by destruct (retired active r).
Qed.

Lemma archive_one_not_dict active clock st t v :
  (∀ r, v ≠ VDict r) → archive_one active clock st (t, v) = Raise AttributeError.
Proof. intros Hv. destruct st as [arch th]. destruct v; try done. by destruct (Hv d). Qed.

(** The loop on an archive that is a dictionary: the threads collected, the
    entries written (the [n]-th thread collected is stamped with the [n]-th
    reading of the clock) and the entries left alone. *)
Lemma archive_loop_spec active clock items :
  ∀ (arch : dict) th a' th',
    archive_loop active clock (VDict arch, th) items = Ok (a', th') →
    ∃ arch', a' = VDict arch' ∧
    th' = th ++ (filter (λ kv, retired_item active kv = true) items).*1 ∧
    (∀ t, t ∉ (filter (λ kv, retired_item active kv = true) items).*1 →
          dict_get t arch' = dict_get t arch) ∧
    (NoDup (dict_keys items) → ∀ t r,
       (t, VDict r) ∈ items → retired active r = true →
       ∃ n, th' !! n = Some t ∧
            dict_get t arch' = Some (VDict (archive_entry r (clock n)))) ∧
    (json_like (VDict arch) →
     Forall (λ kv, is_str_key kv.1 ∧ json_like kv.2) items →
     json_like (VDict arch')).
Proof.
  induction items as [|[t v] items IH]; intros arch th a' th'.
  - cbn [archive_loop]. intros [= <- <-]. exists arch. rewrite app_nil_r.
    split; [done|]. split; [done|]. split; [done|].
    split; [|done]. intros _ t r Hin. by apply elem_of_nil in Hin.
  - cbn [archive_loop]. destruct v as [| | | |r];
      try (rewrite archive_one_not_dict by done; done).
    rewrite archive_one_dict. cbn [mbind res_bind].
    rewrite filter_cons.
    change (retired_item active (t, VDict r)) with (retired active r).
    destruct (retired active r) eqn:Hret.
    + rewrite decide_True by done. intros Hloop.
      destruct (IH _ _ _ _ Hloop)
        as (arch' & -> & Hth & Hother & Hentry & Hjson).
      exists arch'. split; [done|].
      rewrite fmap_cons. cbn [fst]. split; [by rewrite Hth, <- app_assoc|].
      split; [|split].
      * intros t' [Hne Hnin]%not_elem_of_cons.
        rewrite (Hother _ Hnin). by rewrite dict_get_set_ne.
      * unfold dict_keys. rewrite fmap_cons. cbn [fst].
        intros [Hfresh Hnd]%NoDup_cons t' r' [[= -> ->]|Hin]%elem_of_cons Hr'.
        -- exists (length th). split.
           ++ rewrite Hth, <- app_assoc. apply list_lookup_middle. done.
           ++ rewrite Hother; [apply dict_get_set_eq|].
              intros Hin. apply Hfresh.
              apply list_elem_of_fmap in Hin as (x & -> & Hx).
              apply list_elem_of_filter in Hx as [_ Hx].
              by apply list_elem_of_fmap_2.
        -- by apply (Hentry Hnd).
      * intros Harch [[Hk Hr] Hall]%Forall_cons. apply Hjson; [|done].
        apply json_like_dict_set; [done| |done].
        by apply archive_entry_json_like.
    + rewrite decide_False by done. intros Hloop.
      destruct (IH _ _ _ _ Hloop)
        as (arch' & -> & Hth & Hother & Hentry & Hjson).
      exists arch'. split; [done|].
      split; [done|]. split; [done|]. split.
      * unfold dict_keys. rewrite fmap_cons.
        intros [Hfresh Hnd]%NoDup_cons t' r' [[= -> ->]|Hin]%elem_of_cons Hr'.
        -- congruence.
        -- by apply (Hentry Hnd).
      * intros Harch [_ Hall]%Forall_cons. by apply Hjson.
Qed.

Lemma archive_loop_total active clock items :
  Forall (λ kv, ∃ r, kv.2 = VDict r) items →
  ∀ (arch : dict) th, ∃ arch' th',
    archive_loop active clock (VDict arch, th) items = Ok (VDict arch', th').
Proof.
  induction 1 as [|[t v] items [r Hr] _ IH]; intros arch th.
  - by eexists _, _.
  - simpl in Hr. subst v. cbn [archive_loop].
    rewrite archive_one_dict. cbn [mbind res_bind].
    destruct (retired active r); apply IH.
Qed.

Lemma read_json_json_like path fs v :
  read_json path fs = Ok v → json_like v.
Proof.
  unfold read_json.
  destruct (fs !! path) as [[j|raw]|]; intros [= <-]. apply loads_json_like.
Qed.

Lemma load_archive_json_like path fs archive :
  load_archive path fs = Ok archive → json_like archive.
Proof.
  unfold load_archive.
  destruct (fs !! path) as [c|] eqn:Hc.
  - apply read_json_json_like.
  - intros [= <-]. apply json_like_dict. split; [apply NoDup_nil_2 | done].
Qed.

Lemma run_archive_steps p1 p2 d1 d2 fs :
  run_steps (archive_steps p1 p2 d1 d2) fs =
  <[p2 := Text (dumps d2)]> (<[p1 := Text (dumps d1)]> fs).
Proof.
  unfold archive_steps, run_steps. rewrite fold_left_app.
  fold (run_steps (write_steps p1 d1) fs). rewrite run_write_steps.
  fold (run_steps (write_steps p2 d2) (<[p1:=Text (dumps d1)]> fs)).
  by rewrite run_write_steps.
Qed.


Lemma retired_no_index active r :
  dict_get (KStr "index") r = None ∨ dict_get (KStr "index") r = Some VNone →
  retired active r = false.
Proof. unfold retired. by intros [-> | ->]. Qed.

(** The thread ids the loop collects are those of the retired records. *)
Lemma retired_threads active (tally : dict) t :
  NoDup (dict_keys tally) →
  t ∈ (filter (λ kv, retired_item active kv = true) tally).*1 ↔
  ∃ r, dict_get t tally = Some (VDict r) ∧ retired active r = true.
Proof.
  intros Hnd. rewrite list_elem_of_fmap. split.
  - intros ([t' v] & -> & [Hret Hin]%list_elem_of_filter). simpl.
    unfold retired_item in Hret. simpl in Hret.
    destruct v as [| | | |r]; try done.
    exists r. split; [by apply dict_get_elem_nodup | done].
  - intros (r & Hget%dict_get_Some_elem & Hret).
    exists (t, VDict r). split; [done|]. by apply list_elem_of_filter.
Qed.

(** The thread ids the loop collects, whatever the archive is. *)
Lemma archive_loop_threads active clock items :
  ∀ (arch : value) th a' th',
    archive_loop active clock (arch, th) items = Ok (a', th') →
    th' = th ++ (filter (λ kv, retired_item active kv = true) items).*1.
Proof.
  induction items as [|[t v] items IH]; intros arch th a' th'.
  - cbn [archive_loop]. intros [= <- <-]. by rewrite app_nil_r.
  - cbn [archive_loop]. destruct v as [| | | |r];
      try (rewrite archive_one_not_dict by done; done).
    rewrite archive_one_value. rewrite filter_cons.
    change (retired_item active (t, VDict r)) with (retired active r).
    destruct (retired active r) eqn:Hret.
    + rewrite decide_True by done.
      destruct (py_setitem arch t _) as [arch1|e]; cbn [mbind res_bind];
        [|done].
      intros Hloop%IH. rewrite fmap_cons. cbn [fst].
      by rewrite Hloop, <- app_assoc.
    + rewrite decide_False by done. cbn [mbind res_bind]. apply IH.
Qed.

(** An archive that is no dictionary takes no entry: the loop goes through
    only when no record is retired, and leaves the archive as it is. *)
Lemma archive_loop_no_dict active clock items :
  ∀ (arch : value) th a' th',
    (∀ d, arch ≠ VDict d) →
    (∀ kv, kv ∈ items → is_str_key kv.1) →
    archive_loop active clock (arch, th) items = Ok (a', th') →
    a' = arch.
Proof.
  induction items as [|[t v] items IH]; intros arch th a' th' Hnd Hkeys.
  - cbn [archive_loop]. by intros [= <- <-].
  - cbn [archive_loop]. destruct v as [| | | |r];
      try (rewrite archive_one_not_dict by done; done).
    rewrite archive_one_value.
    assert (∀ kv, kv ∈ items → is_str_key kv.1) as Hkeys'.
    { intros kv Hin. apply Hkeys, elem_of_cons. by right. }
    destruct (retired active r) eqn:Hret.
    + assert (py_setitem arch t
                (VDict (archive_entry r (clock (length th))))
              = Raise TypeError) as ->; [|done].
      pose proof (Hkeys (t, VDict r) ltac:(apply elem_of_cons; by left))
        as Ht.
      cbn [fst] in Ht. destruct t as [z|s]; [done|].
      destruct arch as [| | | |d]; try done. by destruct (Hnd d).
    + cbn [mbind res_bind]. by apply IH.
Qed.




(** C10.  A record without [index] (or with a null one) is left alone by
    reconciliation, whatever the active set and whatever the archive file
    holds: its thread id is not returned, it is still in the tally document,
    unchanged, and the archive holds for its thread id what it held before
    (an archive that is no dictionary reads back as the value it was). *)
Theorem reconcile_skips_record_without_index
    (json_file_path archive_filename : string) (active_proposals : list key)
    (clock : nat → string) (fs : disk) (tally : dict) (t : key) (r : dict) :
  read_json json_file_path fs = Ok (VDict tally) →
  dict_get t tally = Some (VDict r) →
  dict_get (KStr "index") r = None ∨ dict_get (KStr "index") r = Some VNone →
  let out := delete_executed_keys_and_archive json_file_path
               active_proposals archive_filename clock fs in
  (t ∉ out.1) ∧
  (∃ tally', read_json json_file_path out.2 = Ok (VDict tally') ∧
             dict_get t tally' = Some (VDict r)) ∧
  dict_item t <$> load_archive archive_filename out.2
    = dict_item t <$> load_archive archive_filename fs ∧
  ((∀ d, load_archive archive_filename fs ≠ Ok (VDict d)) →
   load_archive archive_filename out.2 = load_archive archive_filename fs).
Proof.
  intros Htally Hget Hidx out.
  pose proof (read_json_json_like _ _ _ Htally) as Hjl.
  pose proof Hjl as [Hnd Hall]%json_like_dict.
  pose proof (retired_no_index active_proposals r Hidx) as Hret.
  unfold out, delete_executed_keys_and_archive, archive_plan.
  rewrite Htally. cbn [mbind res_bind].
  destruct (load_archive archive_filename fs) as [archive|e] eqn:Harchive;
    cbn [mbind res_bind fst snd py_items].
  2:{ rewrite Harchive. split; [apply not_elem_of_nil|].
      split; [eauto|done]. }
  pose proof (load_archive_json_like _ _ _ Harchive) as Hajl.
  destruct (archive_loop active_proposals clock (archive, []) tally)
    as [[archive' threads]|e] eqn:Hloop; cbn [mbind res_bind fst snd].
  2:{ rewrite Harchive. split; [apply not_elem_of_nil|].
      split; [eauto|done]. }
  pose proof (archive_loop_threads _ _ _ _ _ _ _ Hloop) as Hth.
  cbn [app] in Hth.
  assert (t ∉ threads) as Hnin.
  { rewrite Hth. intros (r' & Hget' & Hret')%retired_threads; [|done].
    congruence. }
  assert (dict_item t archive' = dict_item t archive
          ∧ ((∀ d, archive ≠ VDict d) → archive' = archive)
          ∧ json_like archive') as (Hsame & Hnodict & Hajl').
  { assert ((∀ d, archive ≠ VDict d) → archive' = archive) as Hno.
    { intros Hd. eapply archive_loop_no_dict; [exact Hd| |exact Hloop].
      intros kv Hin. rewrite Forall_forall in Hall. by apply Hall. }
    destruct archive as [| | | |d];
      try (rewrite Hno by done; done).
    destruct (archive_loop_spec _ _ _ _ _ _ _ Hloop)
      as (d' & -> & _ & Hother & _ & Hjson).
    split; [|split].
    - cbn [dict_item]. apply Hother. by rewrite <- Hth.
    - intros Hd. by destruct (Hd d).
    - by apply Hjson. }
  assert (dict_get t (remove_keys threads tally) = Some (VDict r)) as Hkept.
  { rewrite dict_get_remove_keys by done. by rewrite decide_False. }
  assert (json_like (VDict (remove_keys threads tally))) as Hjl'.
  { eapply json_like_sublist; [apply remove_keys_sublist | done]. }
  rewrite run_archive_steps.
  split; [done|].
  assert (load_archive archive_filename
            (<[archive_filename:=Text (dumps archive')]>
               (<[json_file_path:=
                    Text (dumps (VDict (remove_keys threads tally)))]> fs))
          = Ok archive') as Hload.
  { unfold load_archive. rewrite lookup_insert_eq. by apply read_json_written. }
  rewrite Hload. cbn [fmap res_fmap].
  split; [|split; [by rewrite Hsame|]].
  2:{ intros Hd. f_equal. apply Hnodict. intros d ->. by apply (Hd d). }
  destruct (decide (json_file_path = archive_filename)) as [<-|Hne].
  - assert (archive = VDict tally) as ->.
    { unfold load_archive in Harchive. unfold read_json in Htally, Harchive.
      destruct (fs !! json_file_path) as [[j|]|]; congruence. }
    destruct (archive_loop_spec _ _ _ _ _ _ _ Hloop) as (d' & -> & _).
    exists d'. split; [by apply read_json_written|].
    cbn [dict_item] in Hsame. by rewrite Hsame.
  - exists (remove_keys threads tally). split; [|done].
    unfold read_json. rewrite lookup_insert_ne by done.
    rewrite lookup_insert_eq. by rewrite loads_dumps.
Qed.

(** On a tally document whose only record has no [index], with nothing
    active. *)
Lemma reconcile_skips_record_without_index_scenario :
  let out := delete_executed_keys_and_archive "votes.json" [] "archive.json"
               (λ _, "t0") demo_disk_no_index in
  (KStr "300" ∉ out.1) ∧
  (∃ tally', read_json "votes.json" out.2 = Ok (VDict tally') ∧
             is_Some (dict_get (KStr "300") tally')) ∧
  dict_item (KStr "300") <$> load_archive "archive.json" out.2
    = dict_item (KStr "300")
        <$> load_archive "archive.json" demo_disk_no_index.
Proof.
  intros out.
  destruct (reconcile_skips_record_without_index "votes.json" "archive.json"
              [] (λ _, "t0") demo_disk_no_index
              (load_obj [("300", JObject [("aye", JNum 0); ("nay", JNum 0);
                                          ("recuse", JNum 0);
                                          ("users", JObject [])])])
              (KStr "300")
              (load_obj [("aye", JNum 0); ("nay", JNum 0);
                         ("recuse", JNum 0); ("users", JObject [])]))
    as (Hnot & (tally' & Ht & Hget) & Harch & _).
  - reflexivity.
  - reflexivity.
  - left. reflexivity.
  - fold out in Hnot, Ht, Harch. split; [exact Hnot|]. split; [|exact Harch].
    exists tally'. split; [exact Ht|]. rewrite Hget. by eexists.
Defined.

Lemma take_app_length' {A} (l1 l2 : list A) n :
  n = length l1 → take n (l1 ++ l2) = l1.
Proof. intros ->. apply take_app_length. Qed.

(** C6, as the code has it.  Reconciliation writes the tally document, with
    the retired records removed, before it writes the archive.  At the crash
    point between the two writes the archive file is as it was before the
    call and the tally document holds none of the retired records: a
    retired record that the archive did not hold already is in neither
    document. *)
Theorem reconcile_crash_between_writes
    (json_file_path archive_filename : string) (active_proposals : list key)
    (clock : nat → string) (fs : disk) (tally archive : dict) :
  json_file_path ≠ archive_filename →
  read_json json_file_path fs = Ok (VDict tally) →
  load_archive archive_filename fs = Ok (VDict archive) →
  (∀ t v, dict_get t tally = Some v → ∃ r, v = VDict r) →
  let crash := archive_crash 2 json_file_path active_proposals
                 archive_filename clock fs in
  (∀ d1 d2, archive_steps json_file_path archive_filename d1 d2
            = [open_w json_file_path; json_dump json_file_path d1;
               open_w archive_filename; json_dump archive_filename d2]) ∧
  crash !! archive_filename = fs !! archive_filename ∧
  load_archive archive_filename crash = Ok (VDict archive) ∧
  ∃ tally',
    read_json json_file_path crash = Ok (VDict tally') ∧
    ∀ t r, dict_get t tally = Some (VDict r) →
           retired active_proposals r = true →
           dict_get t tally' = None.
Proof.
  intros Hpaths Htally Harchive Hdict crash.
  pose proof (read_json_json_like _ _ _ Htally) as Hjl.
  pose proof Hjl as [Hnd Hall]%json_like_dict.
  assert (Forall (λ kv : key * value, ∃ r, kv.2 = VDict r) tally) as Hdicts.
  { apply Forall_forall. intros [t v] Hin.
    apply (Hdict t v (dict_get_elem_nodup _ _ _ Hnd Hin)). }
  destruct (archive_loop_total active_proposals clock tally Hdicts archive [])
    as (archive' & threads & Hloop).
  destruct (archive_loop_spec _ _ _ _ _ _ _ Hloop) as (? & _ & Hth & _).
  cbn [app] in Hth.
  assert (crash = <[json_file_path :=
                      Text (dumps (VDict (remove_keys threads tally)))]> fs)
    as ->.
  { unfold crash, archive_crash, archive_plan.
    rewrite Htally, Harchive. cbn [mbind res_bind py_items]. rewrite Hloop.
    cbn [mbind res_bind]. unfold crash_after, archive_steps.
    rewrite take_app_length' by done. apply run_write_steps. }
  assert (<[json_file_path:=
              Text (dumps (VDict (remove_keys threads tally)))]> fs
            !! archive_filename = fs !! archive_filename) as Hsame
    by by rewrite lookup_insert_ne.
  split; [done|]. split; [done|]. split.
  { unfold load_archive, read_json in *. by rewrite Hsame. }
  exists (remove_keys threads tally). split.
  - apply read_json_written.
    eapply json_like_sublist; [apply remove_keys_sublist | done].
  - intros t r Hget Hret. rewrite dict_get_remove_keys by done.
    rewrite decide_True; [done|]. rewrite Hth. apply retired_threads; eauto.
Qed.

(** On scenario 3 of the specification, interrupted between the two
    writes. *)
Lemma reconcile_crash_between_writes_scenario :
  let crash := archive_crash 2 "votes.json" [KInt 2] "archive.json"
                 (λ _, "t0") demo_disk in
  crash !! "archive.json" = None ∧
  ∃ tally', read_json "votes.json" crash = Ok (VDict tally') ∧
            dict_get (KStr "100") tally' = None.
Proof.
  intros crash.
  destruct (reconcile_crash_between_writes "votes.json" "archive.json"
              [KInt 2] (λ _, "t0") demo_disk (load_obj demo_tally) [])
    as (_ & Hsame & _ & tally' & Ht & Hgone).
  - discriminate.
  - reflexivity.
  - reflexivity.
  - intros t v.
    let d := eval vm_compute in (load_obj demo_tally) in
    change (load_obj demo_tally) with d.
    cbn [dict_get]. repeat case_decide; intros [= <-]; eauto.
  - fold crash in Hsame, Ht. split; [by rewrite Hsame|].
    exists tally'. split; [exact Ht|].
    apply (Hgone (KStr "100")
             (load_obj [("index", JNum 1); ("aye", JNum 1); ("nay", JNum 0);
                        ("recuse", JNum 0);
                        ("users", JObject [("42", JString "aye")])]));
      reflexivity.
Defined.

(** The claim of C6 fails on the tally of scenario 3: after the first write
    thread ["100"], retired, is no longer in the tally document and there is
    no archive yet. *)
Lemma reconcile_crash_loses_record :
  let crash := archive_crash 2 "votes.json" [KInt 2] "archive.json"
                 (λ _, "t0") demo_disk in
  dict_item (KStr "100") <$> read_json "votes.json" demo_disk
    = Ok (Some (loads (JObject [("index", JNum 1); ("aye", JNum 1);
                                ("nay", JNum 0); ("recuse", JNum 0);
                                ("users", JObject [("42", JString "aye")])]))) ∧
  dict_item (KStr "100") <$> read_json "votes.json" crash = Ok None ∧
  crash !! "archive.json" = None.
Proof. vm_compute. auto. Qed.

(** ** Rotating backups *)

Example endswith_examples :
  endswith "votes.json_20240101_120000.bak" ".bak" = true ∧
  endswith "notes.txt" ".bak" = false ∧ endswith "bak" ".bak" = false.
Proof. vm_compute. auto. Qed.

Example sort_desc_stable :
  sort_desc [("a", 1); ("b", 3); ("c", 1); ("d", 2)]
  = [("b", 3); ("d", 2); ("a", 1); ("c", 1)].
Proof. reflexivity. Qed.

Example slice_from_examples :
  slice_from 2 [1; 2; 3] = [3] ∧ slice_from 5 [1; 2; 3] = [] ∧
  slice_from (-1) [1; 2; 3] = [3] ∧ slice_from (-5) [1; 2; 3] = [1; 2; 3].
Proof. vm_compute. auto. Qed.

(** Scenario 4 of the specification: seven backups at seven different
    seconds with [max_backups = 5]. *)
Example backup_scenario :
  backup_count
    (backup_rounds "vote_counts.json" 5
       [("t1", demo_file 1); ("t2", demo_file 2); ("t3", demo_file 3);
        ("t4", demo_file 4); ("t5", demo_file 5); ("t6", demo_file 6);
        ("t7", demo_file 7)] []) = 5%nat.
Proof. vm_compute. reflexivity. Qed.

Lemma insert_desc_perm x l : insert_desc x l ≡ₚ x :: l.
Proof.
  induction l as [|y l IH]; simpl; [done|].
  destruct (y.2 <=? x.2); [done|]. rewrite IH. apply Permutation_swap.
Qed.

Lemma sort_desc_perm l : sort_desc l ≡ₚ l.
Proof.
  induction l as [|x l IH]; simpl; [done|].
  by rewrite insert_desc_perm, IH.
Qed.

Lemma insert_desc_sorted x l :
  StronglySorted newer_first l → StronglySorted newer_first (insert_desc x l).
Proof.
  induction l as [|y l IH]; simpl; intros Hs.
  - repeat constructor.
  - apply StronglySorted_inv in Hs as [Hl Hy].
    destruct (Z.leb_spec (y.2) (x.2)) as [Hle|Hlt].
    + constructor; [by constructor|]. constructor; [done|].
      eapply Forall_impl; [exact Hy|]. unfold newer_first. simpl. lia.
    + constructor; [by apply IH|].
      rewrite insert_desc_perm. constructor; [|done].
      unfold newer_first. lia.
Qed.

Lemma sort_desc_sorted l : StronglySorted newer_first (sort_desc l).
Proof.
  induction l as [|x l IH]; simpl; [constructor|].
  by apply insert_desc_sorted.
Qed.

Lemma slice_from_nonneg {A} (n : Z) (l : list A) :
  0 ≤ n → slice_from n l = drop (Z.to_nat n) l.
Proof. intros Hn. unfold slice_from. by rewrite (proj2 (Z.leb_le 0 n)). Qed.

Lemma filter_all {A} (P : A → Prop) `{∀ x, Decision (P x)} (l : list A) :
  Forall P l → filter P l = l.
Proof.
  induction 1 as [|x l Hx _ IH]; [done|].
  rewrite filter_cons, decide_True by done. by rewrite IH.
Qed.

Lemma filter_none {A} (P : A → Prop) `{∀ x, Decision (P x)} (l : list A) :
  Forall (λ x, ¬ P x) l → filter P l = [].
Proof.
  induction 1 as [|x l Hx _ IH]; [done|].
  by rewrite filter_cons, decide_False.
Qed.

Lemma fold_dir_remove (R : list (string * Z)) (dir : directory) :
  fold_left (λ d e, dir_remove e.1 d) R dir
  = filter (λ e, e.1 ∉ R.*1) dir.
Proof.
  revert dir. induction R as [|p R IH]; intros dir; simpl.
  - symmetry. apply filter_all.
    apply Forall_forall. intros e _. apply not_elem_of_nil.
  - rewrite IH. unfold dir_remove. rewrite list_filter_filter.
    apply list_filter_iff. intros e. rewrite not_elem_of_cons. tauto.
Qed.

Lemma backup_files_names dir :
  (backup_files dir).*1 = (filter (λ e, endswith e.1 ".bak" = true) dir).*1.
Proof.
  unfold backup_files. rewrite <- list_fmap_compose. reflexivity.
Qed.

Lemma backup_files_nodup dir :
  NoDup dir.*1 → NoDup (backup_files dir).*1.
Proof.
  intros Hnd. rewrite backup_files_names.
  eapply sublist_NoDup; [exact Hnd|]. apply sublist_fmap_fst, sublist_filter.
Qed.

Lemma backup_files_elem dir p :
  p ∈ backup_files dir ↔
  ∃ f, (p.1, f) ∈ dir ∧ endswith p.1 ".bak" = true ∧ p.2 = mtime f.
Proof.
  unfold backup_files. rewrite list_elem_of_fmap. split.
  - intros ([name f] & -> & [Hbak Hin]%list_elem_of_filter). simpl in *.
    by exists f.
  - intros (f & Hin & Hbak & Hm). exists (p.1, f). destruct p as [name m].
    simpl in *. subst m. split; [done|]. by apply list_elem_of_filter.
Qed.

(** Filtering a directory on names filters its backup files the same
    way. *)
Lemma backup_files_filter (Q : string → Prop) `{∀ x, Decision (Q x)} dir :
  backup_files (filter (λ e, Q e.1) dir)
  = filter (λ p, Q p.1) (backup_files dir).
Proof.
  unfold backup_files. induction dir as [|[name f] dir IH]; [done|].
  rewrite !filter_cons. simpl.
  destruct (decide (Q name)) as [HQ|HQ];
    destruct (decide (endswith name ".bak" = true)) as [Hb|Hb];
    rewrite ?filter_cons; simpl; rewrite ?decide_True by done;
    rewrite ?decide_False by done; simpl;
    rewrite ?filter_cons; simpl; rewrite ?decide_True by done;
    rewrite ?decide_False by done; by rewrite ?IH.
Qed.

Lemma backup_files_app d1 d2 :
  backup_files (d1 ++ d2) = backup_files d1 ++ backup_files d2.
Proof. unfold backup_files. by rewrite filter_app, map_app. Qed.

Lemma cleanup_spec dir N :
  NoDup dir.*1 → 0 ≤ N →
  let S := sort_desc (backup_files dir) in
  let n := Z.to_nat N in
  _cleanup_old_backups dir N = filter (λ e, e.1 ∉ (drop n S).*1) dir ∧
  backup_files (_cleanup_old_backups dir N) ≡ₚ take n S.
Proof.
  intros Hnd HN S n.
  assert (_cleanup_old_backups dir N = filter (λ e, e.1 ∉ (drop n S).*1) dir)
    as Heq.
  { unfold _cleanup_old_backups. rewrite slice_from_nonneg by done.
    apply fold_dir_remove. }
  split; [done|]. rewrite Heq.
  pose proof (backup_files_filter (λ name, name ∉ (drop n S).*1) dir) as Hf.
  cbv beta in Hf. rewrite Hf. clear Hf.
  assert (NoDup S.*1) as HndS.
  { unfold S. rewrite sort_desc_perm. by apply backup_files_nodup. }
  rewrite <- (sort_desc_perm (backup_files dir)). fold S.
  rewrite <- (take_drop n S) at 1. rewrite filter_app.
  rewrite <- (take_drop n S), fmap_app in HndS.
  apply NoDup_app in HndS as (_ & Hdisj & _).
  rewrite filter_all, filter_none, app_nil_r; [done| |].
  - apply Forall_forall. intros p Hp Hq. apply Hq. by apply list_elem_of_fmap_2.
  - apply Forall_forall. intros p Hp. apply Hdisj. by apply list_elem_of_fmap_2.
Qed.

Lemma cleanup_count dir N :
  NoDup dir.*1 → 0 ≤ N →
  backup_count (_cleanup_old_backups dir N)
  = Nat.min (Z.to_nat N) (backup_count dir).
Proof.
  intros Hnd HN. unfold backup_count.
  destruct (cleanup_spec dir N Hnd HN) as [_ Hperm].
  rewrite Hperm, length_take. by rewrite sort_desc_perm.
Qed.

(** What stays is at least as new as what goes. *)
Lemma cleanup_keeps_newest dir N kept removed :
  NoDup dir.*1 → 0 ≤ N →
  kept ∈ backup_files (_cleanup_old_backups dir N) →
  removed ∈ backup_files dir →
  removed ∉ backup_files (_cleanup_old_backups dir N) →
  removed.2 ≤ kept.2.
Proof.
  intros Hnd HN Hkept Hrem Hgone.
  destruct (cleanup_spec dir N Hnd HN) as [_ Hperm].
  rewrite Hperm in Hkept, Hgone.
  rewrite <- (sort_desc_perm (backup_files dir)) in Hrem.
  rewrite <- (take_drop (Z.to_nat N) (sort_desc (backup_files dir))) in Hrem.
  apply elem_of_app in Hrem as [?|Hrem]; [done|].
  pose proof (sort_desc_sorted (backup_files dir)) as Hs.
  rewrite <- (take_drop (Z.to_nat N) (sort_desc (backup_files dir))) in Hs.
  apply (StronglySorted_app_1_elem_of _ _ _ _ _ Hs Hkept Hrem).
Qed.

Lemma cleanup_sub dir N e :
  NoDup dir.*1 → 0 ≤ N → e ∈ _cleanup_old_backups dir N → e ∈ dir.
Proof.
  intros Hnd HN. destruct (cleanup_spec dir N Hnd HN) as [-> _].
  by intros [_ ?]%list_elem_of_filter.
Qed.

Lemma cleanup_sublist dir N :
  NoDup dir.*1 → 0 ≤ N → sublist (_cleanup_old_backups dir N) dir.
Proof.
  intros Hnd HN. destruct (cleanup_spec dir N Hnd HN) as [-> _].
  apply sublist_filter.
Qed.

(** Files that are not backups are never removed. *)
Lemma cleanup_other_files dir N e :
  NoDup dir.*1 → 0 ≤ N →
  e ∈ dir → endswith e.1 ".bak" = false → e ∈ _cleanup_old_backups dir N.
Proof.
  intros Hnd HN Hin Hbak. destruct (cleanup_spec dir N Hnd HN) as [-> _].
  apply list_elem_of_filter. split; [|done].
  intros (p & Hname & Hp)%list_elem_of_fmap.
  apply (subseteq_drop (Z.to_nat N)) in Hp.
  rewrite sort_desc_perm in Hp.
  apply backup_files_elem in Hp as (f & _ & Hb & _). congruence.
Qed.

(** A backup that is strictly newer than every other one survives the
    cleanup, as soon as one backup is kept. *)
Lemma cleanup_keeps_strict_max dir N p :
  NoDup dir.*1 → 1 ≤ N →
  p ∈ backup_files dir →
  (∀ q, q ∈ backup_files dir → q.1 ≠ p.1 → q.2 < p.2) →
  p ∈ backup_files (_cleanup_old_backups dir N).
Proof.
  intros Hnd HN Hp Hmax.
  destruct (cleanup_spec dir N Hnd) as [_ Hperm]; [lia|].
  rewrite Hperm.
  pose proof (sort_desc_perm (backup_files dir)) as HS.
  pose proof (sort_desc_sorted (backup_files dir)) as Hsorted.
  pose proof (backup_files_nodup dir Hnd) as HndS.
  rewrite <- HS in HndS, Hp.
  assert (∀ q, q ∈ sort_desc (backup_files dir) → q.1 ≠ p.1 → q.2 < p.2)
    as Hmax' by (intros q Hq; apply Hmax; by rewrite <- HS).
  destruct (sort_desc (backup_files dir)) as [|h S]; [by apply elem_of_nil in Hp|].
  destruct (Z.to_nat N) as [|n] eqn:Hn; [lia|]. simpl.
  apply elem_of_cons in Hp as [->|Hp]; [apply elem_of_cons; by left|].
  exfalso. rewrite fmap_cons in HndS. apply NoDup_cons in HndS as [Hfresh _].
  apply StronglySorted_inv in Hsorted as [_ Hh].
  rewrite Forall_forall in Hh. specialize (Hh p Hp). unfold newer_first in Hh.
  assert (h.1 ≠ p.1) as Hne.
  { intros Heq. apply Hfresh. rewrite Heq. by apply list_elem_of_fmap_2. }
  specialize (Hmax' h (list_elem_of_here _ _) Hne). lia.
Qed.

Lemma string_length_app x y :
  String.length (x +:+ y) = (String.length x + String.length y)%nat.
Proof. induction x as [|a x IH]; simpl; [done|]. by rewrite IH. Qed.

Lemma substring_all s : substring 0 (String.length s) s = s.
Proof. induction s as [|a s IH]; simpl; [done|]. by rewrite IH. Qed.

Lemma substring_skip x s m :
  substring (String.length x) m (x +:+ s) = substring 0 m s.
Proof. induction x as [|a x IH]; simpl; [done|]. exact IH. Qed.

Lemma endswith_app x suffix : endswith (x +:+ suffix) suffix = true.
Proof.
  unfold endswith. rewrite string_length_app.
  replace (String.length x + String.length suffix - String.length suffix)%nat
    with (String.length x) by lia.
  rewrite substring_skip, substring_all, String.eqb_refl.
  rewrite andb_true_r. apply Nat.leb_le. lia.
Qed.

Lemma string_app_assoc x y z : (x +:+ y) +:+ z = x +:+ (y +:+ z).
Proof.
  induction x as [|a x IH]; [done|].
  change (String a ((x +:+ y) +:+ z) = String a (x +:+ y +:+ z)).
  by rewrite IH.
Qed.

Lemma string_app_inj_r x y z : x +:+ z = y +:+ z → x = y.
Proof.
  revert y. induction x as [|a x IH]; intros [|b y] Heq.
  - done.
  - apply (f_equal String.length) in Heq.
    rewrite !string_length_app in Heq. simpl in Heq. lia.
  - apply (f_equal String.length) in Heq.
    rewrite !string_length_app in Heq. simpl in Heq. lia.
  - change (String a (x +:+ z) = String b (y +:+ z)) in Heq.
    injection Heq as -> Heq. f_equal. by apply IH.
Qed.

Lemma backup_filename_bak source_name timestamp :
  endswith (backup_filename source_name timestamp) ".bak" = true.
Proof.
  unfold backup_filename. rewrite <- !string_app_assoc. apply endswith_app.
Qed.

Lemma backup_filename_inj source_name t1 t2 :
  backup_filename source_name t1 = backup_filename source_name t2 → t1 = t2.
Proof.
  unfold backup_filename. intros H.
  apply (inj (String.app source_name)) in H.
  apply (inj (String.app "_")) in H.
  by apply string_app_inj_r in H.
Qed.

Lemma dir_write_fresh name f (dir : directory) :
  name ∉ dir.*1 → dir_write name f dir = dir ++ [(name, f)].
Proof.
  induction dir as [|[name' f'] dir IH]; [done|].
  rewrite fmap_cons. intros [Hne Hnin]%not_elem_of_cons. simpl in Hne |- *.
  rewrite decide_False by done. by rewrite IH.
Qed.

Lemma dir_write_names_old name f (dir : directory) :
  name ∈ dir.*1 → (dir_write name f dir).*1 = dir.*1.
Proof.
  induction dir as [|[name' f'] dir IH]; [by intros ?%elem_of_nil|].
  rewrite fmap_cons. simpl. intros Hin.
  destruct (decide (name = name')) as [->|Hne]; [done|].
  rewrite fmap_cons. simpl. f_equal. apply IH.
  apply elem_of_cons in Hin as [?|?]; done.
Qed.

Lemma dir_write_nodup name f (dir : directory) :
  NoDup dir.*1 → NoDup (dir_write name f dir).*1.
Proof.
  intros Hnd. destruct (decide (name ∈ dir.*1)) as [Hin|Hnin].
  - by rewrite dir_write_names_old.
  - rewrite dir_write_fresh by done. rewrite fmap_app. simpl.
    apply NoDup_app. split; [done|]. split; [|apply NoDup_singleton].
    by intros x Hx ->%list_elem_of_singleton.
Qed.

Lemma dir_write_names_sub name f (dir : directory) x :
  x ∈ (dir_write name f dir).*1 → x = name ∨ x ∈ dir.*1.
Proof.
  destruct (decide (name ∈ dir.*1)) as [Hin|Hnin].
  - rewrite dir_write_names_old by done. by right.
  - rewrite dir_write_fresh by done. rewrite fmap_app. simpl.
    intros [?|Hx]%elem_of_app; [by right|].
    apply list_elem_of_singleton in Hx as ->. by left.
Qed.

Lemma dir_write_elem_new name f (dir : directory) :
  (name, f) ∈ dir_write name f dir.
Proof.
  induction dir as [|[name' f'] dir IH]; simpl.
  - by apply list_elem_of_singleton.
  - destruct (decide (name = name')); apply elem_of_cons; [by left | by right].
Qed.

Lemma dir_write_elem_inv name f (dir : directory) e :
  e ∈ dir_write name f dir → e = (name, f) ∨ e ∈ dir.
Proof.
  induction dir as [|[name' f'] dir IH]; simpl.
  - intros ->%list_elem_of_singleton. by left.
  - destruct (decide (name = name')).
    + intros [->|?]%elem_of_cons; [by left|]. right. apply elem_of_cons. by right.
    + intros [->|He]%elem_of_cons.
      * right. apply elem_of_cons. by left.
      * destruct (IH He) as [->|?]; [by left|]. right. apply elem_of_cons. by right.
  Qed.

Lemma dir_write_elem_other name f (dir : directory) e :
  NoDup dir.*1 → e ∈ dir_write name f dir → e ≠ (name, f) → e ∈ dir ∧ e.1 ≠ name.
Proof.
  induction dir as [|[name' f'] dir IH].
  - simpl. intros _ ->%list_elem_of_singleton. done.
  - rewrite fmap_cons. intros [Hfresh Hnd]%NoDup_cons. simpl in Hfresh |- *.
    destruct (decide (name = name')) as [<-|Hne].
    + intros [->|Hin]%elem_of_cons; [done|]. intros _.
      split; [apply elem_of_cons; by right|].
      intros <-. apply Hfresh. by apply (list_elem_of_fmap_2 fst _ e).
    + intros [->|Hin]%elem_of_cons Hnew.
      * split; [apply elem_of_cons; by left | by intros <-].
      * destruct (IH Hnd Hin Hnew). split; [apply elem_of_cons; by right | done].
Qed.

Lemma backup_count_write_fresh source_name timestamp f (dir : directory) :
  backup_filename source_name timestamp ∉ dir.*1 →
  backup_count (dir_write (backup_filename source_name timestamp) f dir)
  = S (backup_count dir).
Proof.
  intros Hfresh. rewrite dir_write_fresh by done. unfold backup_count.
  rewrite backup_files_app, length_app. unfold backup_files at 2.
  rewrite filter_cons, decide_True by apply backup_filename_bak.
  simpl. lia.
Qed.

Lemma rotating_nodup source_name f timestamp N dir :
  NoDup dir.*1 → 0 ≤ N →
  NoDup (rotating_backup_file source_name (Some f) timestamp N dir).*1.
Proof.
  intros Hnd HN. unfold rotating_backup_file.
  eapply sublist_NoDup;
    [apply (dir_write_nodup (backup_filename source_name timestamp) f _ Hnd)|].
  apply sublist_fmap_fst, cleanup_sublist; [by apply dir_write_nodup | done].
Qed.

Lemma rotating_names source_name f timestamp N dir x :
  NoDup dir.*1 → 0 ≤ N →
  x ∈ (rotating_backup_file source_name (Some f) timestamp N dir).*1 →
  x = backup_filename source_name timestamp ∨ x ∈ dir.*1.
Proof.
  intros Hnd HN (e & -> & He)%list_elem_of_fmap.
  apply cleanup_sub in He; [|by apply dir_write_nodup | done].
  apply dir_write_names_sub with (f := f). by apply list_elem_of_fmap_2.
Qed.

Lemma rotating_count_fresh source_name f timestamp N dir :
  NoDup dir.*1 → 0 ≤ N →
  backup_filename source_name timestamp ∉ dir.*1 →
  backup_count (rotating_backup_file source_name (Some f) timestamp N dir)
  = Nat.min (Z.to_nat N) (S (backup_count dir)).
Proof.
  intros Hnd HN Hfresh. unfold rotating_backup_file.
  rewrite cleanup_count; [|by apply dir_write_nodup | done].
  by rewrite backup_count_write_fresh.
Qed.

(** Successive backups at different seconds, none of them under a name the
    directory already has. *)
Lemma backup_rounds_count source_name N rounds :
  0 ≤ N → NoDup rounds.*1 → rounds ≠ [] →
  ∀ dir,
    NoDup dir.*1 →
    (∀ r, r ∈ rounds → backup_filename source_name r.1 ∉ dir.*1) →
    backup_count (backup_rounds source_name N rounds dir)
    = Nat.min (Z.to_nat N) (backup_count dir + length rounds).
Proof.
  intros HN. induction rounds as [|[ts f] rounds IH]; [done|].
  rewrite fmap_cons. intros [Hts Hnd]%NoDup_cons _ dir Hdir Hfresh.
  simpl in Hts. unfold backup_rounds. cbn [fold_left fst snd].
  fold (backup_rounds source_name N rounds
          (rotating_backup_file source_name (Some f) ts N dir)).
  assert (backup_count (rotating_backup_file source_name (Some f) ts N dir)
          = Nat.min (Z.to_nat N) (S (backup_count dir))) as Hone.
  { apply rotating_count_fresh; [done|done|].
    apply (Hfresh (ts, f)). apply elem_of_cons. by left. }
  destruct rounds as [|r' rounds'].
  - unfold backup_rounds at 1. cbn [fold_left]. rewrite Hone.
    cbn [length]. f_equal. lia.
  - rewrite IH; [|done|done|by apply rotating_nodup|].
    + rewrite Hone. simpl length. lia.
    + intros r Hr Hin.
      apply rotating_names in Hin as [Heq|Hin]; [| |done|done].
      * apply backup_filename_inj in Heq. apply Hts. rewrite <- Heq.
        by apply list_elem_of_fmap_2.
      * apply (Hfresh r); [|done]. apply elem_of_cons. by right.
Qed.

(** C7, as the code has it.  After a backup copy and the rotation, with
    [max_backups = N ≥ 0]: exactly [min(N, number of backups present)]
    backup files remain; every file kept is at least as new, by
    modification time, as every file removed; files that are not backups
    stay.  The new backup carries the modification time of the source (not
    the time of the copy): it is among the files kept when [N ≥ 1] and the
    source is strictly newer than every other backup.  Successive backups
    under names the directory does not have yet, at pairwise different
    seconds, leave [min(N, backups before + number of backups made)]
    files, so [N + k] of them into an empty directory leave exactly [N]. *)
Theorem backup_rotation_retention
    (source_name timestamp : string) (f : file) (N : Z) (dir : directory) :
  NoDup dir.*1 →
  0 ≤ N →
  let new := backup_filename source_name timestamp in
  let copied := dir_write new f dir in
  let rotated := rotating_backup_file source_name (Some f) timestamp N dir in
  backup_count rotated = Nat.min (Z.to_nat N) (backup_count copied) ∧
  (∀ kept removed,
     kept ∈ backup_files rotated →
     removed ∈ backup_files copied →
     removed ∉ backup_files rotated →
     removed.2 ≤ kept.2) ∧
  (∀ e, e ∈ rotated → e ∈ copied) ∧
  (∀ e, e ∈ copied → endswith e.1 ".bak" = false → e ∈ rotated) ∧
  (new, mtime f) ∈ backup_files copied ∧
  (1 ≤ N →
   (∀ q, q ∈ backup_files dir → q.1 ≠ new → q.2 < mtime f) →
   (new, mtime f) ∈ backup_files rotated) ∧
  (∀ rounds : list (string * file),
     NoDup rounds.*1 → rounds ≠ [] →
     (∀ r, r ∈ rounds → backup_filename source_name r.1 ∉ dir.*1) →
     backup_count (backup_rounds source_name N rounds dir)
     = Nat.min (Z.to_nat N) (backup_count dir + length rounds)) ∧
  (∀ (k : nat) (rounds : list (string * file)),
     NoDup rounds.*1 → length rounds = (Z.to_nat N + k)%nat → (1 ≤ N ∨ (0 < k)%nat) →
     backup_count (backup_rounds source_name N rounds []) = Z.to_nat N).
Proof.
  intros Hnd HN new copied rotated.
  assert (NoDup copied.*1) as Hnd' by by apply dir_write_nodup.
  assert ((new, mtime f) ∈ backup_files copied) as Hnew.
  { apply backup_files_elem. exists f. split; [apply dir_write_elem_new|].
    split; [apply backup_filename_bak | done]. }
  split; [by apply cleanup_count|].
  split; [intros kept removed; by apply cleanup_keeps_newest|].
  split; [intros e; by apply cleanup_sub|].
  split; [intros e; by apply cleanup_other_files|].
  split; [done|].
  split; [|split].
  - intros HN1 Hmax. apply cleanup_keeps_strict_max; [done|done|done|].
    intros q (g & Hin & Hbak & Hm)%backup_files_elem Hne. simpl in Hne |- *.
    apply dir_write_elem_other in Hin as [Hin _];
      [|done|by intros [= ? _]].
    apply Hmax; [|done]. apply backup_files_elem. by exists g.
  - intros rounds Hr Hne Hfresh. by apply backup_rounds_count.
  - intros k rounds Hr Hlen Hpos.
    assert (rounds ≠ []) as Hne.
    { intros ->. simpl in Hlen. lia. }
    rewrite backup_rounds_count; [|done|done|done|apply NoDup_nil_2|].
    + unfold backup_count at 1. simpl. lia.
    + intros r _. apply not_elem_of_nil.
Qed.

(** On an empty backup directory with [max_backups = 5], and on scenario 4
    of the specification (seven backups). *)
Lemma backup_rotation_retention_scenario :
  let rotated := rotating_backup_file "vote_counts.json" (Some (demo_file 10))
                   "20240102_000000" 5 [] in
  backup_count rotated = 1%nat ∧
  (backup_filename "vote_counts.json" "20240102_000000", 10)
    ∈ backup_files rotated ∧
  backup_count (backup_rounds "vote_counts.json" 5 demo_rounds []) = 5%nat.
Proof.
  intros rotated.
  destruct (backup_rotation_retention "vote_counts.json" "20240102_000000"
              (demo_file 10) 5 [])
    as (Hcount & _ & _ & _ & _ & Hnew & _ & Hrounds).
  - apply NoDup_nil_2.
  - lia.
  - fold rotated in Hcount, Hnew. split; [exact Hcount|]. split.
    + apply Hnew; [lia|]. intros q Hq. by apply elem_of_nil in Hq.
    + apply (Hrounds 2%nat demo_rounds); [|reflexivity|left; lia].
      apply (bool_decide_unpack (NoDup demo_rounds.*1)). vm_compute. exact I.
Defined.

(** The claim of C7 fails for a source file older than a backup the
    directory holds (here one of another file): with [max_backups = 1] the
    backup just created is the one deleted. *)
Lemma backup_just_created_deleted :
  let dir := [("governance_cache.json_20240101_000000.bak", demo_file 100)] in
  let rotated := rotating_backup_file "vote_counts.json" (Some (demo_file 50))
                   "20240102_000000" 1 dir in
  rotated = dir ∧
  backup_filename "vote_counts.json" "20240102_000000" ∉ rotated.*1.
Proof.
  cbv zeta. split; [vm_compute; reflexivity|].
  vm_compute. intros [H|H]%elem_of_cons; [discriminate | by apply elem_of_nil in H].
Qed.

(** ** Reasoning on stateful code *)

Section triples.
Context {S : Type}.

Lemma triple_bind {A B} (P : S → Prop) (R : A → S → Prop)
    (Q : res B → S → Prop) (m : stx S A) (k : A → stx S B) :
  triple P m (λ r s, match r with Ok a => R a s | Raise e => Q (Raise e) s end) →
  (∀ a, triple (R a) (k a) Q) →
  triple P (m ≫= k) Q.
Proof.
  intros Hm Hk s Hs. specialize (Hm s Hs).
  unfold mbind, stx_bind. destruct (m s) as [[a|e] s']; simpl in *.
  - by apply Hk.
  - done.
Qed.

Lemma triple_conseq {A} (P P' : S → Prop) (Q Q' : res A → S → Prop)
    (m : stx S A) :
  triple P' m Q' → (∀ s, P s → P' s) → (∀ r s, Q' r s → Q r s) →
  triple P m Q.
Proof. intros Hm HP HQ s Hs. apply HQ, Hm, HP, Hs. Qed.

Lemma triple_ret {A} (P : S → Prop) (Q : res A → S → Prop) (a : A) :
  (∀ s, P s → Q (Ok a) s) → triple P (mret a) Q.
Proof. intros H s Hs. by apply H. Qed.

Lemma triple_lift {A} (P : S → Prop) (Q : res A → S → Prop) (r : res A) :
  (∀ s, P s → Q r s) → triple P (lift r) Q.
Proof. intros H s Hs. by apply H. Qed.

Lemma triple_gets {A} (P : S → Prop) (Q : res A → S → Prop) (f : S → A) :
  (∀ s, P s → Q (Ok (f s)) s) → triple P (gets f) Q.
Proof. intros H s Hs. by apply H. Qed.

Lemma triple_try_except {A} (P : S → Prop) (R : exn → S → Prop)
    (Q : res A → S → Prop) (body : stx S A) (handler : exn → stx S A) :
  triple P body (λ r s, match r with Ok a => Q (Ok a) s | Raise e => R e s end) →
  (∀ e, triple (R e) (handler e) Q) →
  triple P (try_except body handler) Q.
Proof.
  intros Hb Hh s Hs. specialize (Hb s Hs). unfold try_except.
  destruct (body s) as [[a|e] s']; simpl in *; [done|]. by apply Hh.
Qed.

Lemma keeps_bind {A B} (I : S → Prop) (m : stx S A) (k : A → stx S B) :
  keeps I m → (∀ a, keeps I (k a)) → keeps I (m ≫= k).
Proof.
  intros Hm Hk. apply (triple_bind _ (λ _, I)); [|done].
  intros s Hs. specialize (Hm s Hs). by destruct (m s).1.
Qed.

Lemma keeps_ret {A} (I : S → Prop) (a : A) : keeps I (mret a : stx S A).
Proof. by intros s Hs. Qed.

Lemma keeps_lift {A} (I : S → Prop) (r : res A) : keeps I (lift r).
Proof. by intros s Hs. Qed.

Lemma keeps_raise {A} (I : S → Prop) (e : exn) : keeps I (raise e : stx S A).
Proof. by intros s Hs. Qed.

Lemma keeps_gets {A} (I : S → Prop) (f : S → A) : keeps I (gets f).
Proof. by intros s Hs. Qed.

Lemma keeps_if {A} (I : S → Prop) (b : bool) (m1 m2 : stx S A) :
  keeps I m1 → keeps I m2 → keeps I (if b then m1 else m2).
Proof. by destruct b. Qed.

Lemma keeps_try_except {A} (I : S → Prop) (body : stx S A)
    (handler : exn → stx S A) :
  keeps I body → (∀ e, keeps I (handler e)) → keeps I (try_except body handler).
Proof.
  intros Hb Hh. apply (triple_try_except _ (λ _, I)); [|done].
  intros s Hs. specialize (Hb s Hs). by destruct (body s).1.
Qed.

End triples.

(** *** The steps of [_handle_vote] *)

Lemma keeps_vote_data (I : client → Prop) tid : keeps I (vote_data tid).
Proof.
  intros c Hc. unfold vote_data. by destruct (dict_get tid (vote_counts c)).
Qed.

(** An item assignment through the alias keeps an invariant of the client
    when replacing the record by the updated one does. *)
Lemma keeps_vote_data_setitem (I : client → Prop) tid k v :
  (∀ c r, I c → dict_get tid (vote_counts c) = Some (VDict r) →
          I (Client (dict_set tid (VDict (dict_set k v r)) (vote_counts c))
                    (data_dir c))) →
  keeps I (vote_data_setitem tid k v).
Proof.
  intros H c Hc. unfold vote_data_setitem.
  destruct (dict_get tid (vote_counts c)) as [[]|] eqn:Hget; simpl; auto.
Qed.

Lemma keeps_users_setitem (I : client → Prop) tid user vote :
  (∀ c r u, I c → dict_get tid (vote_counts c) = Some (VDict r) →
            I (Client (dict_set tid
                         (VDict (dict_set (KStr "users") (VDict u) r))
                         (vote_counts c))
                      (data_dir c))) →
  keeps I (users_setitem tid user vote).
Proof.
  intros H. unfold users_setitem. apply keeps_bind; [apply keeps_vote_data|].
  intros [| | | |r]; try apply keeps_raise.
  destruct (dict_get (KStr "users") r) as [[]|]; try apply keeps_raise.
  apply keeps_vote_data_setitem. intros c r' Hc Hget. by apply H.
Qed.

Lemma triple_bind_keeps {A B} (I : client → Prop) (Q : res B → client → Prop)
    (m : stx client A) (k : A → stx client B) :
  keeps I m → (∀ e s, I s → Q (Raise e) s) →
  (∀ a, triple I (k a) Q) →
  triple I (m ≫= k) Q.
Proof.
  intros Hm Hraise Hk. apply (triple_bind _ (λ _, I)); [|done].
  intros s Hs. specialize (Hm s Hs). destruct (m s).1; auto.
Qed.

Lemma triple_bind_lift {S A B} (P : S → Prop) (Q : res B → S → Prop)
    (r : res A) (k : A → stx S B) :
  (∀ e s, P s → r = Raise e → Q (Raise e) s) →
  (∀ a, r = Ok a → triple P (k a) Q) →
  triple P (lift r ≫= k) Q.
Proof.
  intros Hraise Hk s Hs. unfold mbind, stx_bind, lift.
  destruct r as [a|e]; simpl; [by apply Hk | by apply Hraise].
Qed.

Lemma triple_bind_vote_data {B} (P : client → Prop)
    (Q : res B → client → Prop) tid (k : value → stx client B) :
  (∀ s, P s → Q (Raise KeyError) s) →
  (∀ v, triple (λ s, P s ∧ dict_get tid (vote_counts s) = Some v) (k v) Q) →
  triple P (vote_data tid ≫= k) Q.
Proof.
  intros Hraise Hk s Hs. unfold mbind, stx_bind, vote_data.
  destruct (dict_get tid (vote_counts s)) as [v|] eqn:Hget; simpl.
  - by apply Hk.
  - by apply Hraise.
Qed.

Lemma triple_vote_data_setitem (P : client → Prop)
    (Q : res () → client → Prop) tid k v :
  (∀ e s, P s → Q (Raise e) s) →
  (∀ c r, P c → dict_get tid (vote_counts c) = Some (VDict r) →
     Q (Ok ()) (Client (dict_set tid (VDict (dict_set k v r)) (vote_counts c))
                       (data_dir c))) →
  triple P (vote_data_setitem tid k v) Q.
Proof.
  intros Hraise Hset c Hc. unfold vote_data_setitem.
  destruct (dict_get tid (vote_counts c)) as [[| | | |r]|] eqn:Hget; simpl;
    first [by apply Hraise | by apply Hset].
Qed.

(** *** The three blocks of [_handle_vote]

    Each lemma states what an invariant [I] has to survive: the item
    assignment of the block, with the values the block has read. *)

(** [previous_vote = vote_data.get('users', {}).get(user_id)] and the
    decrement of [vote_data[previous_vote]]. *)
Lemma triple_vote_decrement {A} (I : client → Prop)
    (Q : res A → client → Prop) tid user (rest : stx client A) :
  (∀ c r users previous_vote k n,
     I c → dict_get tid (vote_counts c) = Some (VDict r) →
     py_get (VDict r) (KStr "users") (VDict []) = Ok users →
     py_get users (KStr user) VNone = Ok previous_vote →
     truthy previous_vote = true →
     as_key previous_vote = Ok k →
     py_sub (default (VInt 0) (dict_get k r)) 1 = Ok n →
     I (Client (dict_set tid (VDict (dict_set k (VInt (Z.max 0 n)) r))
                         (vote_counts c))
               (data_dir c))) →
  (∀ e s, I s → Q (Raise e) s) →
  triple I rest Q →
  triple I
    (vd ← vote_data tid;
     users ← lift (py_get vd (KStr "users") (VDict []));
     previous_vote ← lift (py_get users (KStr user) VNone);
     _ ← (if truthy previous_vote then
            k ← lift (as_key previous_vote);
            vd ← vote_data tid;
            old ← lift (py_get vd k (VInt 0));
            n ← lift (py_sub old 1);
            vote_data_setitem tid k (VInt (Z.max 0 n))
          else mret ());
     rest) Q.
Proof.
  intros Hdec Hraise Hrest.
  apply triple_bind_vote_data; [by auto|]. intros vd.
  apply triple_bind_lift; [intros e s [Hs _] _; by apply Hraise|].
  intros users Husers.
  apply triple_bind_lift; [intros e s [Hs _] _; by apply Hraise|].
  intros previous_vote Hprevious.
  apply (triple_bind _ (λ _, I)); [|done].
  destruct (truthy previous_vote) eqn:Htruthy; [|by intros s [Hs _]].
  apply triple_bind_lift; [intros e s [Hs _] _; by apply Hraise|].
  intros k Hk.
  apply triple_bind_vote_data; [intros s [Hs _]; by apply Hraise|].
  intros vd'.
  apply triple_bind_lift; [intros e s [[Hs _] _] _; by apply Hraise|].
  intros old Hold.
  apply triple_bind_lift; [intros e s [[Hs _] _] _; by apply Hraise|].
  intros n Hn.
  apply triple_vote_data_setitem; [intros e s [[Hs _] _]; by apply Hraise|].
  intros c r [[Hc Hvd] Hvd'] Hget.
  assert (vd = VDict r) as -> by congruence.
  assert (vd' = VDict r) as -> by congruence.
  simpl in Hold. injection Hold as <-.
  by eapply Hdec.
Qed.

(** [if 'users' not in vote_data: vote_data['users'] = {}] and
    [vote_data['users'][user_id] = vote_type]; [J] is what holds once the
    user is registered. *)
Lemma triple_vote_users {A} (I J : client → Prop)
    (Q : res A → client → Prop) tid user vote (rest : stx client A) :
  (∀ c r, I c → dict_get tid (vote_counts c) = Some (VDict r) →
     dict_mem (KStr "users") r = false →
     I (Client (dict_set tid (VDict (dict_set (KStr "users") (VDict []) r))
                         (vote_counts c))
               (data_dir c))) →
  (∀ c r u, I c → dict_get tid (vote_counts c) = Some (VDict r) →
     dict_get (KStr "users") r = Some (VDict u) →
     J (Client (dict_set tid
                  (VDict (dict_set (KStr "users")
                            (VDict (dict_set (KStr user) (VStr vote) u)) r))
                  (vote_counts c))
               (data_dir c))) →
  (∀ e s, I s → Q (Raise e) s) →
  triple J rest Q →
  triple I
    (vd ← vote_data tid;
     has_users ← lift (py_contains vd (KStr "users"));
     _ ← (if negb has_users
          then vote_data_setitem tid (KStr "users") (VDict [])
          else mret ());
     _ ← users_setitem tid user vote;
     rest) Q.
Proof.
  intros Hinit Hset Hraise Hrest.
  apply triple_bind_vote_data; [by auto|]. intros vd.
  apply triple_bind_lift; [intros e s [Hs _] _; by apply Hraise|].
  intros has_users Hhas.
  apply (triple_bind _ (λ _, I)).
  { destruct has_users; simpl; [by intros s [Hs _]|].
    apply triple_vote_data_setitem; [intros e s [Hs _]; by apply Hraise|].
    intros c r [Hc Hvd] Hget. assert (vd = VDict r) as -> by congruence.
    simpl in Hhas. injection Hhas as Hhas. by apply Hinit. }
  intros _. apply (triple_bind _ (λ _, J)); [|done].
  unfold users_setitem.
  apply triple_bind_vote_data; [by auto|]. intros vd'.
  destruct vd' as [| | | |r]; try (intros ? [? _]; by apply Hraise).
  destruct (dict_get (KStr "users") r) as [[| | | |u]|] eqn:Hu;
    try (intros ? [? _]; by apply Hraise).
  apply triple_vote_data_setitem; [intros e s [Hs _]; by apply Hraise|].
  intros c r' [Hc Hvd] Hget. assert (r' = r) as -> by congruence.
  by apply Hset.
Qed.

(** [vote_data[vote_type] = vote_data.get(vote_type, 0) + 1], the save and
    the answer; [K] is what holds once the vote is counted. *)
Lemma triple_vote_increment (J K : client → Prop)
    (Q : res reply → client → Prop) tid vote :
  (∀ c r n, J c → dict_get tid (vote_counts c) = Some (VDict r) →
     py_add (default (VInt 0) (dict_get (KStr vote) r)) 1 = Ok n →
     K (Client (dict_set tid (VDict (dict_set (KStr vote) (VInt n) r))
                         (vote_counts c))
               (data_dir c))) →
  (∀ e s, J s → Q (Raise e) s) →
  (∀ s, K s →
        Q (Ok (Recorded vote))
          (Client (vote_counts s)
                  (run_steps (save_vote_counts_steps s) (data_dir s)))) →
  triple J
    (vd ← vote_data tid;
     old ← lift (py_get vd (KStr vote) (VInt 0));
     n ← lift (py_add old 1);
     _ ← vote_data_setitem tid (KStr vote) (VInt n);
     _ ← save_vote_counts;
     mret (Recorded vote)) Q.
Proof.
  intros Hinc Hraise Hsave.
  apply triple_bind_vote_data; [by auto|]. intros vd.
  apply triple_bind_lift; [intros e s [Hs _] _; by apply Hraise|].
  intros old Hold.
  apply triple_bind_lift; [intros e s [Hs _] _; by apply Hraise|].
  intros n Hn.
  apply (triple_bind _ (λ _, K)); [|intros _ s Hs; by apply Hsave].
  apply triple_vote_data_setitem; [intros e s [Hs _]; by apply Hraise|].
  intros c r [Hc Hvd] Hget. assert (vd = VDict r) as -> by congruence.
  simpl in Hold. injection Hold as <-. by apply Hinc.
Qed.

(** [_handle_vote] from its blocks, with what holds in each phase: [I]
    from the start, [J] once the user is registered, [K] once the vote is
    counted.  The call from [c] ends in [Q] when the item assignments lead
    from phase to phase and each of the four answers gives [Q]. *)
Lemma handle_vote_rule_phases (I J K : client → Prop)
    (Q : res reply → client → Prop) permitted tid user vote c :
  I c →
  (∀ c r users previous_vote k n,
     I c → dict_get tid (vote_counts c) = Some (VDict r) →
     py_get (VDict r) (KStr "users") (VDict []) = Ok users →
     py_get users (KStr user) VNone = Ok previous_vote →
     truthy previous_vote = true →
     as_key previous_vote = Ok k →
     py_sub (default (VInt 0) (dict_get k r)) 1 = Ok n →
     I (Client (dict_set tid (VDict (dict_set k (VInt (Z.max 0 n)) r))
                         (vote_counts c))
               (data_dir c))) →
  (∀ c r, I c → dict_get tid (vote_counts c) = Some (VDict r) →
     dict_mem (KStr "users") r = false →
     I (Client (dict_set tid (VDict (dict_set (KStr "users") (VDict []) r))
                         (vote_counts c))
               (data_dir c))) →
  (∀ c r u, I c → dict_get tid (vote_counts c) = Some (VDict r) →
     dict_get (KStr "users") r = Some (VDict u) →
     J (Client (dict_set tid
                  (VDict (dict_set (KStr "users")
                            (VDict (dict_set (KStr user) (VStr vote) u)) r))
                  (vote_counts c))
               (data_dir c))) →
  (∀ c r n, J c → dict_get tid (vote_counts c) = Some (VDict r) →
     py_add (default (VInt 0) (dict_get (KStr vote) r)) 1 = Ok n →
     K (Client (dict_set tid (VDict (dict_set (KStr vote) (VInt n) r))
                         (vote_counts c))
               (data_dir c))) →
  (permitted = false → Q (Ok NoPermission) c) →
  (permitted = true → dict_mem tid (vote_counts c) = false →
   Q (Ok ThreadInactive) c) →
  (permitted = true → dict_mem tid (vote_counts c) = true →
   ∀ s, I s ∨ J s → Q (Ok ProcessingError) s) →
  (permitted = true → dict_mem tid (vote_counts c) = true →
   ∀ s, K s →
        Q (Ok (Recorded vote))
          (Client (vote_counts s)
                  (run_steps (save_vote_counts_steps s) (data_dir s)))) →
  Q (_handle_vote permitted tid user vote c).1
    (_handle_vote permitted tid user vote c).2.
Proof.
  intros Hc Hdec Hinit Hset Hinc Hno Hinactive Herror Hsave.
  destruct permitted; [|by apply Hno].
  destruct (decide (dict_mem tid (vote_counts c) = true))
    as [Hmem|Hmem%not_true_is_false].
  - clear Hno Hinactive.
    specialize (Herror eq_refl Hmem). specialize (Hsave eq_refl Hmem).
    assert (triple (λ s, s = c) (_handle_vote true tid user vote) Q) as H;
      [|by apply (H c)].
    unfold _handle_vote. simpl negb. cbv iota.
    apply (triple_try_except _ (λ _ s, I s ∨ J s));
      [|by intros e s Hs; apply Herror].
    apply (triple_bind _ (λ counts s, I s ∧ counts = vote_counts c)).
    { by intros s ->. }
    intros counts s [Hs ->]. revert s Hs. rewrite Hmem. simpl negb. cbv iota.
    apply (triple_vote_decrement I
             (λ r s, match r with
                     | Ok a => Q (Ok a) s
                     | Raise e => I s ∨ J s
                     end));
      [done|by auto|].
    apply (triple_vote_users I J); [done|done|by auto|].
    apply (triple_vote_increment J K); [done|by auto|done].
  - unfold _handle_vote, try_except, mbind, stx_bind, gets. simpl.
    rewrite Hmem. simpl. by apply Hinactive.
Qed.

(** The rule for one invariant of all phases. *)
Lemma handle_vote_rule (I : client → Prop) (Q : res reply → client → Prop)
    permitted tid user vote c :
  I c →
  (∀ c r users previous_vote k n,
     I c → dict_get tid (vote_counts c) = Some (VDict r) →
     py_get (VDict r) (KStr "users") (VDict []) = Ok users →
     py_get users (KStr user) VNone = Ok previous_vote →
     truthy previous_vote = true →
     as_key previous_vote = Ok k →
     py_sub (default (VInt 0) (dict_get k r)) 1 = Ok n →
     I (Client (dict_set tid (VDict (dict_set k (VInt (Z.max 0 n)) r))
                         (vote_counts c))
               (data_dir c))) →
  (∀ c r, I c → dict_get tid (vote_counts c) = Some (VDict r) →
     dict_mem (KStr "users") r = false →
     I (Client (dict_set tid (VDict (dict_set (KStr "users") (VDict []) r))
                         (vote_counts c))
               (data_dir c))) →
  (∀ c r u, I c → dict_get tid (vote_counts c) = Some (VDict r) →
     dict_get (KStr "users") r = Some (VDict u) →
     I (Client (dict_set tid
                  (VDict (dict_set (KStr "users")
                            (VDict (dict_set (KStr user) (VStr vote) u)) r))
                  (vote_counts c))
               (data_dir c))) →
  (∀ c r n, I c → dict_get tid (vote_counts c) = Some (VDict r) →
     py_add (default (VInt 0) (dict_get (KStr vote) r)) 1 = Ok n →
     I (Client (dict_set tid (VDict (dict_set (KStr vote) (VInt n) r))
                         (vote_counts c))
               (data_dir c))) →
  (permitted = false → Q (Ok NoPermission) c) →
  (permitted = true → dict_mem tid (vote_counts c) = false →
   Q (Ok ThreadInactive) c) →
  (permitted = true → dict_mem tid (vote_counts c) = true →
   ∀ s, I s → Q (Ok ProcessingError) s) →
  (permitted = true → dict_mem tid (vote_counts c) = true →
   ∀ s, I s →
        Q (Ok (Recorded vote))
          (Client (vote_counts s)
                  (run_steps (save_vote_counts_steps s) (data_dir s)))) →
  Q (_handle_vote permitted tid user vote c).1
    (_handle_vote permitted tid user vote c).2.
Proof.
  intros Hc Hdec Hinit Hset Hinc Hno Hinactive Herror Hsave.
  apply (handle_vote_rule_phases I I I); try done.
  intros Hp Hmem s [Hs|Hs]; by apply Herror.
Qed.

(** *** What a click does for every state and every input *)

(** X1.  A click acts on the record of its own thread only: whatever the
    state, the input and the answer, [vote_counts] has the same thread ids
    in the same order afterwards, and the entry of every other thread is
    as it was. *)
Theorem handle_vote_other_threads
    (permitted : bool) (thread_id : key) (user_id vote_type : string)
    (c : client) :
  let c' := (_handle_vote permitted thread_id user_id vote_type c).2 in
  dict_keys (vote_counts c') = dict_keys (vote_counts c) ∧
  ∀ t, t ≠ thread_id →
       dict_get t (vote_counts c') = dict_get t (vote_counts c).
Proof.
  set (I := λ s : client,
         dict_keys (vote_counts s) = dict_keys (vote_counts c) ∧
         ∀ t, t ≠ thread_id →
              dict_get t (vote_counts s) = dict_get t (vote_counts c)).
  assert (∀ s r v, I s → dict_get thread_id (vote_counts s) = Some (VDict r) →
            I (Client (dict_set thread_id v (vote_counts s)) (data_dir s)))
    as Hstep.
  { intros s r v [Hkeys Hget] Hr. split; simpl.
    - by rewrite (dict_set_keys_Some _ _ _ _ Hr).
    - intros t Ht. rewrite dict_get_set_ne by done. by apply Hget. }
  apply (handle_vote_rule I (λ _ s, I s)); try done; try by eauto.
Qed.

(** The answers of a click and the file, when the check returns and the
    messages are delivered.  Without permission, or when the thread has no
    record, nothing changes at all.  The tally file is written only when the
    vote is recorded, and then with the tallies in memory after the click;
    when processing fails no file is written, whatever was changed in
    memory before the failure. *)
Lemma handle_vote_delivered_answers
    (permitted : bool) (thread_id : key) (user_id vote_type : string)
    (c : client) :
  let out := _handle_vote permitted thread_id user_id vote_type c in
  match out.1 with
  | Ok NoPermission => permitted = false ∧ out.2 = c
  | Ok ThreadInactive =>
      permitted = true ∧ dict_mem thread_id (vote_counts c) = false ∧
      out.2 = c
  | Ok ProcessingError =>
      permitted = true ∧ dict_mem thread_id (vote_counts c) = true ∧
      data_dir out.2 = data_dir c
  | Ok (Recorded v) =>
      v = vote_type ∧
      permitted = true ∧ dict_mem thread_id (vote_counts c) = true ∧
      data_dir out.2 =
        <[vote_counts_file := Text (JObject (dump_obj (vote_counts out.2)))]>
          (data_dir c)
  | Raise _ => False
  end.
Proof.
  set (I := λ s : client, data_dir s = data_dir c).
  apply (handle_vote_rule I
    (λ r s, match r with
            | Ok NoPermission => permitted = false ∧ s = c
            | Ok ThreadInactive =>
                permitted = true ∧
                dict_mem thread_id (vote_counts c) = false ∧ s = c
            | Ok ProcessingError =>
                permitted = true ∧
                dict_mem thread_id (vote_counts c) = true ∧
                data_dir s = data_dir c
            | Ok (Recorded v) =>
                v = vote_type ∧ permitted = true ∧
                dict_mem thread_id (vote_counts c) = true ∧
                data_dir s =
                  <[vote_counts_file := Text (JObject (dump_obj (vote_counts s)))]>
                    (data_dir c)
            | Raise _ => False
            end)); try done.
  intros Hp Hmem s Hs. repeat split; [done..|]. cbn [data_dir vote_counts].
  unfold save_vote_counts_steps. rewrite run_write_steps. by rewrite Hs.
Qed.

(** *** The handler with its interaction *)

(** With a check that returns and sends that go through, the handler is
    the one above. *)
Lemma handle_vote_delivered b t u v :
  ButtonHandler._handle_vote (delivered b) t u v = _handle_vote b t u v.
Proof. reflexivity. Qed.

(** The handler in terms of the one above: the same processing, then the
    send of the message, and the send of the error message when the check,
    the processing or that send has raised. *)
Lemma handle_vote_as_sent i t u v c :
  ButtonHandler._handle_vote i t u v c =
  match _check_voting_permissions i with
  | Raise _ => send_error i c
  | Ok b =>
      let out := _handle_vote b t u v c in
      match out.1 with
      | Ok ProcessingError | Raise _ => send_error i out.2
      | Ok r => match send_message i r with
                | Ok _ => (Ok r, out.2)
                | Raise _ => send_error i out.2
                end
      end
  end.
Proof.
  unfold ButtonHandler._handle_vote, _handle_vote, send_error, try_except.
  unfold mbind, mret, stx_bind, stx_ret, lift, gets.
  destruct (_check_voting_permissions i) as [[]|e]; cbn [negb fst snd].
  3:{ by destruct (send_message i ProcessingError) as [[]|]. }
  2:{ destruct (send_message i NoPermission) as [[]|]; [done|].
      by destruct (send_message i ProcessingError) as [[]|]. }
  destruct (dict_mem t (vote_counts c)); cbn [negb fst snd].
  2:{ destruct (send_message i ThreadInactive) as [[]|]; [done|].
      by destruct (send_message i ProcessingError) as [[]|]. }
  unfold vote_data, users_setitem, vote_data_setitem, vote_data,
    save_vote_counts, modify, raise.
  unfold mbind, mret, stx_bind, stx_ret, lift.
  repeat match goal with
         | |- context [match ?x with _ => _ end] =>
             lazymatch x with
             | context [match _ with _ => _ end] => fail
             | send_message _ _ => fail
             | _ => destruct x eqn:?; cbn [fst snd]; try reflexivity
             end
         end.
  all: repeat match goal with
         | |- context [send_message ?i ?r] =>
             destruct (send_message i r) as [[]|]; cbn [fst snd]
         end; reflexivity.
Qed.

(** X2.  The answers of a click and the file, with a permission check and
    sends that may raise.  The state the handler leaves is the one it
    leaves when every message is delivered (a check that raises counts as
    a refusal): the tally file is written exactly when the processing got
    as far as the save, and then with the tallies in memory after the
    click.  The user is told "no permission", "thread no longer active" or
    "recorded" only when that was the outcome and the message was sent; he
    is told "error" when the check, the processing or the send of the
    message raised, which for a failed send of "recorded" is after the vote
    has been saved.  An exception leaves the handler only when the send of
    the error message itself raises. *)
Theorem handle_vote_answers
    (i : interaction) (thread_id : key) (user_id vote_type : string)
    (c : client) :
  let out := ButtonHandler._handle_vote i thread_id user_id vote_type c in
  let plain := _handle_vote (permission i) thread_id user_id vote_type c in
  let saved :=
    <[vote_counts_file := Text (JObject (dump_obj (vote_counts out.2)))]>
      (data_dir c) in
  let failed :=
    (∃ e, _check_voting_permissions i = Raise e)
    ∨ (∃ r e, plain.1 = Ok r ∧ r ≠ ProcessingError ∧
              send_message i r = Raise e)
    ∨ plain.1 = Ok ProcessingError in
  ButtonHandler._handle_vote (delivered (permission i)) thread_id user_id
    vote_type c = plain ∧
  out.2 = plain.2 ∧
  (plain.1 = Ok (Recorded vote_type) → data_dir out.2 = saved) ∧
  (plain.1 ≠ Ok (Recorded vote_type) → data_dir out.2 = data_dir c) ∧
  match out.1 with
  | Ok NoPermission =>
      _check_voting_permissions i = Ok false ∧
      send_message i NoPermission = Ok () ∧ out.2 = c
  | Ok ThreadInactive =>
      _check_voting_permissions i = Ok true ∧
      dict_mem thread_id (vote_counts c) = false ∧
      send_message i ThreadInactive = Ok () ∧ out.2 = c
  | Ok (Recorded v) =>
      v = vote_type ∧
      _check_voting_permissions i = Ok true ∧
      dict_mem thread_id (vote_counts c) = true ∧
      send_message i (Recorded v) = Ok () ∧
      data_dir out.2 = saved
  | Ok ProcessingError => send_message i ProcessingError = Ok () ∧ failed
  | Raise e => send_message i ProcessingError = Raise e ∧ failed
  end.
Proof.
  cbv zeta. split; [reflexivity|].
  pose proof (handle_vote_delivered_answers (permission i) thread_id user_id
                vote_type c) as Hplain.
  cbv zeta in Hplain.
  rewrite handle_vote_as_sent. unfold permission in *.
  destruct (_check_voting_permissions i) as [b|e0] eqn:Hcheck.
  - cbv zeta.
    destruct (_handle_vote b thread_id user_id vote_type c) as [r c'].
    cbn [fst snd] in *.
    destruct r as [[| |w|]|e1]; [| | | |done].
    + destruct Hplain as [-> ->].
      destruct (send_message i NoPermission) as [[]|e1] eqn:Hsend;
        cbn [fst snd send_error].
      * split; [done|]. split; [done|]. split; [done|]. done.
      * split; [done|]. split; [done|]. split; [done|].
        destruct (send_message i ProcessingError) as [[]|e2];
          (split; [done|]); right; left; by eexists _, _.
    + destruct Hplain as (-> & Hmem & ->).
      destruct (send_message i ThreadInactive) as [[]|e1] eqn:Hsend;
        cbn [fst snd send_error].
      * split; [done|]. split; [done|]. split; [done|]. done.
      * split; [done|]. split; [done|]. split; [done|].
        destruct (send_message i ProcessingError) as [[]|e2];
          (split; [done|]); right; left; by eexists _, _.
    + destruct Hplain as (-> & -> & Hmem & Hfile).
      destruct (send_message i (Recorded vote_type)) as [[]|e1] eqn:Hsend;
        cbn [fst snd send_error].
      * split; [done|]. split; [done|]. split; [done|]. done.
      * split; [done|]. split; [done|]. split; [done|].
        destruct (send_message i ProcessingError) as [[]|e2];
          (split; [done|]); right; left; by eexists _, _.
    + destruct Hplain as (-> & Hmem & Hfile). cbn [fst snd send_error].
      split; [done|]. split; [done|]. split; [done|].
      destruct (send_message i ProcessingError) as [[]|e2];
        (split; [done|]); by right; right.
  - cbn [fst snd send_error].
    change (_handle_vote false thread_id user_id vote_type c)
      with (Ok NoPermission, c).
    cbn [fst snd].
    split; [done|]. split; [done|]. split; [done|].
    destruct (send_message i ProcessingError) as [[]|e2];
      (split; [done|]); left; by eexists.
Qed.

(** The send of "recorded" fails: the vote of user ["42"] is in memory and
    in the file, and the user is told that an error occurred; when that
    message cannot be sent either, the exception leaves the handler. *)
Example handle_vote_saved_then_error :
  let i := Interaction (Ok true)
             (λ r, match r with
                   | Recorded _ => Raise HTTPException
                   | _ => Ok ()
                   end) in
  let j := Interaction (Ok true) (λ _, Raise HTTPException) in
  let out := ButtonHandler._handle_vote i (KStr "100") "42" "aye"
               demo_client in
  out.1 = Ok ProcessingError ∧
  read_json vote_counts_file (data_dir out.2) = Ok (VDict (vote_counts out.2)) ∧
  (dict_item (KStr "100") (VDict (vote_counts out.2))
     ≫= dict_item (KStr "users"))
    = Some (VDict [(KStr "42", VStr "aye")]) ∧
  (ButtonHandler._handle_vote j (KStr "100") "42" "aye" demo_client).1
    = Raise HTTPException.
Proof. vm_compute. auto. Qed.

(** X3.  A count never becomes negative, also on a record whose counts
    do not agree with [users]: a field of the record of the thread that
    is not a negative [int] before a click is not one after it, whatever
    the answer. *)
Theorem handle_vote_count_not_negative
    (permitted : bool) (thread_id : key) (user_id vote_type : string)
    (c : client) (k : key) :
  (∀ r n, dict_get thread_id (vote_counts c) = Some (VDict r) →
          dict_get k r = Some (VInt n) → 0 ≤ n) →
  let c' := (_handle_vote permitted thread_id user_id vote_type c).2 in
  ∀ r n, dict_get thread_id (vote_counts c') = Some (VDict r) →
         dict_get k r = Some (VInt n) → 0 ≤ n.
Proof.
  intros Hc.
  set (I := λ s : client,
         ∀ r n, dict_get thread_id (vote_counts s) = Some (VDict r) →
                dict_get k r = Some (VInt n) → 0 ≤ n).
  assert (∀ s r k' v,
            I s → dict_get thread_id (vote_counts s) = Some (VDict r) →
            (∀ n, v = VInt n → k' = k → 0 ≤ n) →
            I (Client (dict_set thread_id (VDict (dict_set k' v r))
                                (vote_counts s)) (data_dir s))) as Hstep.
  { intros s r k' v Hs Hr Hv r' n. simpl. rewrite dict_get_set_eq.
    intros [= <-]. rewrite dict_get_set.
    destruct (decide (k' = k)) as [->|Hne].
    - intros [= ->]. by apply Hv.
    - by apply Hs. }
  apply (handle_vote_rule I (λ _ s, I s)); try done.
  - intros s r users previous_vote k' n Hs Hr _ _ _ _ _.
    apply Hstep; [done..|]. intros m [= <-] _. lia.
  - intros s r Hs Hr _. by apply Hstep.
  - intros s r u Hs Hr _. by apply Hstep.
  - intros s r n Hs Hr Hadd. apply Hstep; [done..|].
    intros m [= <-] Hk'. rewrite Hk' in Hadd.
    destruct (dict_get k r) as [[|z| | |]|] eqn:Hk; simplify_eq/=.
    + specialize (Hs _ _ Hr Hk). lia.
    + lia.
Qed.

(** On the drifted record: user ["42"], registered with aye at an aye
    count of 0, changes to nay; the aye count stays at 0. *)
Lemma handle_vote_count_not_negative_scenario :
  (∀ r n, dict_get (KStr "100") (vote_counts demo_drifted_client)
          = Some (VDict r) →
          dict_get (KStr "aye") r = Some (VInt n) → 0 ≤ n) ∧
  (∀ r n,
     dict_get (KStr "100")
       (vote_counts (_handle_vote true (KStr "100") "42" "nay"
                       demo_drifted_client).2) = Some (VDict r) →
     dict_get (KStr "aye") r = Some (VInt n) → 0 ≤ n).
Proof.
  assert (∀ r n, dict_get (KStr "100") (vote_counts demo_drifted_client)
                 = Some (VDict r) →
                 dict_get (KStr "aye") r = Some (VInt n) → 0 ≤ n) as Hpre.
  { intros r n [= <-] [= <-]. lia. }
  split; [exact Hpre|].
  apply (handle_vote_count_not_negative true (KStr "100") "42" "nay"
           demo_drifted_client (KStr "aye") Hpre).
Defined.

(** A field of the record that is not [users], not the count of the
    choice cast and not the count named by the previous vote of the user is
    as it was after a click. *)
Lemma handle_vote_field
    (permitted : bool) (thread_id : key) (user_id vote_type : string)
    (c : client) (r : dict) (k : key) :
  dict_get thread_id (vote_counts c) = Some (VDict r) →
  k ≠ KStr "users" →
  k ≠ KStr vote_type →
  (∀ u p, dict_get (KStr "users") r = Some (VDict u) →
          dict_get (KStr user_id) u = Some p → as_key p ≠ Ok k) →
  let c' := (_handle_vote permitted thread_id user_id vote_type c).2 in
  ∃ r', dict_get thread_id (vote_counts c') = Some (VDict r') ∧
        dict_get k r' = dict_get k r.
Proof.
  intros Hr Husers Hvote Hprev.
  set (I := λ s : client,
         ∃ r', dict_get thread_id (vote_counts s) = Some (VDict r') ∧
               dict_get k r' = dict_get k r ∧
               ∀ u p, dict_get (KStr "users") r' = Some (VDict u) →
                      dict_get (KStr user_id) u = Some p → as_key p ≠ Ok k).
  assert (I (_handle_vote permitted thread_id user_id vote_type c).2)
    as (r' & Hr' & Hk & _); [|by eauto].
  apply (handle_vote_rule I (λ _ s, I s)); try done.
  - by exists r.
  - intros s r0 users previous_vote k' n (r' & Hr' & Hk & Hp) Hr0
      Hu Hpv Htruthy Hkey _.
    assert (r' = r0) as -> by congruence.
    simpl in Hu. injection Hu as <-.
    destruct (dict_get (KStr "users") r0) as [[| | | |u]|] eqn:Hu0;
      simplify_eq/=.
    destruct (dict_get (KStr user_id) u) as [p|] eqn:Hpu; simplify_eq/=.
    assert (k' ≠ k) as Hne.
    { intros ->. by eapply Hp. }
    eexists. split; [simpl; apply dict_get_set_eq|]. split.
    + by rewrite dict_get_set_ne.
    + intros u' p'. rewrite dict_get_set.
      destruct (decide (k' = KStr "users")); [done|].
      rewrite Hu0. intros [= <-]. by apply Hp.
  - intros s r0 (r' & Hr' & Hk & Hp) Hr0 _.
    assert (r' = r0) as -> by congruence.
    eexists. split; [simpl; apply dict_get_set_eq|]. split.
    + by rewrite dict_get_set_ne.
    + intros u' p'. rewrite dict_get_set_eq. by intros [= <-].
  - intros s r0 u (r' & Hr' & Hk & Hp) Hr0 Hu.
    assert (r' = r0) as -> by congruence.
    eexists. split; [simpl; apply dict_get_set_eq|]. split.
    + by rewrite dict_get_set_ne.
    + intros u' p'. rewrite dict_get_set_eq. intros [= <-].
      rewrite dict_get_set_eq. intros [= <-]. simpl. congruence.
  - intros s r0 n (r' & Hr' & Hk & Hp) Hr0 _.
    assert (r' = r0) as -> by congruence.
    eexists. split; [simpl; apply dict_get_set_eq|]. split.
    + by rewrite dict_get_set_ne.
    + intros u' p'. rewrite dict_get_set.
      destruct (decide (KStr vote_type = KStr "users")); [done|]. by apply Hp.
  - intros _. by exists r.
  - intros _ _. by exists r.
Qed.

(** The entry of the thread stays a dictionary. *)
Lemma handle_vote_record
    (permitted : bool) (thread_id : key) (user_id vote_type : string)
    (c : client) (r : dict) :
  dict_get thread_id (vote_counts c) = Some (VDict r) →
  ∃ r', dict_get thread_id
          (vote_counts (_handle_vote permitted thread_id user_id vote_type c).2)
        = Some (VDict r').
Proof.
  intros Hr.
  set (I := λ s : client,
         ∃ r', dict_get thread_id (vote_counts s) = Some (VDict r')).
  apply (handle_vote_rule I (λ _ s, I s)); try done;
    try (by exists r);
    intros; eexists; simpl; apply dict_get_set_eq.
Qed.

(** X4.  A click touches three fields of the record at most: [users], the
    count of the choice cast and the count named by the previous vote of
    the user.  Every other field of the record ([index], [title], the
    other counts, ...) is as it was, whatever the answer, and the entry of
    the thread stays a dictionary. *)
Theorem handle_vote_other_fields
    (permitted : bool) (thread_id : key) (user_id vote_type : string)
    (c : client) (r : dict) :
  dict_get thread_id (vote_counts c) = Some (VDict r) →
  let c' := (_handle_vote permitted thread_id user_id vote_type c).2 in
  ∃ r', dict_get thread_id (vote_counts c') = Some (VDict r') ∧
        ∀ k, k ≠ KStr "users" → k ≠ KStr vote_type →
             (∀ u p, dict_get (KStr "users") r = Some (VDict u) →
                     dict_get (KStr user_id) u = Some p → as_key p ≠ Ok k) →
             dict_get k r' = dict_get k r.
Proof.
  intros Hr c'.
  destruct (handle_vote_record permitted thread_id user_id vote_type c r Hr)
    as [r' Hr'].
  exists r'. split; [done|]. intros k Hk1 Hk2 Hk3.
  destruct (handle_vote_field permitted thread_id user_id vote_type c r
              k Hr Hk1 Hk2 Hk3) as (r'' & Hr'' & Hk).
  congruence.
Qed.

(** On scenario 2: user ["42"] casts aye; [index] is still 1. *)
Lemma handle_vote_other_fields_scenario :
  ∃ r', dict_get (KStr "100")
          (vote_counts (_handle_vote true (KStr "100") "42" "aye"
                          demo_client).2) = Some (VDict r') ∧
        dict_get (KStr "index") r' = Some (VInt 1).
Proof.
  destruct (handle_vote_other_fields true (KStr "100") "42" "aye" demo_client
              demo_record eq_refl) as (r' & Hr' & Hk).
  exists r'. split; [exact Hr'|].
  apply (Hk (KStr "index")).
  - discriminate.
  - discriminate.
  - intros u p [= <-]. discriminate.
Defined.

(** Tallies that [json.dump] and [json.load] give back as they are, as far
    as a click of [user_id] in [thread_id] is concerned: JSON-like, and the
    vote registered for the user is not an [int]. *)
Lemma handle_vote_json_like
    (permitted : bool) (thread_id : key) (user_id vote_type : string)
    (c : client) :
  json_like (VDict (vote_counts c)) →
  (∀ r u z, dict_get thread_id (vote_counts c) = Some (VDict r) →
            dict_get (KStr "users") r = Some (VDict u) →
            dict_get (KStr user_id) u ≠ Some (VInt z)) →
  json_like
    (VDict (vote_counts (_handle_vote permitted thread_id user_id vote_type
                           c).2)).
Proof.
  intros Hjson Hprev.
  set (I := λ s : client,
         json_like (VDict (vote_counts s)) ∧
         ∀ r u z, dict_get thread_id (vote_counts s) = Some (VDict r) →
                  dict_get (KStr "users") r = Some (VDict u) →
                  dict_get (KStr user_id) u ≠ Some (VInt z)).
  assert (∀ s r k v,
            I s → dict_get thread_id (vote_counts s) = Some (VDict r) →
            is_str_key k → json_like v →
            (∀ u z, (if decide (k = KStr "users") then Some v
                     else dict_get (KStr "users") r) = Some (VDict u) →
                    dict_get (KStr user_id) u ≠ Some (VInt z)) →
            I (Client (dict_set thread_id (VDict (dict_set k v r))
                                (vote_counts s)) (data_dir s))) as Hstep.
  { intros s r k v [Hs Hp] Hr Hk Hv Hu.
    destruct (json_like_dict_get _ _ _ Hs Hr) as [Htid Hrec].
    split; simpl.
    - apply json_like_dict_set; [done| |done]. by apply json_like_dict_set.
    - intros r' u z. rewrite dict_get_set_eq. intros [= <-].
      rewrite dict_get_set. intros Hget. by eapply Hu. }
  apply (handle_vote_rule I (λ _ s, json_like (VDict (vote_counts s))));
    try done.
  - intros s r users previous_vote k n [Hs Hp] Hr Hu Hpv Htruthy Hkey _.
    simpl in Hu. injection Hu as <-.
    destruct (dict_get (KStr "users") r) as [[| | | |u]|] eqn:Hu0;
      simplify_eq/=.
    destruct (dict_get (KStr user_id) u) as [p|] eqn:Hpu; simplify_eq/=.
    destruct p as [|z|p| |]; simplify_eq/=; [by destruct (Hp _ _ z Hr Hu0)|].
    apply Hstep; [done..|]. intros u' z.
    destruct (decide (KStr p = KStr "users")); [done|].
    rewrite Hu0. intros [= <-]. by eapply Hp.
  - intros s r Hs Hr _. apply Hstep; [done|done|done| |].
    + apply json_like_dict. split; [apply NoDup_nil_2 | apply Forall_nil_2].
    + intros u z. rewrite decide_True by done. by intros [= <-].
  - intros s r u [Hs Hp] Hr Hu.
    destruct (json_like_dict_get _ _ _ Hs Hr) as [_ Hrec].
    destruct (json_like_dict_get _ _ _ Hrec Hu) as [_ Husers].
    apply Hstep; [done|done|done| |].
    + by apply json_like_dict_set.
    + intros u' z. rewrite decide_True by done. intros [= <-].
      by rewrite dict_get_set_eq.
  - intros s r n [Hs Hp] Hr _. apply Hstep; [done..|]. intros u z.
    destruct (decide (KStr vote_type = KStr "users")); [done|]. by apply Hp.
  - by intros _ _ s [Hs _].
  - by intros _ _ s [Hs _].
Qed.

(** The file after a recorded click. *)
Lemma handle_vote_recorded_file
    (permitted : bool) (thread_id : key) (user_id vote_type v : string)
    (c : client) :
  let out := _handle_vote permitted thread_id user_id vote_type c in
  out.1 = Ok (Recorded v) →
  data_dir out.2 =
    <[vote_counts_file := Text (JObject (dump_obj (vote_counts out.2)))]> (data_dir c).
Proof.
  apply (handle_vote_rule (λ s, data_dir s = data_dir c)
           (λ r s, r = Ok (Recorded v) →
                   data_dir s =
                     <[vote_counts_file := Text (JObject (dump_obj (vote_counts s)))]>
                       (data_dir c))); try done.
  intros _ _ s Hs _. cbn [data_dir vote_counts].
  unfold save_vote_counts_steps. rewrite run_write_steps. by rewrite Hs.
Qed.

(** The thread ids stay, in their order. *)
Lemma handle_vote_keys
    (permitted : bool) (thread_id : key) (user_id vote_type : string)
    (c : client) :
  dict_keys (vote_counts (_handle_vote permitted thread_id user_id vote_type
                            c).2)
  = dict_keys (vote_counts c).
Proof.
  apply (handle_vote_rule
           (λ s, dict_keys (vote_counts s) = dict_keys (vote_counts c))
           (λ _ s, dict_keys (vote_counts s) = dict_keys (vote_counts c)));
    try done;
    intros; simpl; by erewrite dict_set_keys_Some.
Qed.

(** X5.  A recorded vote is persisted: when the tallies in memory are
    JSON-like (as after [load_vote_counts]) and the vote registered for the
    user is not an [int], the file written by a recorded click loads back
    as the tallies in memory. *)
Theorem handle_vote_persisted
    (permitted : bool) (thread_id : key) (user_id vote_type : string)
    (c : client) :
  json_like (VDict (vote_counts c)) →
  (∀ r u z, dict_get thread_id (vote_counts c) = Some (VDict r) →
            dict_get (KStr "users") r = Some (VDict u) →
            dict_get (KStr user_id) u ≠ Some (VInt z)) →
  let out := _handle_vote permitted thread_id user_id vote_type c in
  out.1 = Ok (Recorded vote_type) →
  load_vote_counts (data_dir out.2) = Ok (VDict (vote_counts out.2)).
Proof.
  intros Hjson Hprev. cbv zeta. intros Hrun.
  pose proof (handle_vote_json_like permitted thread_id user_id vote_type c
                Hjson Hprev) as Hjson'.
  rewrite (handle_vote_recorded_file _ _ _ _ _ _ Hrun).
  unfold load_vote_counts.
  change (Text (JObject (dump_obj ?d))) with (Text (dumps (VDict d))).
  by rewrite read_json_written.
Qed.

(** On scenario 2: user ["42"] casts aye; the file read back is the state
    in memory. *)
Lemma handle_vote_persisted_scenario :
  load_vote_counts
    (data_dir (_handle_vote true (KStr "100") "42" "aye" demo_client).2)
  = Ok (VDict
          (vote_counts
             (_handle_vote true (KStr "100") "42" "aye" demo_client).2)).
Proof.
  apply (handle_vote_persisted true (KStr "100") "42" "aye" demo_client).
  - cbn. unfold dict_keys. cbn.
    repeat split; apply (bool_decide_unpack (NoDup _)); vm_compute; exact I.
  - intros r u z [= <-] [= <-]. discriminate.
  - reflexivity.
Defined.

(** X6.  The thread id of a handler has to be the [str] under which the
    record is stored.  On tallies whose thread ids are all [str]s (as
    [json.load] makes them, and as the bot stores them, under
    [str(thread.id)]), a handler made with the [int] id of the thread
    (as [ButtonHandler(client, new_proposal_thread.message.id)] is)
    answers every permitted click with "thread no longer active", and
    records nothing. *)
Theorem handle_vote_int_thread_id
    (permitted : bool) (thread_id : Z) (user_id vote_type : string)
    (c : client) :
  str_keys (vote_counts c) →
  _handle_vote permitted (KInt thread_id) user_id vote_type c =
    (Ok (if permitted then ThreadInactive else NoPermission), c).
Proof.
  intros Hkeys. destruct permitted; [|done].
  unfold _handle_vote, try_except, mbind, stx_bind, gets. simpl.
  assert (dict_mem (KInt thread_id) (vote_counts c) = false) as ->; [|done].
  unfold dict_mem. by rewrite (Hkeys thread_id).
Qed.

(** On scenario 2: the record is stored under ["100"], the handler is made
    with [100]. *)
Lemma handle_vote_int_thread_id_scenario :
  _handle_vote true (KInt 100) "42" "aye" demo_client =
    (Ok ThreadInactive, demo_client).
Proof.
  apply (handle_vote_int_thread_id true 100 "42" "aye" demo_client).
  intros z. reflexivity.
Defined.

(** *** New records *)

(** X7.  The record the bot makes for a new thread is ready for voting:
    the first click on it, by a handler made with the [str] id, is
    recorded; afterwards the record satisfies the tally invariant, [users]
    holds exactly the voter, the count of the choice is 1, and [index] is
    the id of the proposal. *)
Theorem new_record_first_vote
    (message_id : Z) (index : key) (title : option string)
    (governance_origin : list value) (epoch : Z)
    (user_id vote_type : string) (c : client) :
  vote_type ∈ choices →
  let thread_id := KStr (str_of_int message_id) in
  let c1 := (save_vote_data message_id index title governance_origin epoch
               c).2 in
  let out := _handle_vote true thread_id user_id vote_type c1 in
  out.1 = Ok (Recorded vote_type) ∧
  ∃ r, dict_get thread_id (vote_counts out.2) = Some (VDict r) ∧
       tally_inv (VDict r) ∧
       users_of r = Some [(KStr user_id, VStr vote_type)] ∧
       tally vote_type r = Some 1 ∧
       dict_get (KStr "index") r = Some (key_value index).
Proof.
  intros Hvote thread_id c1 out.
  set (r0 := [(KStr "index", key_value index);
              (KStr "title", VStr (new_record_title title index));
              (KStr "origin", VList governance_origin);
              (KStr "aye", VInt 0); (KStr "nay", VInt 0);
              (KStr "recuse", VInt 0); (KStr "users", VDict []);
              (KStr "epoch", VInt epoch)]).
  assert (dict_get thread_id (vote_counts c1) = Some (VDict r0)) as Hr0.
  { subst c1. unfold save_vote_data, save_vote_counts, mbind, stx_bind, modify.
    simpl. apply dict_get_set_eq. }
  assert (tally_inv (VDict r0)) as Hinv.
  { exists r0, [], 0, 0, 0. repeat split; reflexivity. }
  destruct (handle_vote_inv thread_id user_id vote_type c1 _ Hr0 Hinv Hvote)
    as (r & u & Hrun & Hr & Hinv' & Hu & Huser & Hu0).
  specialize (Hu0 r0 [] eq_refl eq_refl). subst u. simpl in Hu.
  split; [done|]. exists r. repeat split; try done.
  - destruct Hinv' as (r' & u' & a & n & rc & [= <-] & Hu' & Ha & Hn & Hrc
                       & -> & -> & -> & _).
    assert (u' = [(KStr user_id, VStr vote_type)]) as -> by congruence.
    in_choices Hvote; done.
  - destruct (handle_vote_field true thread_id user_id vote_type c1 r0
                (KStr "index") Hr0) as (r' & Hr' & Hk).
    + discriminate.
    + intros [= <-]. unfold choices in Hvote.
      repeat (apply elem_of_cons in Hvote as [Hvote|Hvote]; [discriminate|]).
      by apply elem_of_nil in Hvote.
    + intros u p [= <-]. discriminate.
    + rewrite Hr in Hr'. injection Hr' as <-. by rewrite Hk.
Qed.

(** For message 100, proposal ["1"] and a vote of user ["42"]. *)
Lemma new_record_first_vote_scenario :
  let c1 := (save_vote_data 100 (KStr "1") (Some "Fund") [VStr "Track treasury"]
               0 (Client [] ∅)).2 in
  let out := _handle_vote true (KStr (str_of_int 100)) "42" "nay" c1 in
  out.1 = Ok (Recorded "nay") ∧
  ∃ r, dict_get (KStr (str_of_int 100)) (vote_counts out.2) = Some (VDict r) ∧
       tally_inv (VDict r) ∧
       users_of r = Some [(KStr "42", VStr "nay")] ∧
       tally "nay" r = Some 1 ∧
       dict_get (KStr "index") r = Some (key_value (KStr "1")).
Proof.
  apply (new_record_first_vote 100 (KStr "1") (Some "Fund")
           [VStr "Track treasury"] 0 "42" "nay" (Client [] ∅)).
  unfold choices. set_solver.
Defined.

(** *** Archival and the tallies in memory *)

(** X8.  Archival works on the files only, so the tallies in memory keep
    the records it retires, and the next recorded click writes them back:
    whatever archival did to the tally file, after a recorded click every
    thread that was in memory before archival is in the tally file
    again. *)
Theorem archived_record_saved_again
    (active_proposals : dict) (clock : nat → string) (c : client)
    (thread_id : key) (user_id vote_type : string) (t : key) :
  json_like (VDict (vote_counts c)) →
  (∀ r u z, dict_get thread_id (vote_counts c) = Some (VDict r) →
            dict_get (KStr "users") r = Some (VDict u) →
            dict_get (KStr user_id) u ≠ Some (VInt z)) →
  t ∈ dict_keys (vote_counts c) →
  let c1 := (archive_old_proposals active_proposals clock c).2 in
  let out := _handle_vote true thread_id user_id vote_type c1 in
  vote_counts c1 = vote_counts c ∧
  (out.1 = Ok (Recorded vote_type) →
   ∃ tally, read_json vote_counts_file (data_dir out.2) = Ok (VDict tally) ∧
            t ∈ dict_keys tally).
Proof.
  intros Hjson Hprev Ht. cbv zeta. split; [done|]. intros Hrun.
  eexists. split.
  - rewrite (handle_vote_recorded_file _ _ _ _ _ _ Hrun).
    apply (read_json_written _ (VDict _)).
    by apply handle_vote_json_like.
  - by rewrite handle_vote_keys.
Qed.

(** On the example document with proposal 2 active: archival retires thread
    ["100"] and removes it from the tally file; user ["7"] then votes in
    thread ["200"], and ["100"] is in the tally file again. *)
Lemma archived_record_saved_again_scenario :
  let c1 := (archive_old_proposals [(KInt 2, VDict [])] (λ _, "t0")
               demo_loaded_client).2 in
  let out := _handle_vote true (KStr "200") "7" "aye" c1 in
  (archive_old_proposals [(KInt 2, VDict [])] (λ _, "t0")
     demo_loaded_client).1 = Ok [KStr "100"] ∧
  dict_keys <$> (read_json vote_counts_file (data_dir c1) ≫= py_items)
    = Ok [KStr "200"] ∧
  vote_counts c1 = vote_counts demo_loaded_client ∧
  (out.1 = Ok (Recorded "aye") →
   ∃ tally, read_json vote_counts_file (data_dir out.2) = Ok (VDict tally) ∧
            KStr "100" ∈ dict_keys tally).
Proof.
  split; [by vm_compute|]. split; [by vm_compute|].
  apply (archived_record_saved_again [(KInt 2, VDict [])] (λ _, "t0")
           demo_loaded_client (KStr "200") "7" "aye" (KStr "100")).
  - apply load_obj_json_like.
  - intros r u z. vm_compute. intros [= <-] [= <-]. discriminate.
  - vm_compute. set_solver.
Defined.

(** *** Running the reconciliation again *)

(** Whether the loop raises does not depend on the time or on what has been
    collected: it raises when a record is not a dictionary, or when a record
    is retired and the archive is no dictionary. *)
Lemma archive_loop_raises_dict active clock clock' items :
  ∀ (arch arch' : dict) th th' e,
    archive_loop active clock (VDict arch, th) items = Raise e →
    ∃ e', archive_loop active clock' (VDict arch', th') items = Raise e'.
Proof.
  induction items as [|[t v] items IH]; intros arch arch' th th' e.
  - done.
  - cbn [archive_loop]. destruct v as [| | | |r];
      try (rewrite !archive_one_not_dict by done; eauto).
    rewrite !archive_one_dict. cbn [mbind res_bind].
    destruct (retired active r); apply IH.
Qed.

Lemma archive_loop_raises_no_dict active clock clock' items (arch : value) :
  (∀ d, arch ≠ VDict d) →
  (∀ kv, kv ∈ items → is_str_key kv.1) →
  ∀ th th' e,
    archive_loop active clock (arch, th) items = Raise e →
    ∃ e', archive_loop active clock' (arch, th') items = Raise e'.
Proof.
  intros Hnd Hkeys.
  induction items as [|[t v] items IH]; intros th th' e; [done|].
  assert (∀ kv, kv ∈ items → is_str_key kv.1) as Hkeys'.
  { intros kv Hin. apply Hkeys, elem_of_cons. by right. }
  cbn [archive_loop]. destruct v as [| | | |r];
    try (rewrite !archive_one_not_dict by done; eauto).
  rewrite !archive_one_value.
  pose proof (Hkeys (t, VDict r) ltac:(apply elem_of_cons; by left)) as Ht.
  cbn [fst] in Ht. destruct t as [z|s]; [done|].
  destruct (retired active r).
  - assert (∀ x, py_setitem arch (KStr s) x = Raise TypeError) as Hset.
    { intros x. destruct arch as [| | | |d]; try done. by destruct (Hnd d). }
    rewrite !Hset. cbn [mbind res_bind]. eauto.
  - cbn [mbind res_bind]. by apply IH.
Qed.

Lemma archive_loop_raises active clock clock' items :
  ∀ (arch : value) th th' e,
    (∀ kv, kv ∈ items → is_str_key kv.1) →
    archive_loop active clock (arch, th) items = Raise e →
    ∃ e', archive_loop active clock' (arch, th') items = Raise e'.
Proof.
  intros arch th th' e Hkeys.
  destruct arch as [| | | |d];
    try (by apply archive_loop_raises_no_dict).
  apply archive_loop_raises_dict.
Qed.

(** Records that the test does not retire leave the state as it is. *)
Lemma archive_loop_none_retired active clock st items :
  Forall (λ kv, ∃ r, kv.2 = VDict r ∧ retired active r = false) items →
  archive_loop active clock st items = Ok st.
Proof.
  revert st. induction items as [|[t v] items IH]; intros [arch th] Hall; [done|].
  apply Forall_cons in Hall as [(r & Hv & Hret) Hall]. simpl in Hv. subst v.
  cbn [archive_loop]. rewrite archive_one_value, Hret. cbn [mbind res_bind].
  by apply IH.
Qed.

Lemma archive_loop_dicts active clock st items st' :
  archive_loop active clock st items = Ok st' →
  Forall (λ kv, ∃ r, kv.2 = VDict r) items.
Proof.
  revert st. induction items as [|[t v] items IH]; intros [arch th]; [done|].
  cbn [archive_loop]. destruct v as [| | | |r];
    try (rewrite archive_one_not_dict by done; done).
  destruct (archive_one active clock (arch, th) (t, VDict r)) as [st1|e];
    cbn [mbind res_bind]; [|done].
  intros Hloop.
  apply Forall_cons. split; [by eexists|]. by eapply IH.
Qed.

(** The archive the loop leaves can be written and read back. *)
Lemma archive_loop_json_like active clock items arch th a' th' :
  json_like arch →
  Forall (λ kv, is_str_key kv.1 ∧ json_like kv.2) items →
  archive_loop active clock (arch, th) items = Ok (a', th') →
  json_like a'.
Proof.
  intros Harch Hall Hloop.
  assert ((∀ d, arch ≠ VDict d) → a' = arch) as Hno.
  { intros Hd. eapply archive_loop_no_dict; [exact Hd| |exact Hloop].
    intros kv Hin. rewrite Forall_forall in Hall. by apply Hall. }
  destruct arch as [| | | |d]; try (rewrite Hno by done; done).
  destruct (archive_loop_spec _ _ _ _ _ _ _ Hloop)
    as (d' & -> & _ & _ & _ & Hjson).
  by apply Hjson.
Qed.

(** What a run does: it fails, or it retires the threads the loop has
    collected. *)
Lemma archive_plan_outcome p a active clock fs :
  (∃ e, archive_plan p active a clock fs = Raise e) ∨
  (∃ (tally : dict) (archive archive' : value) threads,
     read_json p fs = Ok (VDict tally) ∧ load_archive a fs = Ok archive ∧
     archive_loop active clock (archive, []) tally = Ok (archive', threads) ∧
     archive_plan p active a clock fs
       = Ok (VDict (remove_keys threads tally), archive', threads)).
Proof.
  unfold archive_plan.
  destruct (read_json p fs) as [tally|e]; cbn [mbind res_bind]; [|by eauto].
  destruct (load_archive a fs) as [archive|e]; cbn [mbind res_bind];
    [|by eauto].
  destruct tally as [| | | |tally]; cbn [py_items mbind res_bind];
    try by eauto.
  destruct (archive_loop active clock (archive, []) tally)
    as [[archive' threads]|e] eqn:Hloop; cbn [mbind res_bind]; [|by eauto].
  right. by exists tally, archive, archive', threads.
Qed.

Lemma archive_plan_raises p a active clock clock' fs e :
  archive_plan p active a clock fs = Raise e →
  ∃ e', archive_plan p active a clock' fs = Raise e'.
Proof.
  unfold archive_plan.
  destruct (read_json p fs) as [tally|e0] eqn:Hread; cbn [mbind res_bind];
    [|by eauto].
  destruct (load_archive a fs) as [archive|e0]; cbn [mbind res_bind];
    [|by eauto].
  pose proof (read_json_json_like _ _ _ Hread) as Hjl.
  destruct tally as [| | | |tally]; cbn [py_items mbind res_bind];
    try by eauto.
  apply json_like_dict in Hjl as [_ Hall].
  destruct (archive_loop active clock (archive, []) tally)
    as [[archive' threads]|e0] eqn:Hloop; cbn [mbind res_bind]; [done|].
  intros _.
  destruct (archive_loop_raises _ _ clock' _ _ _ [] _
              ltac:(intros kv Hin; rewrite Forall_forall in Hall;
                    by apply Hall) Hloop)
    as [e' ->]. by eauto.
Qed.

(** X9.  Reconciliation is idempotent on the files: run again with the same
    active set (at any later time) on the files it has left, it returns no
    thread and leaves both files as they are, whether the first run went
    through or failed, and whatever the two files held. *)
Theorem reconcile_twice
    (json_file_path archive_filename : string) (active_proposals : list key)
    (clock clock' : nat → string) (fs : disk) :
  json_file_path ≠ archive_filename →
  let out := delete_executed_keys_and_archive json_file_path
               active_proposals archive_filename clock fs in
  delete_executed_keys_and_archive json_file_path active_proposals
    archive_filename clock' out.2 = ([], out.2).
Proof.
  intros Hpaths. cbv zeta.
  destruct (archive_plan_outcome json_file_path archive_filename
              active_proposals clock fs)
    as [[e Hplan]|(tally & archive & archive' & threads & Htally & Harchive
                   & Hloop & Hplan)].
  { destruct (archive_plan_raises _ _ _ _ clock' _ _ Hplan) as [e' Hplan'].
    unfold delete_executed_keys_and_archive. rewrite Hplan. cbn [snd].
    by rewrite Hplan'. }
  assert (delete_executed_keys_and_archive json_file_path active_proposals
            archive_filename clock fs
          = (threads,
             <[archive_filename := Text (dumps archive')]>
               (<[json_file_path :=
                    Text (dumps (VDict (remove_keys threads tally)))]> fs)))
    as ->.
  { unfold delete_executed_keys_and_archive. rewrite Hplan.
    by rewrite run_archive_steps. }
  cbn [snd].
  pose proof (read_json_json_like _ _ _ Htally) as Hjl.
  pose proof Hjl as [Hnd Hall]%json_like_dict.
  pose proof (load_archive_json_like _ _ _ Harchive) as Hajl.
  pose proof (archive_loop_threads _ _ _ _ _ _ _ Hloop) as Hth.
  cbn [app] in Hth.
  pose proof (archive_loop_json_like _ _ _ _ _ _ _ Hajl Hall Hloop) as Hjson.
  pose proof (archive_loop_dicts _ _ _ _ _ Hloop) as Hdicts.
  set (tally' := remove_keys threads tally).
  set (fs' := <[archive_filename := Text (dumps archive')]>
                (<[json_file_path := Text (dumps (VDict tally'))]> fs)).
  assert (json_like (VDict tally')) as Hjl'.
  { eapply json_like_sublist; [apply remove_keys_sublist | done]. }
  assert (read_json json_file_path fs' = Ok (VDict tally')) as Hread.
  { unfold read_json, fs'. rewrite lookup_insert_ne by done.
    rewrite lookup_insert_eq. by rewrite loads_dumps. }
  assert (load_archive archive_filename fs' = Ok archive') as Hload.
  { unfold load_archive, fs'. rewrite lookup_insert_eq.
    by apply read_json_written. }
  assert (archive_loop active_proposals clock' (archive', []) tally'
          = Ok (archive', [])) as Hloop'.
  { apply archive_loop_none_retired. apply Forall_forall. intros [t v] Hin.
    assert ((t, v) ∈ tally) as Hin0.
    { eapply elem_of_sublist; [done | apply remove_keys_sublist]. }
    rewrite Forall_forall in Hdicts. destruct (Hdicts _ Hin0) as [r Hr].
    simpl in Hr. subst v. exists r. split; [done|].
    destruct (retired active_proposals r) eqn:Hret; [|done]. exfalso.
    assert (t ∈ threads) as Ht.
    { rewrite Hth. apply retired_threads; [done|]. exists r.
      split; [by apply dict_get_elem_nodup | done]. }
    assert (dict_get t tally' = Some (VDict r)) as Hget.
    { apply dict_get_elem_nodup; [by apply remove_keys_nodup | done]. }
    unfold tally' in Hget. rewrite dict_get_remove_keys in Hget by done.
    by rewrite decide_True in Hget. }
  fold tally' fs'.
  unfold delete_executed_keys_and_archive, archive_plan.
  rewrite Hread, Hload. cbn [mbind res_bind py_items]. rewrite Hloop'.
  cbn [mbind res_bind]. f_equal. rewrite run_archive_steps.
  change (remove_keys [] tally') with tally'.
  assert (<[json_file_path := Text (dumps (VDict tally'))]> fs' = fs') as ->.
  { apply insert_id. unfold fs'. rewrite lookup_insert_ne by done.
    by rewrite lookup_insert_eq. }
  apply insert_id. unfold fs'. by rewrite lookup_insert_eq.
Qed.

(** On scenario 3 of the specification, run twice. *)
Lemma reconcile_twice_scenario :
  let out := delete_executed_keys_and_archive "votes.json" [KInt 2]
               "archive.json" (λ _, "t0") demo_disk in
  delete_executed_keys_and_archive "votes.json" [KInt 2] "archive.json"
    (λ _, "t1") out.2 = ([], out.2).
Proof.
  apply (reconcile_twice "votes.json" "archive.json" [KInt 2]
           (λ _, "t0") (λ _, "t1") demo_disk).
  discriminate.
Defined.

(** ** Text for Discord *)

Lemma length_string_of_list_ascii l :
  String.length (string_of_list_ascii l) = length l.
Proof. induction l as [|a l IH]; simpl; [done|]. by rewrite IH. Qed.

Lemma length_list_ascii_of_string s :
  length (list_ascii_of_string s) = String.length s.
Proof. induction s as [|a s IH]; simpl; [done|]. by rewrite IH. Qed.

Lemma length_slice_to {A} (n : Z) (l : list A) :
  length (slice_to n l)
  = if 0 <=? n then Nat.min (Z.to_nat n) (length l)
    else (length l - Z.to_nat (- n))%nat.
Proof.
  unfold slice_to. destruct (0 <=? n); rewrite length_take; lia.
Qed.

(** The length of what [truncate_text] returns. *)
Lemma truncate_text_length text max_length suffix :
  Z.of_nat (String.length (truncate_text text max_length suffix)) =
  if Z.of_nat (String.length text) <=? max_length
  then Z.of_nat (String.length text)
  else if Z.of_nat (String.length suffix) <=? max_length
       then max_length
       else Z.max 0 (Z.of_nat (String.length text)
                     - (Z.of_nat (String.length suffix) - max_length))
            + Z.of_nat (String.length suffix).
Proof.
  unfold truncate_text.
  destruct (Z.of_nat (String.length text) <=? max_length) eqn:Hshort; [done|].
  apply Z.leb_gt in Hshort.
  rewrite string_length_app, length_string_of_list_ascii, length_slice_to,
    length_list_ascii_of_string.
  destruct (Z.of_nat (String.length suffix) <=? max_length) eqn:Hsuffix.
  - apply Z.leb_le in Hsuffix.
    rewrite (proj2 (Z.leb_le 0 (max_length - Z.of_nat (String.length suffix))))
      by lia.
    lia.
  - apply Z.leb_gt in Hsuffix.
    rewrite (proj2 (Z.leb_gt 0 (max_length - Z.of_nat (String.length suffix))))
      by lia.
    lia.
Qed.

(** X10.  [truncate_text] with a limit that has room for the suffix: the
    result is never longer than [max_length]; a text within the limit is
    returned as it is, and a longer one is cut to exactly [max_length]
    characters, the last of which are the suffix. *)
Theorem truncate_text_fits (text : string) (max_length : Z) (suffix : string) :
  Z.of_nat (String.length suffix) ≤ max_length →
  let out := truncate_text text max_length suffix in
  Z.of_nat (String.length out) ≤ max_length ∧
  (Z.of_nat (String.length text) ≤ max_length → out = text) ∧
  (max_length < Z.of_nat (String.length text) →
   Z.of_nat (String.length out) = max_length ∧ endswith out suffix = true).
Proof.
  intros Hsuffix out. pose proof (truncate_text_length text max_length suffix)
    as Hlen. fold out in Hlen.
  rewrite (proj2 (Z.leb_le _ _) Hsuffix) in Hlen.
  split; [|split].
  - destruct (Z.of_nat (String.length text) <=? max_length) eqn:Hshort; [|lia].
    apply Z.leb_le in Hshort. lia.
  - intros Hshort. unfold out, truncate_text.
    by rewrite (proj2 (Z.leb_le _ _) Hshort).
  - intros Hlong. rewrite (proj2 (Z.leb_gt _ _) Hlong) in Hlen.
    split; [done|]. unfold out, truncate_text.
    rewrite (proj2 (Z.leb_gt _ _) Hlong). apply endswith_app.
Qed.

Lemma truncate_text_fits_scenario :
  let out := truncate_text "Bridge Security Upgrade" 9 "..." in
  Z.of_nat (String.length out) ≤ 9 ∧
  (Z.of_nat (String.length "Bridge Security Upgrade") ≤ 9 →
   out = "Bridge Security Upgrade") ∧
  (9 < Z.of_nat (String.length "Bridge Security Upgrade") →
   Z.of_nat (String.length out) = 9 ∧ endswith out "..." = true).
Proof.
  apply (truncate_text_fits "Bridge Security Upgrade" 9 "...").
  simpl. lia.
Defined.

(** X11.  [truncate_text] keeps the limit exactly when the text is within
    it or the suffix is: with a limit shorter than the suffix (the slice
    bound is negative then and counts from the end) every text that is
    cut comes out longer than [max_length]. *)
Theorem truncate_text_within_limit
    (text : string) (max_length : Z) (suffix : string) :
  Z.of_nat (String.length (truncate_text text max_length suffix)) ≤ max_length
  ↔ Z.of_nat (String.length text) ≤ max_length
    ∨ Z.of_nat (String.length suffix) ≤ max_length.
Proof.
  rewrite truncate_text_length.
  destruct (Z.of_nat (String.length text) <=? max_length) eqn:Hshort.
  { apply Z.leb_le in Hshort. split; [by left | done]. }
  apply Z.leb_gt in Hshort.
  destruct (Z.of_nat (String.length suffix) <=? max_length) eqn:Hsuffix.
  { apply Z.leb_le in Hsuffix. split; [by right | lia]. }
  apply Z.leb_gt in Hsuffix. lia.
Qed.

(** ** New proposals of the network *)

Lemma collect_ok known items :
  ∀ acc,
    (∀ k v, (k, v) ∈ items → k ∉ known →
            ∃ e, HemiNetwork.new_proposal v = Ok e) →
    NoDup (dict_keys items) →
    (∀ k, k ∈ dict_keys items → dict_get k acc = None) →
    ∃ out,
      HemiNetwork.collect known acc items = Ok out ∧
      dict_keys out = dict_keys acc ++ filter (λ k, k ∉ known) (dict_keys items) ∧
      (∀ k, k ∉ dict_keys items → dict_get k out = dict_get k acc) ∧
      (∀ k v, (k, v) ∈ items → k ∉ known →
              ∃ e, HemiNetwork.new_proposal v = Ok e ∧ dict_get k out = Some e).
Proof.
  unfold dict_keys.
  induction items as [|[k0 v0] items IH]; intros acc Hgood Hnd Hfresh.
  - exists acc. simpl. rewrite app_nil_r. repeat split; try done.
    intros k v Hin. by apply elem_of_nil in Hin.
  - rewrite fmap_cons in Hnd, Hfresh. cbn [fst] in Hnd, Hfresh.
    apply NoDup_cons in Hnd as [Hk0 Hnd].
    cbn [HemiNetwork.collect]. rewrite fmap_cons, filter_cons. cbn [fst].
    destruct (decide (k0 ∉ known)) as [Hnew|Hknown].
    + rewrite bool_decide_eq_false_2 by done. cbn [negb].
      destruct (Hgood k0 v0) as [e0 He0]; [by left|done|].
      rewrite He0. cbn [mbind res_bind].
      destruct (IH (dict_set k0 e0 acc)) as (out & Hrun & Hkeys & Hother & Hnews).
      { intros k v Hin. apply Hgood. by right. }
      { done. }
      { intros k Hk. rewrite dict_get_set_ne; [apply Hfresh; by right|].
        intros ->. done. }
      exists out. split; [done|].
      assert (dict_set k0 e0 acc = acc ++ [(k0, e0)]) as Hset.
      { apply dict_set_fresh, Hfresh. by left. }
      split; [|split].
      * rewrite Hkeys, Hset, fmap_app. simpl. by rewrite <- app_assoc.
      * intros k [Hne Hk]%not_elem_of_cons. rewrite (Hother k Hk).
        by rewrite dict_get_set_ne.
      * intros k v [[= -> ->]|Hin]%elem_of_cons Hk.
        -- exists e0. split; [done|]. rewrite (Hother k0 Hk0).
           apply dict_get_set_eq.
        -- by apply Hnews.
    + apply dec_stable in Hknown.
      rewrite bool_decide_eq_true_2 by done. cbn [negb].
      destruct (IH acc) as (out & Hrun & Hkeys & Hother & Hnews).
      { intros k v Hin. apply Hgood. by right. }
      { done. }
      { intros k Hk. apply Hfresh. by right. }
      exists out. split; [done|]. split; [done|]. split.
      * intros k [Hne Hk]%not_elem_of_cons. by apply Hother.
      * intros k v [[= -> ->]|Hin]%elem_of_cons Hk; [done|]. by apply Hnews.
Qed.

Lemma collect_raise known items :
  ∀ acc k v e,
    (k, v) ∈ items → k ∉ known → HemiNetwork.new_proposal v = Raise e →
    ∃ e', HemiNetwork.collect known acc items = Raise e'.
Proof.
  induction items as [|[k0 v0] items IH]; intros acc k v e Hin Hk Hv.
  - by apply elem_of_nil in Hin.
  - cbn [HemiNetwork.collect].
    apply elem_of_cons in Hin as [[= <- <-]|Hin].
    + rewrite bool_decide_eq_false_2 by done. cbn [negb]. rewrite Hv. by eauto.
    + destruct (negb (bool_decide (k0 ∈ known))); [|by eapply IH].
      destruct (HemiNetwork.new_proposal v0) as [e0|e0]; cbn [mbind res_bind];
        [by eapply IH | by eauto].
Qed.

(** X12.  [HemiNetwork.monitor_new_proposals] when every proposal that is
    not known has the six fields it reads: the result holds exactly the
    proposals that are not known, in the order of [all_proposals], each
    with its entry; so when no known id is the id of a proposal, every
    proposal is new. *)
Theorem hemi_new_proposals (all_proposals : dict) (known_proposals : list key) :
  NoDup (dict_keys all_proposals) →
  (∀ k v, (k, v) ∈ all_proposals → k ∉ known_proposals →
          ∃ e, HemiNetwork.new_proposal v = Ok e) →
  let out := HemiNetwork.monitor_new_proposals all_proposals known_proposals in
  dict_keys out = filter (λ k, k ∉ known_proposals) (dict_keys all_proposals) ∧
  (∀ k v, (k, v) ∈ all_proposals → k ∉ known_proposals →
          ∃ e, HemiNetwork.new_proposal v = Ok e ∧ dict_get k out = Some e) ∧
  ((∀ k, k ∈ dict_keys all_proposals → k ∉ known_proposals) →
   dict_keys out = dict_keys all_proposals).
Proof.
  intros Hnd Hgood out.
  destruct (collect_ok known_proposals all_proposals [] Hgood Hnd)
    as (out' & Hrun & Hkeys & _ & Hnews); [done|].
  assert (out = out') as ->.
  { unfold out, HemiNetwork.monitor_new_proposals. by rewrite Hrun. }
  split; [done|]. split; [done|].
  intros Hdisj. rewrite Hkeys. simpl. apply filter_all.
  by apply Forall_forall.
Qed.

Lemma hemi_new_proposals_scenario :
  let all_proposals :=
    [(KStr "1", VDict [(KStr "id", VInt 1); (KStr "title", VStr "Fund");
                       (KStr "description", VStr "Allocation");
                       (KStr "status", VStr "active");
                       (KStr "created_at", VStr "t0");
                       (KStr "proposer", VStr "0x74");
                       (KStr "track", VStr "treasury");
                       (KStr "onchain", VDict [])])] in
  let out := HemiNetwork.monitor_new_proposals all_proposals [KStr "100"] in
  dict_keys out = filter (λ k, k ∉ [KStr "100"]) (dict_keys all_proposals) ∧
  (∀ k v, (k, v) ∈ all_proposals → k ∉ [KStr "100"] →
          ∃ e, HemiNetwork.new_proposal v = Ok e ∧ dict_get k out = Some e) ∧
  ((∀ k, k ∈ dict_keys all_proposals → k ∉ [KStr "100"]) →
   dict_keys out = dict_keys all_proposals).
Proof.
  intros all_proposals.
  apply (hemi_new_proposals all_proposals [KStr "100"]).
  - apply (bool_decide_unpack (NoDup _)). vm_compute. exact I.
  - intros k v [[= -> ->]|Hin%elem_of_nil]%elem_of_cons _; [|done].
    eexists. reflexivity.
Defined.

(** X13.  [HemiNetwork.monitor_new_proposals] is all or nothing: one
    proposal that is not known and lacks a field it reads (or is no
    dictionary) makes the result empty, whatever the other proposals are;
    a known proposal is not looked at. *)
Theorem hemi_new_proposals_all_or_nothing
    (all_proposals : dict) (known_proposals : list key)
    (k : key) (v : value) (e : exn) :
  (k, v) ∈ all_proposals → k ∉ known_proposals →
  HemiNetwork.new_proposal v = Raise e →
  HemiNetwork.monitor_new_proposals all_proposals known_proposals = [].
Proof.
  intros Hin Hk Hv. unfold HemiNetwork.monitor_new_proposals.
  by destruct (collect_raise known_proposals all_proposals [] k v e Hin Hk Hv)
    as [e' ->].
Qed.

Lemma hemi_new_proposals_all_or_nothing_scenario :
  HemiNetwork.monitor_new_proposals
    [(KStr "1", VDict [(KStr "title", VStr "Fund");
                       (KStr "description", VStr "Allocation");
                       (KStr "onchain", VDict []);
                       (KStr "created_at", VStr "t0");
                       (KStr "proposer", VStr "0x74");
                       (KStr "track", VStr "treasury")]);
     (KStr "2", VDict [(KStr "title", VStr "Bridge")])]
    [] = [].
Proof.
  apply (hemi_new_proposals_all_or_nothing _ []
           (KStr "2") (VDict [(KStr "title", VStr "Bridge")]) KeyError).
  - set_solver.
  - set_solver.
  - reflexivity.
Defined.

Lemma dict_set_keys_elem {V} (k k0 : key) (v : V) (d : list (key * V)) :
  k ∈ dict_keys (dict_set k0 v d) ↔ k = k0 ∨ k ∈ dict_keys d.
Proof.
  unfold dict_keys. induction d as [|[k1 v1] d IH]; simpl.
  - rewrite list_elem_of_singleton. split; [by left|].
    intros [->|Hin]; [done|]. by apply elem_of_nil in Hin.
  - destruct (decide (k0 = k1)) as [->|Hne]; rewrite !fmap_cons; simpl;
      rewrite !elem_of_cons; [|rewrite IH]; tauto.
Qed.

(** X14.  A proposal stays new after its thread has been made.  The known
    ids handed to [HemiNetwork.monitor_new_proposals] are the thread ids of
    the tallies; as long as no thread id is the id of a proposal, the
    record made for a proposal does not make the proposal known: it is
    among the new referendums of the next check again. *)
Theorem proposal_new_again
    (all_proposals : dict) (c : client) (message_id : Z) (index : key)
    (title : option string) (governance_origin : list value) (epoch : Z) :
  NoDup (dict_keys all_proposals) →
  (∀ k v, (k, v) ∈ all_proposals → ∃ e, HemiNetwork.new_proposal v = Ok e) →
  (∀ k, k ∈ dict_keys all_proposals → k ∉ dict_keys (vote_counts c)) →
  KStr (str_of_int message_id) ∉ dict_keys all_proposals →
  index ∈ dict_keys (new_referendums all_proposals c) →
  let c1 := (save_vote_data message_id index title governance_origin epoch
               c).2 in
  index ∈ dict_keys (new_referendums all_proposals c1).
Proof.
  intros Hnd Hgood Hdisj Hid Hnew c1.
  assert (∀ c', (∀ k, k ∈ dict_keys all_proposals →
                      k ∉ dict_keys (vote_counts c')) →
                dict_keys (new_referendums all_proposals c')
                = dict_keys all_proposals) as Hall.
  { intros c' Hc'. unfold new_referendums.
    destruct (collect_ok (dict_keys (vote_counts c')) all_proposals [])
      as (out & Hrun & Hkeys & _); [by eauto|done|done|].
    unfold HemiNetwork.monitor_new_proposals. rewrite Hrun, Hkeys. simpl.
    apply filter_all. by apply Forall_forall. }
  rewrite Hall in Hnew by done. rewrite Hall; [done|].
  intros k Hk. unfold c1, save_vote_data, save_vote_counts, mbind, stx_bind,
    modify. simpl. rewrite dict_set_keys_elem. intros [->|Hin]; [done|].
  by apply (Hdisj k).
Qed.

Lemma proposal_new_again_scenario :
  let all_proposals :=
    [(KStr "1", VDict [(KStr "title", VStr "Fund");
                       (KStr "description", VStr "Allocation");
                       (KStr "onchain", VDict []);
                       (KStr "created_at", VStr "t0");
                       (KStr "proposer", VStr "0x74");
                       (KStr "track", VStr "treasury")])] in
  let c1 := (save_vote_data 100 (KStr "1") (Some "Fund") [] 0
               (Client [] ∅)).2 in
  KStr "1" ∈ dict_keys (new_referendums all_proposals c1).
Proof.
  intros all_proposals.
  apply (proposal_new_again all_proposals (Client [] ∅) 100 (KStr "1")
           (Some "Fund") [] 0).
  - apply (bool_decide_unpack (NoDup _)). vm_compute. exact I.
  - intros k v [[= -> ->]|Hin%elem_of_nil]%elem_of_cons; [|done].
    eexists. reflexivity.
  - intros k _ Hin. by apply elem_of_nil in Hin.
  - apply (bool_decide_unpack (_ ∉ _)). vm_compute. exact I.
  - apply (bool_decide_unpack (_ ∈ _)). vm_compute. exact I.
Defined.

(** ** The cache of the monitor: status and cleanup *)

Lemma load_cache_json_like fs cache :
  _load_cache fs = Ok cache → json_like cache.
Proof.
  unfold _load_cache, read_json.
  destruct (fs !! cache_file) as [[j|raw]|]; intros [= <-];
    first [apply loads_json_like
          | apply json_like_dict; split; [apply NoDup_nil_2 | done]].
Qed.

Lemma get_info_saved k cache fs :
  json_like (VDict cache) →
  get_proposal_info_key k (_save_cache (VDict cache) fs) = dict_get k cache.
Proof.
  intros Hjl. unfold get_proposal_info_key.
  by rewrite load_cache_save_cache, loads_dumps.
Qed.

(** X15.  The status of a proposal cannot be updated under its [int] id
    when the cache file holds a JSON object (or is malformed, or is not
    there): the cache read from the file has [str] keys only, so
    [update_proposal_status] with an [int] id (as the annotation asks for,
    and as [monitor_new_proposals] reports them) changes nothing, whatever
    the entries of the cache are. *)
Theorem update_proposal_status_int_id
    (proposal_id : Z) (status now : string) (fs : disk) :
  holds_object cache_file fs →
  update_proposal_status (KInt proposal_id) status now fs = fs.
Proof.
  intros Hfs. unfold update_proposal_status.
  destruct (load_cache_str_keys fs Hfs) as (d & -> & Hd).
  cbn [mbind res_bind py_contains].
  unfold dict_mem. by rewrite (Hd proposal_id).
Qed.

(** On the cache file [monitor_new_proposals] leaves for proposal 1. *)
Lemma update_proposal_status_int_id_scenario :
  let fs : disk :=
    {[ cache_file :=
         Text (JObject
                 [("1", JObject [("id", JNum 1);
                                 ("status", JString "new")])]) ]} in
  holds_object cache_file fs ∧
  update_proposal_status (KInt 1) "completed" "t1" fs = fs.
Proof.
  cbv zeta. split; [vm_compute; exact I|].
  apply (update_proposal_status_int_id 1 "completed" "t1").
  vm_compute. exact I.
Defined.

(** A cache file that holds an array is another matter: with [[1, {}]]
    the id [1] is an element of the list, [cached_proposals[1]] is the
    dictionary at index 1, and the file is rewritten. *)
Example update_proposal_status_array_cache :
  let fs : disk :=
    {[ cache_file := Text (JArray [JNum 1; JObject []]) ]} in
  update_proposal_status (KInt 1) "completed" "t1" fs
  = {[ cache_file :=
         Text (JArray [JNum 1;
                       JObject [("status", JString "completed");
                                ("updated_at", JString "t1")]]) ]}.
Proof.
  vm_compute. reflexivity.
Qed.

(** X16.  [update_proposal_status] under the key the cache has: the entry
    gets the status and [updated_at], its other fields and the other
    entries stay, and no other file is touched. *)
Theorem update_proposal_status_entry
    (proposal_id : key) (status now : string) (fs : disk) (entry : dict) :
  get_proposal_info_key proposal_id fs = Some (VDict entry) →
  let fs' := update_proposal_status proposal_id status now fs in
  (∃ entry',
     get_proposal_info_key proposal_id fs' = Some (VDict entry') ∧
     dict_get (KStr "status") entry' = Some (VStr status) ∧
     dict_get (KStr "updated_at") entry' = Some (VStr now) ∧
     ∀ k, k ≠ KStr "status" → k ≠ KStr "updated_at" →
          dict_get k entry' = dict_get k entry) ∧
  (∀ k, k ≠ proposal_id →
        get_proposal_info_key k fs' = get_proposal_info_key k fs) ∧
  (∀ path, path ≠ cache_file → fs' !! path = fs !! path).
Proof.
  intros Hget. unfold get_proposal_info_key in Hget.
  destruct (_load_cache fs) as [[| | | |cache]|e] eqn:Hload; try done.
  pose proof (load_cache_json_like _ _ Hload) as Hjl.
  destruct (json_like_dict_get _ _ _ Hjl Hget) as [Hkey Hentry].
  set (entry' := dict_set (KStr "updated_at") (VStr now)
                   (dict_set (KStr "status") (VStr status) entry)).
  assert (update_proposal_status proposal_id status now fs
          = _save_cache (VDict (dict_set proposal_id (VDict entry') cache)) fs)
    as ->.
  { unfold update_proposal_status. rewrite Hload.
    cbn [mbind res_bind py_contains].
    unfold dict_mem. rewrite Hget. cbn [py_getitem]. by rewrite Hget. }
  assert (json_like (VDict (dict_set proposal_id (VDict entry') cache)))
    as Hjl'.
  { apply json_like_dict_set; [done| |done].
    apply json_like_dict_set; [done|done|].
    by apply json_like_dict_set. }
  cbv zeta. unfold get_proposal_info_key.
  rewrite load_cache_save_cache, loads_dumps, Hload by done.
  split; [|split].
  - exists entry'. split; [apply dict_get_set_eq|]. split; [|split].
    + unfold entry'. rewrite dict_get_set_ne by done. apply dict_get_set_eq.
    + apply dict_get_set_eq.
    + intros k Hk1 Hk2. unfold entry'. by rewrite !dict_get_set_ne.
  - intros k Hk. by rewrite dict_get_set_ne.
  - intros path Hpath. unfold _save_cache, _save_cache_steps.
    rewrite run_write_steps. by rewrite lookup_insert_ne.
Qed.

Lemma update_proposal_status_entry_scenario :
  let fs : disk :=
    {[ cache_file :=
         Text (JObject
                 [("1", JObject [("id", JNum 1);
                                 ("status", JString "new")])]) ]} in
  let fs' := update_proposal_status (KStr "1") "completed" "t1" fs in
  (∃ entry',
     get_proposal_info_key (KStr "1") fs' = Some (VDict entry') ∧
     dict_get (KStr "status") entry' = Some (VStr "completed") ∧
     dict_get (KStr "updated_at") entry' = Some (VStr "t1") ∧
     ∀ k, k ≠ KStr "status" → k ≠ KStr "updated_at" →
          dict_get k entry'
          = dict_get k [(KStr "id", VInt 1); (KStr "status", VStr "new")]) ∧
  (∀ k, k ≠ KStr "1" →
        get_proposal_info_key k fs' = get_proposal_info_key k fs) ∧
  (∀ path, path ≠ cache_file → fs' !! path = fs !! path).
Proof.
  intros fs.
  apply (update_proposal_status_entry (KStr "1") "completed" "t1" fs
           [(KStr "id", VInt 1); (KStr "status", VStr "new")]).
  reflexivity.
Defined.

(** *** Cleanup *)

Section cleanup.
Context (age_days : string → res Z) (days : Z).

(** What the test asks of an entry it removes. *)
Lemma is_removable_true v :
  is_removable age_days days v = true →
  ∃ d s age,
    v = VDict d ∧ dict_get (KStr "discovered_at") d = Some (VStr s) ∧
    age_days s = Ok age ∧ days < age ∧
    (dict_get (KStr "status") d = Some (VStr "completed") ∨
     dict_get (KStr "status") d = Some (VStr "expired")).
Proof.
  unfold is_removable, removable.
  destruct v as [|z|t|l|d]; try done.
  - simpl. by destruct (bool_decide _).
  - simpl. by destruct (existsb _ l).
  - cbn [py_str_in mbind res_bind]. unfold dict_mem. cbn [py_getitem].
    destruct (dict_get (KStr "discovered_at") d) as [[| |s| |]|] eqn:Hdate;
      try done.
    cbn [mbind res_bind].
    destruct (age_days s) as [age|e] eqn:Hage; [|done]. cbn [mbind res_bind].
    destruct (days <? age) eqn:Hold; [|done]. apply Z.ltb_lt in Hold.
    cbn [py_get mbind res_bind]. intros Hstatus.
    exists d, s, age. repeat split; try done.
    destruct (dict_get (KStr "status") d) as [[| |st| |]|]; try done.
    simpl in Hstatus. apply orb_true_iff in Hstatus as [H|H];
      apply String.eqb_eq in H; subst; auto.
Qed.

Lemma removable_ids_spec items :
  ∀ acc rm,
    removable_ids age_days days acc items = Ok rm →
    rm = acc ++ (filter (λ kv, is_removable age_days days kv.2 = true) items).*1.
Proof.
  induction items as [|[k v] items IH]; intros acc rm.
  - simpl. intros [= <-]. by rewrite app_nil_r.
  - cbn [removable_ids]. rewrite filter_cons. cbn [snd].
    destruct (removable age_days days v) as [b|e] eqn:Hv; [|done].
    cbn [mbind res_bind]. intros Hrun%IH. rewrite Hrun.
    assert (is_removable age_days days v = b) as Hb.
    { unfold is_removable. by rewrite Hv. }
    destruct b.
    + rewrite decide_True by done. rewrite fmap_cons. simpl.
      by rewrite <- app_assoc.
    + rewrite decide_False; [done|]. by rewrite Hb.
Qed.

Lemma removable_ids_raise items :
  ∀ acc k v e,
    (k, v) ∈ items → removable age_days days v = Raise e →
    ∃ e', removable_ids age_days days acc items = Raise e'.
Proof.
  induction items as [|[k0 v0] items IH]; intros acc k v e Hin Hv.
  - by apply elem_of_nil in Hin.
  - cbn [removable_ids]. apply elem_of_cons in Hin as [[= <- <-]|Hin].
    + rewrite Hv. by eauto.
    + destruct (removable age_days days v0) as [b|e0]; cbn [mbind res_bind];
        [by eapply IH | by eauto].
Qed.

Lemma removable_ids_total items :
  (∀ k v, (k, v) ∈ items → ∃ b, removable age_days days v = Ok b) →
  ∀ acc, ∃ rm, removable_ids age_days days acc items = Ok rm.
Proof.
  induction items as [|[k0 v0] items IH]; intros Hall acc.
  - by eexists.
  - cbn [removable_ids]. destruct (Hall k0 v0) as [b ->]; [by left|].
    cbn [mbind res_bind]. apply IH. intros k v Hin. apply (Hall k v). by right.
Qed.

Lemma del_keys_ok ks :
  ∀ d, NoDup (dict_keys d) → NoDup ks →
       (∀ k, k ∈ ks → k ∈ dict_keys d) →
       del_keys ks d = Ok (remove_keys ks d).
Proof.
  induction ks as [|k ks IH]; intros d Hnd Hks Hin; [done|].
  apply NoDup_cons in Hks as [Hk Hks].
  cbn [del_keys]. unfold dict_del, dict_mem.
  destruct (dict_get k d) as [v|] eqn:Hget.
  - cbn [mbind res_bind]. unfold remove_keys. cbn [fold_left].
    apply IH; [by apply dict_pop_nodup | done |].
    intros k' Hk'.
    destruct (decide (k' ∈ dict_keys (dict_pop k d))) as [|Hn]; [done|].
    exfalso. apply dict_get_None_keys in Hn.
    rewrite dict_get_pop in Hn by done.
    rewrite decide_False in Hn by (by intros ->).
    apply dict_get_None_keys in Hn. apply Hn, Hin. by right.
  - exfalso. apply dict_get_None_keys in Hget. apply Hget, Hin. by left.
Qed.

End cleanup.

(** What the cleanup does to the disk: nothing, or one save of the cache
    without the entries the test has chosen. *)
Lemma cleanup_outcome age_days days fs (cache : dict) :
  _load_cache fs = Ok (VDict cache) →
  cleanup_old_proposals age_days days fs =
  match removable_ids age_days days [] cache with
  | Ok (k :: ks) => _save_cache (VDict (remove_keys (k :: ks) cache)) fs
  | _ => fs
  end.
Proof.
  intros Hload. unfold cleanup_old_proposals. rewrite Hload.
  cbn [mbind res_bind py_items].
  destruct (removable_ids age_days days [] cache) as [rm|e] eqn:Hrm; [|done].
  cbn [mbind res_bind].
  pose proof (load_cache_json_like _ _ Hload) as [Hnd _]%json_like_dict.
  pose proof (removable_ids_spec _ _ _ _ _ Hrm) as Hspec. simpl in Hspec.
  rewrite del_keys_ok; [by destruct rm|done| |].
  - rewrite Hspec. unfold dict_keys in Hnd.
    eapply sublist_NoDup; [exact Hnd|]. apply sublist_fmap_fst, sublist_filter.
  - intros k Hk. rewrite Hspec in Hk.
    apply list_elem_of_fmap in Hk as (kv & -> & [_ Hin]%list_elem_of_filter).
    by apply list_elem_of_fmap_2.
Qed.

(** X17.  The cleanup removes nothing but old, finished proposals: an
    entry of the cache whose status is neither completed nor expired, or
    whose age is not above [days], is in the cache after
    [cleanup_old_proposals] as it was before. *)
Theorem cleanup_keeps_entry
    (age_days : string → res Z) (days : Z) (fs : disk)
    (proposal_id : key) (proposal_info : value) :
  get_proposal_info_key proposal_id fs = Some proposal_info →
  (∀ d, proposal_info = VDict d →
        dict_get (KStr "status") d ≠ Some (VStr "completed") ∧
        dict_get (KStr "status") d ≠ Some (VStr "expired"))
  ∨ (∀ d s age, proposal_info = VDict d →
                dict_get (KStr "discovered_at") d = Some (VStr s) →
                age_days s = Ok age → age ≤ days) →
  get_proposal_info_key proposal_id (cleanup_old_proposals age_days days fs)
  = Some proposal_info.
Proof.
  intros Hget Hkeep. unfold get_proposal_info_key in Hget.
  destruct (_load_cache fs) as [[| | | |cache]|e] eqn:Hload; try done.
  assert (is_removable age_days days proposal_info = false) as Hno.
  { destruct (is_removable age_days days proposal_info) eqn:Hr; [|done].
    apply is_removable_true in Hr
      as (d & s & age & -> & Hdate & Hage & Hold & Hstatus).
    destruct Hkeep as [Hkeep|Hkeep].
    - destruct (Hkeep d eq_refl) as [H1 H2]. by destruct Hstatus.
    - specialize (Hkeep d s age eq_refl Hdate Hage). lia. }
  rewrite (cleanup_outcome _ _ _ _ Hload).
  destruct (removable_ids age_days days [] cache) as [[|k ks]|e] eqn:Hrm;
    try (unfold get_proposal_info_key; by rewrite Hload).
  pose proof (load_cache_json_like _ _ Hload) as Hjl.
  pose proof Hjl as [Hnd _]%json_like_dict.
  rewrite get_info_saved
    by (eapply json_like_sublist; [apply remove_keys_sublist | done]).
  rewrite dict_get_remove_keys by done.
  rewrite decide_False; [done|].
  rewrite (removable_ids_spec _ _ _ _ _ Hrm). simpl.
  intros (kv & -> & [Hr Hin]%list_elem_of_filter)%list_elem_of_fmap.
  destruct kv as [k' v']. simpl in *.
  assert (v' = proposal_info) as ->.
  { apply (dict_get_elem_nodup _ _ _ Hnd) in Hin. congruence. }
  congruence.
Qed.

Lemma cleanup_keeps_entry_scenario :
  let fs : disk :=
    {[ cache_file :=
         Text (JObject
                 [("1", JObject [("discovered_at", JString demo_date);
                                 ("status", JString "new")])]) ]} in
  get_proposal_info_key (KStr "1")
    (cleanup_old_proposals demo_age_days 30 fs)
  = Some (VDict [(KStr "discovered_at", VStr demo_date);
                 (KStr "status", VStr "new")]).
Proof.
  intros fs.
  apply (cleanup_keeps_entry demo_age_days 30 fs (KStr "1")).
  - reflexivity.
  - left. intros d [= <-]. split; discriminate.
Defined.

(** X18.  When the test goes through on every entry of the cache, the
    cleanup removes each entry that is a dictionary with a [discovered_at]
    older than [days] and the status completed or expired. *)
Theorem cleanup_removes_entry
    (age_days : string → res Z) (days : Z) (fs : disk)
    (proposal_id : key) (d : dict) (s : string) (age : Z) :
  (∀ k v, get_proposal_info_key k fs = Some v →
          ∃ b, removable age_days days v = Ok b) →
  get_proposal_info_key proposal_id fs = Some (VDict d) →
  dict_get (KStr "discovered_at") d = Some (VStr s) →
  age_days s = Ok age → days < age →
  dict_get (KStr "status") d = Some (VStr "completed")
  ∨ dict_get (KStr "status") d = Some (VStr "expired") →
  get_proposal_info_key proposal_id (cleanup_old_proposals age_days days fs)
  = None.
Proof.
  intros Hall Hget Hdate Hage Hold Hstatus.
  unfold get_proposal_info_key in Hget, Hall.
  destruct (_load_cache fs) as [[| | | |cache]|e] eqn:Hload; try done.
  pose proof (load_cache_json_like _ _ Hload) as Hjl.
  pose proof Hjl as [Hnd _]%json_like_dict.
  assert (removable age_days days (VDict d) = Ok true) as Hr.
  { unfold removable. cbn [py_str_in mbind res_bind]. unfold dict_mem.
    rewrite Hdate. cbn [py_getitem]. rewrite Hdate. cbn [mbind res_bind].
    rewrite Hage. cbn [mbind res_bind]. rewrite (proj2 (Z.ltb_lt _ _) Hold).
    cbn [py_get mbind res_bind]. by destruct Hstatus as [-> | ->]. }
  destruct (removable_ids_total age_days days cache) with (acc := @nil key)
    as [rm Hrm].
  { intros k v Hin. apply (Hall k). by apply dict_get_elem_nodup. }
  pose proof (removable_ids_spec _ _ _ _ _ Hrm) as Hspec. simpl in Hspec.
  assert (proposal_id ∈ rm) as Hin.
  { rewrite Hspec. apply list_elem_of_fmap. exists (proposal_id, VDict d).
    split; [done|]. apply list_elem_of_filter. split.
    - unfold is_removable. simpl. by rewrite Hr.
    - by apply dict_get_Some_elem. }
  rewrite (cleanup_outcome _ _ _ _ Hload), Hrm.
  destruct rm as [|k ks]; [by apply elem_of_nil in Hin|].
  rewrite get_info_saved
    by (eapply json_like_sublist; [apply remove_keys_sublist | done]).
  rewrite dict_get_remove_keys by done. by rewrite decide_True.
Qed.

(** An entry discovered at [demo_date], with an offset as [isoformat] of an
    aware time writes it, 400 days before the cleanup. *)
Lemma cleanup_removes_entry_scenario :
  let fs : disk :=
    {[ cache_file :=
         Text (JObject
                 [("1", JObject [("discovered_at", JString demo_date);
                                 ("status", JString "expired")])]) ]} in
  get_proposal_info_key (KStr "1")
    (cleanup_old_proposals demo_age_days 30 fs) = None.
Proof.
  intros fs.
  apply (cleanup_removes_entry demo_age_days 30 fs (KStr "1")
           [(KStr "discovered_at", VStr demo_date);
            (KStr "status", VStr "expired")] demo_date 400).
  - intros k v. unfold get_proposal_info_key.
    let d := eval vm_compute in (_load_cache fs) in
    change (_load_cache fs) with d.
    cbn [dict_get]. destruct (decide (k = KStr "1")); [|done].
    intros [= <-]. eexists. reflexivity.
  - reflexivity.
  - reflexivity.
  - reflexivity.
  - lia.
  - by right.
Defined.

(** X19.  The cleanup is all or nothing: one entry on which the test
    raises (a [discovered_at] that is no date or no [str], an entry that
    is a number) leaves the cache file as it is, whatever the other
    entries are. *)
Theorem cleanup_all_or_nothing
    (age_days : string → res Z) (days : Z) (fs : disk)
    (proposal_id : key) (proposal_info : value) (e : exn) :
  get_proposal_info_key proposal_id fs = Some proposal_info →
  removable age_days days proposal_info = Raise e →
  cleanup_old_proposals age_days days fs = fs.
Proof.
  intros Hget Hraise. unfold get_proposal_info_key in Hget.
  destruct (_load_cache fs) as [[| | | |cache]|e0] eqn:Hload; try done.
  rewrite (cleanup_outcome _ _ _ _ Hload).
  destruct (removable_ids_raise age_days days cache [] proposal_id
              proposal_info e) as [e' ->]; [|done..].
  by apply dict_get_Some_elem.
Qed.

Lemma cleanup_all_or_nothing_scenario :
  let fs : disk :=
    {[ cache_file :=
         Text (JObject
                 [("1", JObject [("discovered_at", JString demo_date);
                                 ("status", JString "expired")]);
                  ("2", JObject [("discovered_at", JNull)])]) ]} in
  cleanup_old_proposals demo_age_days 30 fs = fs.
Proof.
  intros fs.
  apply (cleanup_all_or_nothing demo_age_days 30 fs (KStr "2")
           (VDict [(KStr "discovered_at", VNone)]) AttributeError).
  - reflexivity.
  - reflexivity.
Defined.

(** ** Rotating backups: the cleanup run again, and a negative limit *)

(** The cleanup for every [max_backups]: [k] backups are kept, the newest
    ones. *)
Lemma cleanup_spec_slice dir N :
  NoDup dir.*1 →
  let S := sort_desc (backup_files dir) in
  let k := if 0 <=? N then Z.to_nat N
           else (length S - Z.to_nat (- N))%nat in
  _cleanup_old_backups dir N = filter (λ e, e.1 ∉ (drop k S).*1) dir ∧
  backup_files (_cleanup_old_backups dir N) ≡ₚ take k S.
Proof.
  intros Hnd S k.
  assert (_cleanup_old_backups dir N = filter (λ e, e.1 ∉ (drop k S).*1) dir)
    as Heq.
  { unfold _cleanup_old_backups, slice_from. fold S.
    unfold k. destruct (0 <=? N); apply fold_dir_remove. }
  split; [done|]. rewrite Heq.
  pose proof (backup_files_filter (λ name, name ∉ (drop k S).*1) dir) as Hf.
  cbv beta in Hf. rewrite Hf. clear Hf.
  assert (NoDup S.*1) as HndS.
  { unfold S. rewrite sort_desc_perm. by apply backup_files_nodup. }
  rewrite <- (sort_desc_perm (backup_files dir)). fold S.
  rewrite <- (take_drop k S) at 1. rewrite filter_app.
  rewrite <- (take_drop k S), fmap_app in HndS.
  apply NoDup_app in HndS as (_ & Hdisj & _).
  rewrite filter_all, filter_none, app_nil_r; [done| |].
  - apply Forall_forall. intros p Hp Hq. apply Hq. by apply list_elem_of_fmap_2.
  - apply Forall_forall. intros p Hp. apply Hdisj. by apply list_elem_of_fmap_2.
Qed.

(** X20.  The cleanup is idempotent: run again with the same limit on the
    directory it has left, it removes nothing. *)
Theorem cleanup_old_backups_twice (dir : directory) (max_backups : Z) :
  NoDup dir.*1 → 0 ≤ max_backups →
  _cleanup_old_backups (_cleanup_old_backups dir max_backups) max_backups
  = _cleanup_old_backups dir max_backups.
Proof.
  intros Hnd HN.
  pose proof (cleanup_count dir max_backups Hnd HN) as Hcount.
  unfold backup_count in Hcount.
  unfold _cleanup_old_backups at 1. rewrite slice_from_nonneg by done.
  rewrite drop_ge; [done|].
  rewrite (Permutation_length (sort_desc_perm _)). lia.
Qed.

Lemma cleanup_old_backups_twice_scenario :
  let dir := [("a.bak", demo_file 1); ("b.bak", demo_file 2);
              ("c.bak", demo_file 3); ("notes.txt", demo_file 0)] in
  _cleanup_old_backups (_cleanup_old_backups dir 2) 2
  = _cleanup_old_backups dir 2.
Proof.
  intros dir. apply (cleanup_old_backups_twice dir 2).
  - apply (bool_decide_unpack (NoDup _)). vm_compute. exact I.
  - lia.
Defined.

(** X21.  A negative [max_backups] does not empty the directory: the slice
    [backup_files[max_backups:]] then counts from the end, so only the
    [-max_backups] oldest backups are removed (all of them when there are
    no more), every backup kept is at least as new as every backup
    removed, and files that are not backups stay. *)
Theorem cleanup_old_backups_negative (dir : directory) (max_backups : Z) :
  NoDup dir.*1 → max_backups < 0 →
  let dir' := _cleanup_old_backups dir max_backups in
  backup_count dir' = (backup_count dir - Z.to_nat (- max_backups))%nat ∧
  (∀ kept removed,
     kept ∈ backup_files dir' → removed ∈ backup_files dir →
     removed ∉ backup_files dir' → removed.2 ≤ kept.2) ∧
  (∀ e, e ∈ dir → endswith e.1 ".bak" = false → e ∈ dir').
Proof.
  intros Hnd HN dir'.
  destruct (cleanup_spec_slice dir max_backups Hnd) as [Heq Hperm].
  rewrite (proj2 (Z.leb_gt 0 max_backups) HN) in Heq, Hperm.
  fold dir' in Heq, Hperm.
  set (S := sort_desc (backup_files dir)) in *.
  set (k := (length S - Z.to_nat (- max_backups))%nat) in *.
  assert (length S = backup_count dir) as Hlen.
  { unfold S, backup_count. by rewrite sort_desc_perm. }
  split; [|split].
  - unfold backup_count at 1. rewrite Hperm, length_take. lia.
  - intros kept removed Hkept Hrem Hgone.
    rewrite Hperm in Hkept, Hgone.
    assert (removed ∈ drop k S) as Hdrop.
    { rewrite <- (sort_desc_perm (backup_files dir)) in Hrem. fold S in Hrem.
      rewrite <- (take_drop k S) in Hrem.
      apply elem_of_app in Hrem as [|]; done. }
    pose proof (sort_desc_sorted (backup_files dir)) as Hsorted. fold S in Hsorted.
    rewrite <- (take_drop k S) in Hsorted.
    apply (StronglySorted_app_1_elem_of _ _ _ _ _ Hsorted Hkept Hdrop).
  - intros e Hin Hbak. rewrite Heq. apply list_elem_of_filter. split; [|done].
    intros (p & Hname & Hp)%list_elem_of_fmap.
    apply (subseteq_drop k) in Hp. unfold S in Hp.
    rewrite sort_desc_perm in Hp.
    apply backup_files_elem in Hp as (f & _ & Hb & _). congruence.
Qed.

Lemma cleanup_old_backups_negative_scenario :
  let dir := [("a.bak", demo_file 1); ("b.bak", demo_file 2);
              ("c.bak", demo_file 3); ("notes.txt", demo_file 0)] in
  let dir' := _cleanup_old_backups dir (-1) in
  backup_count dir' = (backup_count dir - Z.to_nat (- -1))%nat ∧
  (∀ kept removed,
     kept ∈ backup_files dir' → removed ∈ backup_files dir →
     removed ∉ backup_files dir' → removed.2 ≤ kept.2) ∧
  (∀ e, e ∈ dir → endswith e.1 ".bak" = false → e ∈ dir').
Proof.
  intros dir. apply (cleanup_old_backups_negative dir (-1)).
  - apply (bool_decide_unpack (NoDup _)). vm_compute. exact I.
  - lia.
Defined.

(** ** Clicks of any users in any threads *)

Lemma handle_vote_inactive tid user vote c :
  dict_mem tid (vote_counts c) = false →
  _handle_vote true tid user vote c = (Ok ThreadInactive, c).
Proof.
  intros Hmem. unfold _handle_vote, try_except, mbind, stx_bind, gets. simpl.
  by rewrite Hmem.
Qed.

Lemma handle_vote_other_thread permitted tid user vote c t :
  t ≠ tid →
  dict_get t (vote_counts (_handle_vote permitted tid user vote c).2)
  = dict_get t (vote_counts c).
Proof.
  intros Ht.
  apply (handle_vote_rule
           (λ s, dict_get t (vote_counts s) = dict_get t (vote_counts c))
           (λ _ s, dict_get t (vote_counts s) = dict_get t (vote_counts c)));
    try done;
    intros; simpl; by rewrite dict_get_set_ne.
Qed.

(** X22.  The tally invariant is an invariant of the bot: when every
    record of the tallies satisfies it, every record satisfies it after
    any sequence of clicks on the three buttons, by any users, in any
    threads, permitted or not. *)
Theorem clicks_keep_tally_invariant (clicks : list click) (c : client) :
  (∀ t v, dict_get t (vote_counts c) = Some v → tally_inv v) →
  Forall (λ k, click_vote k ∈ choices) clicks →
  ∀ t v, dict_get t (vote_counts (handle_clicks clicks c)) = Some v →
         tally_inv v.
Proof.
  intros Hinv Hvotes. revert c Hinv.
  induction Hvotes as [|[permitted tid user vote] clicks Hvote _ IH];
    intros c Hinv; [done|].
  unfold handle_clicks. cbn [fold_left]. apply IH. clear IH.
  simpl in *. intros t v.
  destruct (decide (t = tid)) as [->|Ht];
    [|rewrite handle_vote_other_thread by done; apply Hinv].
  destruct permitted; [|apply Hinv].
  destruct (dict_get tid (vote_counts c)) as [v0|] eqn:Hget.
  - destruct (handle_vote_inv tid user vote c v0 Hget (Hinv _ _ Hget) Hvote)
      as (r & u & _ & Hr & Hr_inv & _).
    rewrite Hr. by intros [= <-].
  - rewrite handle_vote_inactive; [cbn [snd]; by rewrite Hget|].
    unfold dict_mem. by rewrite Hget.
Qed.

(** Two users in thread ["100"] of scenario 2, one of whom changes the
    vote, and a click in a thread that is not there. *)
Lemma clicks_keep_tally_invariant_scenario :
  (∀ t v, dict_get t (vote_counts demo_client) = Some v → tally_inv v) ∧
  (∀ t v,
     dict_get t
       (vote_counts
          (handle_clicks [Click true (KStr "100") "42" "aye";
                          Click true (KStr "100") "7" "nay";
                          Click true (KStr "300") "7" "aye";
                          Click true (KStr "100") "42" "recuse"]
             demo_client)) = Some v →
     tally_inv v).
Proof.
  assert (∀ t v, dict_get t (vote_counts demo_client) = Some v → tally_inv v)
    as Hinv.
  { intros t v. simpl. destruct (decide (t = KStr "100")); [|done].
    intros [= <-]. exists demo_record, [], 0, 0, 0. repeat split; reflexivity. }
  split; [exact Hinv|].
  apply (clicks_keep_tally_invariant _ demo_client Hinv).
  repeat constructor; unfold choices; set_solver.
Defined.

(** ** Discovery: the ids reported *)


Lemma discover_loop_raise active clock ids :
  ∀ st k e,
    k ∈ ids → py_int k = Raise e →
    ∃ e', discover_loop active clock st ids = Raise e'.
Proof.
  induction ids as [|k0 ids IH]; intros st k e Hin Hk.
  - by apply elem_of_nil in Hin.
  - cbn [discover_loop]. apply elem_of_cons in Hin as [<-|Hin].
    + destruct st as [cached new]. unfold discover_one. rewrite Hk. by eauto.
    + destruct (discover_one active clock st k0) as [st'|e0];
        cbn [mbind res_bind]; [by eapply IH | by eauto].
Qed.



(** X24.  Discovery is all or nothing: one key of [active_proposals] that
    [int()] does not accept makes [monitor_new_proposals] return no id at
    all and leave the cache file as it is, whatever the other proposals
    are. *)
Theorem discovery_all_or_nothing
    (active_proposals : dict) (clock : nat → string) (fs : disk)
    (k : key) (e : exn) :
  k ∈ dict_keys active_proposals → py_int k = Raise e →
  monitor_new_proposals active_proposals clock fs = ([], fs).
Proof.
  intros Hin Hk. unfold monitor_new_proposals, discover.
  destruct (load_cache_total fs) as [cached ->].
  cbn [mbind res_bind].
  by destruct (discover_loop_raise active_proposals clock
                 (dict_keys active_proposals) (cached, []) k e Hin Hk)
    as [e' ->].
Qed.

Lemma discovery_all_or_nothing_scenario :
  monitor_new_proposals
    [(KStr "1", VDict [(KStr "title", VStr "Fund")]);
     (KStr "0x2", VDict [(KStr "title", VStr "Bridge")])]
    (λ _, "t0") ∅ = ([], ∅).
Proof.
  apply (discovery_all_or_nothing _ (λ _, "t0") ∅ (KStr "0x2") ValueError).
  - unfold dict_keys. simpl. set_solver.
  - vm_compute. reflexivity.
Defined.

(** *** The users of a record *)

(** X25.  The answer "recorded" is truthful, whatever the record looked
    like before: after a recorded click the user is registered with the
    choice, and the count of the choice is an [int]; it is at least 1 when
    the count was not a negative [int] before. *)
Theorem handle_vote_recorded
    (permitted : bool) (thread_id : key) (user_id vote_type : string)
    (c : client) :
  let out := _handle_vote permitted thread_id user_id vote_type c in
  out.1 = Ok (Recorded vote_type) →
  ∃ r u n,
    dict_get thread_id (vote_counts out.2) = Some (VDict r) ∧
    users_of r = Some u ∧
    dict_get (KStr user_id) u = Some (VStr vote_type) ∧
    tally vote_type r = Some n ∧
    ((∀ r0 n0, dict_get thread_id (vote_counts c) = Some (VDict r0) →
               dict_get (KStr vote_type) r0 = Some (VInt n0) → 0 ≤ n0) →
     1 ≤ n).
Proof.
  set (P := ∀ r0 n0, dict_get thread_id (vote_counts c) = Some (VDict r0) →
                     dict_get (KStr vote_type) r0 = Some (VInt n0) → 0 ≤ n0).
  set (I := λ s : client,
         P → ∀ r n, dict_get thread_id (vote_counts s) = Some (VDict r) →
                    dict_get (KStr vote_type) r = Some (VInt n) → 0 ≤ n).
  set (J := λ s : client,
         I s ∧
         ∃ r u, dict_get thread_id (vote_counts s) = Some (VDict r) ∧
                dict_get (KStr "users") r = Some (VDict u) ∧
                dict_get (KStr user_id) u = Some (VStr vote_type)).
  set (K := λ s : client,
         ∃ r u n,
           dict_get thread_id (vote_counts s) = Some (VDict r) ∧
           users_of r = Some u ∧
           dict_get (KStr user_id) u = Some (VStr vote_type) ∧
           tally vote_type r = Some n ∧ (P → 1 ≤ n)).
  assert (∀ s r k' v,
            I s → dict_get thread_id (vote_counts s) = Some (VDict r) →
            (∀ n, v = VInt n → k' = KStr vote_type → 0 ≤ n) →
            I (Client (dict_set thread_id (VDict (dict_set k' v r))
                                (vote_counts s)) (data_dir s))) as Hstep.
  { intros s r k' v Hs Hr Hv HP r' n. simpl. rewrite dict_get_set_eq.
    intros [= <-]. rewrite dict_get_set.
    destruct (decide (k' = KStr vote_type)) as [->|Hne].
    - intros [= ->]. by apply Hv.
    - by apply Hs. }
  apply (handle_vote_rule_phases I J K
           (λ r s, r = Ok (Recorded vote_type) → K s)); try done.
  - by intros HP.
  - intros s r users previous_vote k' n Hs Hr _ _ _ _ _.
    apply Hstep; [done..|]. intros m [= <-] _. lia.
  - intros s r Hs Hr _. by apply Hstep.
  - intros s r u Hs Hr Hu. split; [by apply Hstep|].
    eexists _, _. simpl. rewrite dict_get_set_eq. split; [done|].
    rewrite dict_get_set_eq. split; [done|]. apply dict_get_set_eq.
  - intros s r n [Hs (r' & u & Hr' & Hu & Huser)] Hr Hadd.
    assert (r' = r) as -> by congruence.
    assert (KStr vote_type ≠ KStr "users") as Hne.
    { intros Heq. rewrite Heq, Hu in Hadd. done. }
    exists (dict_set (KStr vote_type) (VInt n) r), u, n. simpl.
    rewrite dict_get_set_eq. split; [done|].
    unfold users_of, tally. rewrite dict_get_set_ne by done. rewrite Hu.
    rewrite dict_get_set_eq.
    split; [done|]. split; [done|]. split; [done|]. intros HP.
    destruct (dict_get (KStr vote_type) r) as [[|z| | |]|] eqn:Hk;
      try done; simpl in Hadd; injection Hadd as <-.
    + specialize (Hs HP _ _ Hr Hk). lia.
    + lia.
Qed.

(** On a record whose nay count is [-3]: user ["7"] casts nay; the vote is
    registered and the count is the [int] [-2]. *)
Lemma handle_vote_recorded_scenario :
  let c := Client [(KStr "100",
                    VDict [(KStr "index", VInt 1); (KStr "aye", VInt 0);
                           (KStr "nay", VInt (-3)); (KStr "recuse", VInt 0);
                           (KStr "users", VDict [])])] ∅ in
  (_handle_vote true (KStr "100") "7" "nay" c).1 = Ok (Recorded "nay") ∧
  ∃ r u n,
    dict_get (KStr "100")
      (vote_counts (_handle_vote true (KStr "100") "7" "nay" c).2)
      = Some (VDict r) ∧
    users_of r = Some u ∧
    dict_get (KStr "7") u = Some (VStr "nay") ∧
    tally "nay" r = Some n ∧ n = -2.
Proof.
  intros c. split; [reflexivity|].
  destruct (handle_vote_recorded true (KStr "100") "7" "nay" c)
    as (r & u & n & Hr & Hu & Huser & Hn & _); [reflexivity|].
  exists r, u, n. split; [exact Hr|]. split; [exact Hu|].
  split; [exact Huser|]. split; [exact Hn|].
  vm_compute in Hr. injection Hr as <-. vm_compute in Hn. by injection Hn.
Defined.

(** X26.  A click does not touch the vote of another user: in [users] of
    the record, the entry of every user but the one who clicks is after
    the click what it was before, whatever the answer. *)
Theorem handle_vote_other_users
    (permitted : bool) (thread_id : key) (user_id vote_type : string)
    (c : client) (r0 u0 : dict) (other : string) :
  dict_get thread_id (vote_counts c) = Some (VDict r0) →
  users_of r0 = Some u0 →
  other ≠ user_id →
  let c' := (_handle_vote permitted thread_id user_id vote_type c).2 in
  ∀ r u, dict_get thread_id (vote_counts c') = Some (VDict r) →
         users_of r = Some u →
         dict_get (KStr other) u = dict_get (KStr other) u0.
Proof.
  intros Hr0 Hu0%users_of_Some Hother.
  set (I := λ s : client,
         ∃ r, dict_get thread_id (vote_counts s) = Some (VDict r) ∧
              dict_mem (KStr "users") r = true ∧
              ∀ u, dict_get (KStr "users") r = Some (VDict u) →
                   dict_get (KStr other) u = dict_get (KStr other) u0).
  assert (I (_handle_vote permitted thread_id user_id vote_type c).2)
    as (r' & Hr' & _ & Hu').
  2: { intros c' r u Hr Hu%users_of_Some. fold c' in Hr'.
       assert (r' = r) as -> by congruence. by apply Hu'. }
  assert (I c) as Hc.
  { exists r0. split; [done|]. unfold dict_mem. rewrite Hu0.
    split; [done|]. by intros u [= <-]. }
  assert (∀ s r k n,
            I s → dict_get thread_id (vote_counts s) = Some (VDict r) →
            I (Client (dict_set thread_id (VDict (dict_set k (VInt n) r))
                                (vote_counts s)) (data_dir s))) as Hcount.
  { intros s r k n (r' & Hr' & Hmem & Hu) Hr.
    assert (r' = r) as -> by congruence.
    eexists. simpl. rewrite dict_get_set_eq. split; [done|].
    rewrite dict_mem_set, Hmem, orb_true_r. split; [done|].
    intros u. rewrite dict_get_set.
    destruct (decide (k = KStr "users")); [done|]. apply Hu. }
  apply (handle_vote_rule I (λ _ s, I s)); try done.
  - intros s r users previous_vote k n Hs Hr _ _ _ _ _. by apply Hcount.
  - intros s r (r' & Hr' & Hmem & _) Hr Hno.
    assert (r' = r) as -> by congruence. congruence.
  - intros s r u (r' & Hr' & Hmem & Hu) Hr Husers.
    assert (r' = r) as -> by congruence.
    eexists. simpl. rewrite dict_get_set_eq. split; [done|].
    rewrite dict_mem_set, Hmem, orb_true_r. split; [done|].
    intros u'. rewrite dict_get_set_eq. intros [= <-].
    rewrite dict_get_set_ne by congruence. by apply Hu.
  - intros s r n Hs Hr _. by apply Hcount.
Qed.

(** On the drifted record: user ["7"] votes; the vote of ["42"] stays. *)
Lemma handle_vote_other_users_scenario :
  "42" ≠ "7" ∧
  ∀ r u,
    dict_get (KStr "100")
      (vote_counts (_handle_vote true (KStr "100") "7" "nay"
                      demo_drifted_client).2) = Some (VDict r) →
    users_of r = Some u →
    dict_get (KStr "42") u
    = dict_get (KStr "42") [(KStr "42", VStr "aye")].
Proof.
  split; [discriminate|].
  eapply (handle_vote_other_users true (KStr "100") "7" "nay"
            demo_drifted_client _ [(KStr "42", VStr "aye")] "42").
  - reflexivity.
  - reflexivity.
  - discriminate.
Defined.

(** ** Discovery: what is persisted *)

Lemma to_int_not_nil z : Z.to_int z ≠ Decimal.Pos Decimal.Nil ∧
                         Z.to_int z ≠ Decimal.Neg Decimal.Nil.
Proof.
  destruct z as [|p|p]; simpl; split; try discriminate;
    intros [= Hp]; by apply DecimalPos.Unsigned.to_uint_nonnil in Hp.
Qed.

Lemma str_of_int_inj z1 z2 : str_of_int z1 = str_of_int z2 → z1 = z2.
Proof.
  unfold str_of_int. intros Heq. apply DecimalZ.to_int_inj.
  destruct (to_int_not_nil z1) as [H1 H1'], (to_int_not_nil z2) as [H2 H2'].
  pose proof (NilZero.isi (Z.to_int z1) H1 H1') as E1.
  pose proof (NilZero.isi (Z.to_int z2) H2 H2') as E2.
  rewrite Heq in E1. congruence.
Qed.

(** The last pair with a key is what [dict(pairs)] holds for it. *)
Lemma dict_get_of_pairs_last {V} (k : key) (v : V) (l l' : list (key * V)) :
  k ∉ l'.*1 → dict_get k (dict_of_pairs (l ++ (k, v) :: l')) = Some v.
Proof.
  unfold dict_of_pairs. rewrite fold_left_app. cbn [fold_left fst snd].
  generalize (fold_left (λ d kv, dict_set kv.1 kv.2 d) l []). intros acc.
  revert acc. induction l' as [|[k' v'] l' IH]; intros acc Hk.
  - apply dict_get_set_eq.
  - rewrite fmap_cons in Hk. apply not_elem_of_cons in Hk as [Hne Hk].
    cbn [fold_left fst snd].
    assert (∀ acc0, dict_get k acc0 = Some v →
              dict_get k (fold_left (λ d kv, dict_set kv.1 kv.2 d) l' acc0)
              = Some v) as Hkeep.
    { clear IH acc. induction l' as [|[k2 v2] l' IH2]; intros acc0 H0; [done|].
      rewrite fmap_cons in Hk. apply not_elem_of_cons in Hk as [Hne2 Hk].
      cbn [fold_left fst snd]. apply IH2; [done|].
      rewrite dict_get_set_ne by done. done. }
    apply Hkeep. rewrite dict_get_set_ne by done. apply dict_get_set_eq.
Qed.

(** What the loop adds to the cache: one entry for each id it reports,
    under the [int] id, after the entries that were there. *)
Lemma discover_loop_entries active clock ids :
  ∀ (cached : dict) new cached' new',
    discover_loop active clock (VDict cached, new) ids = Ok (cached', new') →
    ∃ added,
      cached' = VDict (cached ++ added) ∧
      new' = new ++ ((λ kv, match kv.1 with
                            | KInt z => z
                            | KStr _ => 0
                            end) <$> added) ∧
      Forall (λ kv, ∃ z discovered_at title,
                kv = (KInt z,
                      VDict [(KStr "id", VInt z);
                             (KStr "discovered_at", VStr discovered_at);
                             (KStr "status", VStr "new");
                             (KStr "title", title)])) added ∧
      (NoDup (dict_keys cached) → NoDup (dict_keys (cached ++ added))).
Proof.
  induction ids as [|k ids IH]; intros cached new cached' new'.
  - simpl. intros [= <- <-]. exists []. by rewrite !app_nil_r.
  - cbn [discover_loop]. unfold discover_one.
    destruct (py_int k) as [z0|e]; [|done].
    cbn [mbind res_bind py_contains].
    destruct (dict_mem (KInt z0) cached) eqn:Hseen; cbn [negb].
    + cbn [mbind res_bind]. apply IH.
    + destruct (dict_get k active) as [md|]; [|done]. cbn [mbind res_bind].
      destruct (py_get md _ _) as [title|e]; [|done].
      cbn [mbind res_bind py_setitem].
      intros (added & -> & -> & Hall & Hnd)%IH.
      assert (∀ v, dict_set (KInt z0) v cached = cached ++ [(KInt z0, v)])
        as Hset.
      { intros v. apply dict_set_fresh. unfold dict_mem in Hseen.
        by destruct (dict_get (KInt z0) cached). }
      eexists (_ :: added). rewrite Hset, <- !app_assoc. split; [done|].
      split; [done|]. split.
      * apply Forall_cons. split; [|done]. by eexists _, _, _.
      * intros Hc. rewrite Hset, <- app_assoc in Hnd. apply Hnd.
        rewrite <- Hset. by apply dict_set_nodup.
Qed.

(** X27.  When the cache file holds a JSON object (or is malformed, or is
    not there), every id [monitor_new_proposals] reports is in the cache
    file afterwards, under the [str] of the id: the entry found there has
    the id and the status new.  Under the [int] id nothing is found. *)
Theorem discovery_persists_ids
    (active_proposals : dict) (clock : nat → string) (fs : disk) (z : Z) :
  holds_object cache_file fs →
  let out := monitor_new_proposals active_proposals clock fs in
  z ∈ out.1 →
  (∃ entry,
     get_proposal_info_key (KStr (str_of_int z)) out.2 = Some (VDict entry) ∧
     dict_get (KStr "id") entry = Some (VInt z) ∧
     dict_get (KStr "status") entry = Some (VStr "new")) ∧
  get_proposal_info z out.2 = None.
Proof.
  intros Hfs. cbv zeta. intros Hz. split; [|apply get_proposal_info_none].
  revert Hz. unfold monitor_new_proposals, discover.
  destruct (load_cache_str_keys fs Hfs) as (cached & Hload & _).
  rewrite Hload. cbn [mbind res_bind].
  destruct (discover_loop active_proposals clock (VDict cached, []) _)
    as [[cached' new']|e] eqn:Hrun; [|by intros Hz%elem_of_nil].
  cbn [fst snd]. intros Hz.
  destruct (discover_loop_entries _ _ _ _ _ _ _ Hrun)
    as (added & -> & Hnew & Hall & Hnd).
  simpl in Hnew. subst new'.
  pose proof (load_cache_json_like _ _ Hload) as [Hc _]%json_like_dict.
  specialize (Hnd Hc).
  apply list_elem_of_fmap in Hz as ([k v] & Hk & Hin). simpl in Hk.
  rewrite Forall_forall in Hall.
  destruct (Hall _ Hin) as (z' & discovered_at & title & [= -> ->]).
  simpl in Hk. subst z'.
  apply list_elem_of_split in Hin as (l1 & l2 & ->).
  unfold get_proposal_info_key. rewrite load_cache_save_cache.
  cbn [dumps loads].
  rewrite !app_assoc, !map_app. cbn [map fst snd key_str].
  rewrite dict_get_of_pairs_last.
  - eexists. split; [reflexivity|]. split; reflexivity.
  - unfold dict_keys in Hnd. rewrite !fmap_app, fmap_cons in Hnd.
    apply NoDup_app in Hnd as (_ & _ & Hnd).
    apply NoDup_app in Hnd as (_ & _ & Hnd).
    apply NoDup_cons in Hnd as [Hfresh _]. cbn [fst] in Hfresh.
    intros Hin. apply Hfresh.
    apply list_elem_of_fmap in Hin as ([k' v'] & Hk' & Hin). simpl in Hk'.
    apply list_elem_of_fmap in Hin as ([s j] & [= -> ->] & Hin).
    apply list_elem_of_fmap in Hin as ([k2 v2] & [= Hs _] & Hin).
    apply list_elem_of_fmap. exists (k2, v2). split; [|done]. simpl.
    assert ((k2, v2) ∈ l1 ++ (KInt z, VDict
              [(KStr "id", VInt z); (KStr "discovered_at", VStr discovered_at);
               (KStr "status", VStr "new"); (KStr "title", title)]) :: l2)
      as Hin2.
    { apply elem_of_app. right. by right. }
    destruct (Hall _ Hin2) as (z2 & ? & ? & [= -> _]).
    simpl in Hs. injection Hk' as Hk'. rewrite Hs in Hk'.
    by apply str_of_int_inj in Hk' as ->.
Qed.

Lemma discovery_persists_ids_scenario :
  let out := monitor_new_proposals demo_active (λ _, "t0") ∅ in
  holds_object cache_file ∅ ∧
  2 ∈ out.1 ∧
  (∃ entry,
     get_proposal_info_key (KStr (str_of_int 2)) out.2 = Some (VDict entry) ∧
     dict_get (KStr "id") entry = Some (VInt 2) ∧
     dict_get (KStr "status") entry = Some (VStr "new")) ∧
  get_proposal_info 2 out.2 = None.
Proof.
  assert (holds_object cache_file ∅) as Hfs by (vm_compute; exact I).
  assert (2 ∈ (monitor_new_proposals demo_active (λ _, "t0") ∅).1) as Hin.
  { apply (bool_decide_unpack (_ ∈ _)). vm_compute. exact I. }
  split; [exact Hfs|]. split; [exact Hin|].
  apply (discovery_persists_ids demo_active (λ _, "t0") ∅ 2 Hfs Hin).
Defined.
